(** * PSPLIB to utf8proj converter: a shallow embedding of
    [tools/psplib_to_proj.py] and the properties of its parser, translator,
    optimal-solutions loader, batch driver and command line.

    Conventions of the embedding.
    - Python [int] is [Z]; Python [str] is [string] (the text is taken to be
      ASCII, which is what PSPLIB files and the labels [R1..Rk] are).
    - A Python [dict] is an association list in insertion order, with
      [dict_set] overwriting in place and appending new keys, as CPython
      does.  A well-formed dict has no duplicate key ([dict_wf]).
    - Code that can raise returns [result A = exn + A]. *)

From Stdlib Require Import ZArith Lia Ascii String DecimalString DecimalZ DecimalPos.
From stdpp Require Import base option list numbers strings sorting.

Local Open Scope Z_scope.

(** ** Exceptions and the error monad *)

Inductive exn : Type :=
  | ValueError (literal : string)     (* int() on a token that is no integer *)
  | ZeroDivisionError                 (* x / 0 *)
  | KeyError (key : string)           (* d[k] on a missing key *)
  | OSError (msg : string).           (* open() failed *)

Definition result (A : Type) : Type := (exn + A)%type.

Definition raise {A} (e : exn) : result A := inl e.

Global Instance result_ret : MRet result := λ A x, inr x.
Global Instance result_bind : MBind result :=
  λ A B f m, match m with inl e => inl e | inr x => f x end.
Global Instance result_fmap : FMap result :=
  λ A B f m, match m with inl e => inl e | inr x => inr (f x) end.

(** [str(e)] as printed by the batch driver's warning. *)
Definition exn_str (e : exn) : string :=
  match e with
  | ValueError lit => "invalid literal for int() with base 10: '" +:+ lit +:+ "'"
  | ZeroDivisionError => "division by zero"
  | KeyError key => key
  | OSError msg => msg
  end.

(** ** The Python runtime used by the script *)

Module Py.

(** [str.isspace] on one ASCII character: TAB, LF, VT, FF, CR, FS, GS, RS,
    US and the blank. *)
Definition isspace (a : ascii) : bool :=
  let n := N_of_ascii a in
  ((9 <=? n) && (n <=? 13) || (28 <=? n) && (n <=? 32))%N.

Definition is_digit (a : ascii) : bool :=
  let n := N_of_ascii a in ((48 <=? n) && (n <=? 57))%N.

Definition digit_val (a : ascii) : Z := Z.of_N (N_of_ascii a) - 48.

(** [s.split()]: maximal runs of non-blank characters. *)
Fixpoint split_go (cur : option string) (s : string) : list string :=
  match s with
  | EmptyString => option_list (String.rev <$> cur)
  | String a s' =>
      if isspace a
      then option_list (String.rev <$> cur) ++ split_go None s'
      else split_go (Some (String a (default EmptyString cur))) s'
  end.
Definition split (s : string) : list string := split_go None s.

(** [s.split(sep)] for a one-character separator: always at least one
    piece. *)
Fixpoint split_on_go (sep : ascii) (cur : string) (s : string) : list string :=
  match s with
  | EmptyString => [String.rev cur]
  | String a s' =>
      if decide (a = sep) then String.rev cur :: split_on_go sep EmptyString s'
      else split_on_go sep (String a cur) s'
  end.
Definition split_on (sep : ascii) (s : string) : list string :=
  split_on_go sep EmptyString s.

(** [s.strip()]. *)
Fixpoint lstrip (s : string) : string :=
  match s with
  | String a s' => if isspace a then lstrip s' else s
  | EmptyString => EmptyString
  end.
Definition strip (s : string) : string :=
  String.rev (lstrip (String.rev (lstrip s))).

(** [s.isdigit()]: non-empty and digits only. *)
Fixpoint all_digits (s : string) : bool :=
  match s with
  | EmptyString => true
  | String a s' => is_digit a && all_digits s'
  end.
Definition isdigit (s : string) : bool :=
  match s with EmptyString => false | _ => all_digits s end.

(** [int(s)] in base 10 on a token without blanks: an optional sign, then
    digits, where single underscores may separate digits.  Numerals are
    taken below the interpreter's limit on the number of digits (4300 by
    default in recent CPython), past which [int()] refuses any numeral. *)
Fixpoint int_digits (acc : Z) (after_us : bool) (s : string) : option Z :=
  match s with
  | EmptyString => if after_us then None else Some acc
  | String a s' =>
      if decide (a = "_"%char)
      then if after_us then None else int_digits acc true s'
      else if is_digit a then int_digits (10 * acc + digit_val a) false s'
      else None
  end.
Definition int_unsigned (s : string) : option Z :=
  match s with
  | String a s' =>
      if is_digit a then int_digits (digit_val a) false s' else None
  | EmptyString => None
  end.
Definition int_opt (s : string) : option Z :=
  match s with
  | String "+" s' => int_unsigned s'
  | String "-" s' => Z.opp <$> int_unsigned s'
  | _ => int_unsigned s
  end.
Definition int (s : string) : result Z :=
  match int_opt s with
  | Some z => mret z
  | None => raise (ValueError s)
  end.

(** [str(n)], the decimal numeral that an f-string prints. *)
Definition str (z : Z) : string := NilZero.string_of_int (Z.to_int z).

(** [s.lower()] on ASCII text. *)
Definition lower_char (a : ascii) : ascii :=
  let n := N_of_ascii a in
  if ((65 <=? n) && (n <=? 90))%N then ascii_of_N (n + 32) else a.
Fixpoint lower (s : string) : string :=
  match s with
  | EmptyString => EmptyString
  | String a s' => String (lower_char a) (lower s')
  end.

(** [sep.join(l)]. *)
Fixpoint join (sep : string) (l : list string) : string :=
  match l with
  | [] => EmptyString
  | [x] => x
  | x :: l' => x +:+ sep +:+ join sep l'
  end.

(** [sub in s]. *)
Fixpoint starts_with (p s : string) : bool :=
  match p, s with
  | EmptyString, _ => true
  | String a p', String b s' => bool_decide (a = b) && starts_with p' s'
  | String _ _, EmptyString => false
  end.
Fixpoint contains (sub s : string) : bool :=
  starts_with sub s ||
  match s with
  | EmptyString => false
  | String _ s' => contains sub s'
  end.

(** [Path(p).name] and [Path(p).stem] on a plain path: the text after the
    last slash, and that name without its last suffix (a suffix starts at a
    dot that is neither the first nor the last character). *)
Fixpoint rsplit_at (sep : ascii) (s : string) : option (string * string) :=
  match s with
  | EmptyString => None
  | String a s' =>
      match rsplit_at sep s' with
      | Some (before, after) => Some (String a before, after)
      | None => if decide (a = sep) then Some (EmptyString, s') else None
      end
  end.
Definition path_name (p : string) : string :=
  match rsplit_at "/" p with Some (_, n) => n | None => p end.
Definition name_stem (n : string) : string :=
  match rsplit_at "." n with
  | Some (String a before, String b after) => String a before
  | _ => n
  end.
Definition path_stem (p : string) : string := name_stem (path_name p).

(** [[f(x) for x in l]] where [f] may raise. *)
Fixpoint traverse {A B} (f : A → result B) (l : list A) : result (list B) :=
  match l with
  | [] => mret []
  | x :: l' => y ← f x; ys ← traverse f l'; mret (y :: ys)
  end.

(** [round(n / c)] for integers [n] and [c]: CPython divides the two
    integers into the correctly rounded double and [round] takes the
    nearest integer, an exact half going to the even neighbour.  On
    integers this is computed exactly (the double and the exact
    quotient round alike as long as [|n| < 2^52], far above any demand
    of a benchmark); [c = 0] raises. *)
Definition round_half_even (n c : Z) : Z :=
  let q := n `div` c in
  let r := n `mod` c in
  if 2 * r <? c then q
  else if c <? 2 * r then q + 1
  else if Z.even q then q else q + 1.
Definition round_div (n c : Z) : result Z :=
  if decide (c = 0) then raise ZeroDivisionError
  else if decide (0 < c) then mret (round_half_even n c)
  else mret (round_half_even (- n) (- c)).

(** The order of [(str, int)] tuples: by the string, then by the
    integer. *)
Definition item_le (x y : string * Z) : Prop :=
  if decide (x.1 = y.1) then x.2 ≤ y.2 else String.le x.1 y.1.
Global Instance item_le_dec : RelDecision item_le.
Proof. intros x y. unfold item_le. destruct (decide (x.1 = y.1)); apply _. Defined.

(** [sorted(l)]: for a total order the sorted list is unique, so any
    sorting function is the same function as Timsort. *)
Definition sorted_ints (l : list Z) : list Z := merge_sort Z.le l.
Definition sorted_strs (l : list string) : list string := merge_sort String.le l.
Definition sorted_items (l : list (string * Z)) : list (string * Z) :=
  merge_sort item_le l.

(** [s.replace(old, new)] for a non-empty [old]: every occurrence of
    [old], found from the left and without overlap, becomes [new]. *)
Fixpoint replace_go (old new : string) (skip : nat) (s : string) : string :=
  match s with
  | EmptyString => EmptyString
  | String a s' =>
      match skip with
      | S skip' => replace_go old new skip' s'
      | O =>
          if starts_with old s
          then new +:+ replace_go old new (String.length old - 1) s'
          else String a (replace_go old new 0 s')
      end
  end.
Definition replace (old new s : string) : string := replace_go old new 0 s.

End Py.

(** ** Dictionaries in insertion order *)

Abbreviation dict K V := (list (K * V)) (only parsing).

Section Dict.
Context {K V : Type} `{EqDecision K}.

Fixpoint dict_get (d : dict K V) (k : K) : option V :=
  match d with
  | [] => None
  | (k', v) :: d' => if decide (k' = k) then Some v else dict_get d' k
  end.

(** [d.get(k, dflt)]. *)
Definition dict_get_or (d : dict K V) (k : K) (dflt : V) : V :=
  default dflt (dict_get d k).

(** [d[k]], which raises [KeyError] on a missing key ([shown] is the
    key as the exception prints it). *)
Definition dict_index (d : dict K V) (k : K) (shown : string) : result V :=
  match dict_get d k with
  | Some v => mret v
  | None => raise (KeyError shown)
  end.

(** [d[k] = v]: an existing key keeps its place, a new one goes last. *)
Fixpoint dict_set (d : dict K V) (k : K) (v : V) : dict K V :=
  match d with
  | [] => [(k, v)]
  | (k', v') :: d' =>
      if decide (k' = k) then (k, v) :: d' else (k', v') :: dict_set d' k v
  end.

Definition dict_keys (d : dict K V) : list K := d.*1.

Definition dict_wf (d : dict K V) : Prop := NoDup (dict_keys d).

(** Equality as mappings, whatever the insertion order. *)
Definition dict_equiv (d1 d2 : dict K V) : Prop :=
  ∀ k, dict_get d1 k = dict_get d2 k.
End Dict.

(** ** The data model *)

Record PSPLIBInstance : Type := mkInstance {
  name : string;
  jobs : Z;
  resources : Z;
  horizon : Z;
  precedence : dict Z (list Z);          (* job_id -> successor job_ids *)
  durations : dict Z Z;                  (* job_id -> duration *)
  demands : dict Z (dict string Z);      (* job_id -> {resource_id: demand} *)
  capacities : dict string Z             (* resource_id -> capacity *)
}.

(** ** The translator: [convert_to_proj] *)

Definition dquote : string := String (ascii_of_nat 34) EmptyString.
Definition newline : string := String (ascii_of_nat 10) EmptyString.

Definition header_lines (inst : PSPLIBInstance) (optimal_makespan : option Z)
    : list string :=
  [ "# PSPLIB Instance: " +:+ name inst;
    "# Jobs: " +:+ Py.str (jobs inst) +:+ ", Resources: " +:+ Py.str (resources inst) ]
  ++ match optimal_makespan with
     | Some m =>
         if decide (m = 0) then []
         else ["# Optimal Makespan: " +:+ Py.str m +:+ " days"]
     | None => []
     end
  ++ [ "# Source: https://www.om-db.wi.tum.de/psplib/"; "" ].

Definition project_lines (inst : PSPLIBInstance) : list string :=
  [ "project " +:+ dquote +:+ name inst +:+ dquote +:+ " {";
    "    start: 2026-01-05";
    "    calendar: continuous";
    "}";
    "";
    "calendar " +:+ dquote +:+ "continuous" +:+ dquote +:+ " {";
    "    working_days: mon, tue, wed, thu, fri, sat, sun";
    "}";
    "" ].

Definition resource_block (item : string * Z) : list string :=
  let '(res_id, capacity) := item in
  [ "resource " +:+ Py.lower res_id +:+ " " +:+ dquote +:+ res_id +:+ dquote +:+ " {";
    "    rate: 100/day";
    "    # PSPLIB capacity: " +:+ Py.str capacity +:+ " units";
    "}" ].

Definition resource_lines (inst : PSPLIBInstance) : list string :=
  mjoin (resource_block <$> Py.sorted_items (capacities inst)) ++ [""].

(** [sorted([j for j in durations.keys() if durations[j] > 0])]. *)
Definition real_jobs (inst : PSPLIBInstance) : list Z :=
  Py.sorted_ints
    (filter (λ j, 0 < dict_get_or (durations inst) j 0) (dict_keys (durations inst))).

(** The loop that collects the predecessors of [job_id]. *)
Definition predecessors (inst : PSPLIBInstance) (job_id : Z) : list Z :=
  foldl (λ preds '(pred_id, succ_list),
           if bool_decide (job_id ∈ succ_list)
              && bool_decide (0 < dict_get_or (durations inst) pred_id 0)
           then preds ++ [pred_id] else preds)
        [] (precedence inst).

(** The loop that collects the [label@pct%] assignments of a job. *)
Fixpoint assignments (caps : dict string Z) (items : list (string * Z))
    (acc : list string) : result (list string) :=
  match items with
  | [] => mret acc
  | (res_id, demand) :: rest =>
      if decide (0 < demand) then
        pct ← Py.round_div (demand * 100) (dict_get_or caps res_id 10);
        assignments caps rest (acc ++ [Py.lower res_id +:+ "@" +:+ Py.str pct +:+ "%"])
      else assignments caps rest acc
  end.

Definition task_header (job_id : Z) : string :=
  "task j" +:+ Py.str job_id +:+ " " +:+ dquote +:+ "Job " +:+ Py.str job_id
  +:+ dquote +:+ " {".

Definition assign_line (asg : list string) : list string :=
  match asg with
  | [] => []
  | _ => ["    assign: " +:+ Py.join ", " asg]
  end.

Definition depends_line (preds : list Z) : list string :=
  match preds with
  | [] => []
  | _ => ["    depends: " +:+ Py.join ", " ((λ p, "j" +:+ Py.str p) <$> Py.sorted_ints preds)]
  end.

(** One iteration of the task loop. *)
Definition task_block (inst : PSPLIBInstance) (job_id : Z) : result (list string) :=
  duration ← dict_index (durations inst) job_id (Py.str job_id);
  let job_demands := dict_get_or (demands inst) job_id [] in
  let preds := predecessors inst job_id in
  asg ← assignments (capacities inst) (Py.sorted_items job_demands) [];
  mret ([ task_header job_id; "    duration: " +:+ Py.str duration +:+ "d" ]
        ++ assign_line asg ++ depends_line preds ++ ["}"]).

Fixpoint task_lines (inst : PSPLIBInstance) (js : list Z) : result (list string) :=
  match js with
  | [] => mret []
  | j :: js' =>
      b ← task_block inst j;
      bs ← task_lines inst js';
      mret (b ++ bs)
  end.

Definition proj_lines (inst : PSPLIBInstance) (optimal_makespan : option Z)
    : result (list string) :=
  ts ← task_lines inst (real_jobs inst);
  mret (header_lines inst optimal_makespan ++ project_lines inst
        ++ resource_lines inst ++ ts ++ [""]).

Definition convert_to_proj (inst : PSPLIBInstance) (optimal_makespan : option Z)
    : result string :=
  Py.join newline <$> proj_lines inst optimal_makespan.

(** ** The regular expressions of the script

    A backtracking matcher with the priorities of Python's [re]: a greedy
    repetition tries one more round first, a lazy one tries to stop first,
    an alternation tries its left branch first, and [search] takes the
    leftmost start.  Every repeated body of the script consumes a
    character, so a round that consumes nothing is refused. *)

Module Re.

Inductive cls : Type :=
  | Any                 (* [.] under DOTALL *)
  | Dot                 (* [.] without DOTALL: anything but a newline *)
  | Space               (* [\s] *)
  | Digit               (* [\d] *)
  | Chr (a : ascii).

Definition cls_match (c : cls) (a : ascii) : bool :=
  match c with
  | Any => true
  | Dot => negb (bool_decide (a = ascii_of_nat 10))
  | Space => Py.isspace a
  | Digit => Py.is_digit a
  | Chr b => bool_decide (a = b)
  end.

Inductive regex : Type :=
  | Lit (s : string)
  | Cls (c : cls)
  | Cat (r1 r2 : regex)
  | Alt (r1 r2 : regex)
  | Rep (greedy : bool) (lo : nat) (r : regex)    (* [r{lo,}] or [r{lo,}?] *)
  | Group (n : nat) (r : regex)
  | Eos.                                          (* [$] *)

Definition captures : Type := list (nat * string).

(** The text between two suffixes of the subject. *)
Definition consumed (s s' : string) : string :=
  String.substring 0 (String.length s - String.length s') s.

Fixpoint strip_prefix (p s : string) : option string :=
  match p, s with
  | EmptyString, _ => Some s
  | String a p', String b s' => if decide (a = b) then strip_prefix p' s' else None
  | String _ _, EmptyString => None
  end.

Definition orelse {A} (x y : option A) : option A :=
  match x with Some _ => x | None => y end.

(** The rounds of a repetition of [body], [done] of them behind: stop
    when [lo] rounds are done, or go for one more round that consumes
    something.  [fuel] bounds the rounds and is the length of the subject,
    which is enough since every round consumes a character. *)
Fixpoint rounds {A}
    (body : string → captures → (string → captures → option A) → option A)
    (greedy : bool) (lo : nat) (k : string → captures → option A)
    (fuel done : nat) (s : string) (caps : captures) {struct fuel} : option A :=
  let stop := if (lo <=? done)%nat then k s caps else None in
  let more :=
    match fuel with
    | O => None
    | S fuel' =>
        body s caps (λ s' caps',
          if (String.length s' <? String.length s)%nat
          then rounds body greedy lo k fuel' (S done) s' caps' else None)
    end in
  if greedy then orelse more stop else orelse stop more.

(** [run r s caps k]: match [r] at the start of [s], then go on with [k] on
    the rest of [s] and the groups; [None] makes the matcher backtrack. *)
Fixpoint run {A} (r : regex) (s : string) (caps : captures)
    (k : string → captures → option A) {struct r} : option A :=
  match r with
  | Lit p => match strip_prefix p s with Some s' => k s' caps | None => None end
  | Cls c =>
      match s with
      | String a s' => if cls_match c a then k s' caps else None
      | EmptyString => None
      end
  | Cat r1 r2 => run r1 s caps (λ s1 caps1, run r2 s1 caps1 k)
  | Alt r1 r2 => orelse (run r1 s caps k) (run r2 s caps k)
  | Rep greedy lo r' => rounds (run r') greedy lo k (String.length s) O s caps
  | Group n r' => run r' s caps (λ s' caps', k s' ((n, consumed s s') :: caps'))
  | Eos =>
      match s with
      | EmptyString => k s caps
      | String a EmptyString =>
          if decide (a = ascii_of_nat 10) then k s caps else None
      | _ => None
      end
  end.

(** [re.match(r, s)]: the groups of the match at the start of [s]. *)
Definition match_ (r : regex) (s : string) : option captures :=
  run r s [] (λ _ caps, Some caps).

(** [re.search(r, s)]. *)
Fixpoint search (r : regex) (s : string) : option captures :=
  match match_ r s with
  | Some caps => Some caps
  | None =>
      match s with
      | EmptyString => None
      | String _ s' => search r s'
      end
  end.

(** [m.group(n)] for a group that took part in the match. *)
Definition group (n : nat) (caps : captures) : string :=
  default EmptyString (dict_get caps n).

Definition star (c : cls) : regex := Rep true 0 (Cls c).
Definition plus (c : cls) : regex := Rep true 1 (Cls c).
Definition lazy_star (c : cls) : regex := Rep false 0 (Cls c).
Fixpoint cat (rs : list regex) : regex :=
  match rs with
  | [] => Lit EmptyString
  | [r] => r
  | r :: rs' => Cat r (cat rs')
  end.

End Re.

(** The patterns of [parse_psplib] and [batch_convert]. *)

(** Pattern ["jobs \(incl\. supersource/sink \)\s*:\s*(\d+)"]. *)
Definition jobs_re : Re.regex :=
  Re.cat [Re.Lit "jobs (incl. supersource/sink )"; Re.star Re.Space;
          Re.Lit ":"; Re.star Re.Space; Re.Group 1 (Re.plus Re.Digit)].

(** Pattern ["renewable\s*:\s*(\d+)"]. *)
Definition resources_re : Re.regex :=
  Re.cat [Re.Lit "renewable"; Re.star Re.Space; Re.Lit ":"; Re.star Re.Space;
          Re.Group 1 (Re.plus Re.Digit)].

(** Pattern ["horizon\s*:\s*(\d+)"]. *)
Definition horizon_re : Re.regex :=
  Re.cat [Re.Lit "horizon"; Re.star Re.Space; Re.Lit ":"; Re.star Re.Space;
          Re.Group 1 (Re.plus Re.Digit)].

(** Pattern
    ["PRECEDENCE RELATIONS:.*?jobnr\.\s+#modes\s+#successors\s+successors\s*(.*?)(?:\*{5,}|REQUESTS)"]
    under DOTALL. *)
Definition prec_re : Re.regex :=
  Re.cat [Re.Lit "PRECEDENCE RELATIONS:"; Re.lazy_star Re.Any;
          Re.Lit "jobnr."; Re.plus Re.Space; Re.Lit "#modes"; Re.plus Re.Space;
          Re.Lit "#successors"; Re.plus Re.Space; Re.Lit "successors";
          Re.star Re.Space; Re.Group 1 (Re.lazy_star Re.Any);
          Re.Alt (Re.Rep true 5 (Re.Cls (Re.Chr "*"))) (Re.Lit "REQUESTS")].

(** Pattern
    ["REQUESTS/DURATIONS:.*?-{5,}\s*(.*?)(?:\*{5,}|RESOURCEAVAILABILITIES|$)"]
    under DOTALL. *)
Definition req_re : Re.regex :=
  Re.cat [Re.Lit "REQUESTS/DURATIONS:"; Re.lazy_star Re.Any;
          Re.Rep true 5 (Re.Cls (Re.Chr "-")); Re.star Re.Space;
          Re.Group 1 (Re.lazy_star Re.Any);
          Re.Alt (Re.Rep true 5 (Re.Cls (Re.Chr "*")))
                 (Re.Alt (Re.Lit "RESOURCEAVAILABILITIES") Re.Eos)].

(** Pattern ["RESOURCEAVAILABILITIES:\s*\n\s*R\s+\d.*\n\s*(G)"] where the
    group [G] is ["\d+(?:\s+\d+)*"]. *)
Definition cap_re : Re.regex :=
  Re.cat [Re.Lit "RESOURCEAVAILABILITIES:"; Re.star Re.Space;
          Re.Cls (Re.Chr (ascii_of_nat 10)); Re.star Re.Space; Re.Lit "R";
          Re.plus Re.Space; Re.Cls Re.Digit; Re.star Re.Dot;
          Re.Cls (Re.Chr (ascii_of_nat 10)); Re.star Re.Space;
          Re.Group 1 (Re.Cat (Re.plus Re.Digit)
                        (Re.Rep true 0 (Re.Cat (Re.plus Re.Space) (Re.plus Re.Digit))))].

(** Pattern ["j\d+(\d+)_(\d+)"], matched at the start of the stem. *)
Definition stem_re : Re.regex :=
  Re.cat [Re.Lit "j"; Re.plus Re.Digit; Re.Group 1 (Re.plus Re.Digit);
          Re.Lit "_"; Re.Group 2 (Re.plus Re.Digit)].

(** ** The parser: [parse_psplib] *)

(** The file system as the script sees it: [open(path).read()] gives the
    text of a file or raises [OSError]. *)
Definition reader : Type := string → result string.

Definition header_int (re : Re.regex) (dflt : Z) (content : string) : result Z :=
  match Re.search re content with
  | Some m => Py.int (Re.group 1 m)
  | None => mret dflt
  end.

(** The lines of a section: [group(1).strip().split('\n')]. *)
Definition section_lines (body : string) : list string :=
  Py.split_on (ascii_of_nat 10) (Py.strip body).

(** One line of the precedence block. *)
Definition prec_line (precedence : dict Z (list Z)) (line : string)
    : result (dict Z (list Z)) :=
  match Py.split line with
  | p0 :: _ :: p2 :: rest =>
      job_id ← Py.int p0;
      num_successors ← Py.int p2;
      successors ←
        (if decide (0 < num_successors)
         then Py.traverse Py.int (take (Z.to_nat num_successors) rest)
         else mret []);
      mret (dict_set precedence job_id successors)
  | _ => mret precedence
  end.

Fixpoint prec_lines (precedence : dict Z (list Z)) (lines : list string)
    : result (dict Z (list Z)) :=
  match lines with
  | [] => mret precedence
  | line :: lines' =>
      precedence' ← prec_line precedence line;
      prec_lines precedence' lines'
  end.

(** The demands of one line: [enumerate(parts[3:3+num_resources])]. *)
Fixpoint job_demands_of (i : Z) (toks : list string) (job_demands : dict string Z)
    : result (dict string Z) :=
  match toks with
  | [] => mret job_demands
  | demand :: toks' =>
      d ← Py.int demand;
      job_demands_of (i + 1) toks'
        (if decide (0 < d) then dict_set job_demands ("R" +:+ Py.str (i + 1)) d
         else job_demands)
  end.

(** One line of the requests/durations block. *)
Definition req_line (num_resources : Z) (st : dict Z Z * dict Z (dict string Z))
    (line : string) : result (dict Z Z * dict Z (dict string Z)) :=
  let '(durations, demands) := st in
  match Py.split line with
  | p0 :: _ :: p2 :: rest =>
      if Py.isdigit p0 then
        job_id ← Py.int p0;
        duration ← Py.int p2;
        job_demands ← job_demands_of 0 (take (Z.to_nat num_resources) rest) [];
        mret (dict_set durations job_id duration, dict_set demands job_id job_demands)
      else mret st
  | _ => mret st
  end.

Fixpoint req_lines (num_resources : Z) (st : dict Z Z * dict Z (dict string Z))
    (lines : list string) : result (dict Z Z * dict Z (dict string Z)) :=
  match lines with
  | [] => mret st
  | line :: lines' =>
      st' ← req_line num_resources st line;
      req_lines num_resources st' lines'
  end.

(** [for i, cap in enumerate(caps[:num_resources]): capacities[f'R{i+1}'] = int(cap)]. *)
Fixpoint caps_of (i : Z) (toks : list string) (capacities : dict string Z)
    : result (dict string Z) :=
  match toks with
  | [] => mret capacities
  | cap :: toks' =>
      c ← Py.int cap;
      caps_of (i + 1) toks' (dict_set capacities ("R" +:+ Py.str (i + 1)) c)
  end.

(** [for i in range(num_resources): capacities[f'R{i+1}'] = 10]. *)
Definition default_caps (num_resources : Z) : dict string Z :=
  foldl (λ capacities i, dict_set capacities ("R" +:+ Py.str (Z.of_nat i + 1)) 10)
        [] (seq 0 (Z.to_nat num_resources)).

(** The three sections of the file. *)
Definition parsed_precedence (content : string) : result (dict Z (list Z)) :=
  match Re.search prec_re content with
  | Some m => prec_lines [] (section_lines (Re.group 1 m))
  | None => mret []
  end.

Definition parsed_requests (num_resources : Z) (content : string)
    : result (dict Z Z * dict Z (dict string Z)) :=
  match Re.search req_re content with
  | Some m => req_lines num_resources ([], []) (section_lines (Re.group 1 m))
  | None => mret ([], [])
  end.

Definition parsed_capacities (num_resources : Z) (content : string)
    : result (dict string Z) :=
  match Re.search cap_re content with
  | Some m =>
      caps_of 0 (take (Z.to_nat num_resources) (Py.split (Py.strip (Re.group 1 m)))) []
  | None => mret (default_caps num_resources)
  end.

(** The parser on the text of the file. *)
Definition parse_content (stem content : string) : result PSPLIBInstance :=
  jobs ← header_int jobs_re 0 content;
  num_resources ← header_int resources_re 4 content;
  horizon ← header_int horizon_re 100 content;
  precedence ← parsed_precedence content;
  '(durations, demands) ← parsed_requests num_resources content;
  capacities ← parsed_capacities num_resources content;
  mret (mkInstance stem jobs num_resources horizon precedence durations demands
          capacities).

Definition parse_psplib (read : reader) (filepath : string) : result PSPLIBInstance :=
  content ← read filepath;
  parse_content (Py.path_stem filepath) content.

(** ** The optimal-solutions loader: [parse_optimal_solutions] *)

(** One line of the table. *)
Definition solution_line (solutions : dict (Z * Z) Z) (line : string)
    : result (dict (Z * Z) Z) :=
  match Py.split line with
  | p0 :: p1 :: p2 :: _ =>
      if Py.isdigit p0 then
        param ← Py.int p0;
        instance ← Py.int p1;
        makespan ← Py.int p2;
        mret (dict_set solutions (param, instance) makespan)
      else mret solutions
  | _ => mret solutions
  end.

Fixpoint solution_lines (solutions : dict (Z * Z) Z) (lines : list string)
    : result (dict (Z * Z) Z) :=
  match lines with
  | [] => mret solutions
  | line :: lines' =>
      solutions' ← solution_line solutions line;
      solution_lines solutions' lines'
  end.

(** The loader on the text of the table ([for line in f] hands out the
    lines, whose terminators [split] drops with the other blanks). *)
Definition load_solutions (content : string) : result (dict (Z * Z) Z) :=
  solution_lines [] (Py.split_on (ascii_of_nat 10) content).

Definition parse_optimal_solutions (read : reader) (filepath : string)
    : result (dict (Z * Z) Z) :=
  content ← read filepath;
  load_solutions content.

(** ** The batch driver: [batch_convert] *)

(** What the driver sees of the outside: the reader, the names that
    [input_path.glob('*.sm')] yields, and the outcome of creating the output
    directory, of [os.path.exists] and of writing one output file. *)
Record world : Type := mkWorld {
  read : reader;
  glob_sm : list string;
  mkdir_error : option exn;
  path_exists : string → bool;
  write_error : string → option exn
}.

(** What a run leaves behind: the counter, the output files written, in
    order, and the lines printed. *)
Record batch_state : Type := mkBatch {
  converted : Z;
  written : list (string * string);
  stdout : list string
}.

Definition path_join (dir file : string) : string := dir +:+ "/" +:+ file.

(** The known optimum of a file, looked up by the two numbers in its stem. *)
Definition find_optimal (solutions : dict (Z * Z) Z) (stem : string)
    : result (option Z) :=
  match Re.match_ stem_re stem, solutions with
  | Some m, _ :: _ =>
      param ← Py.int (Re.group 1 m);
      inst ← Py.int (Re.group 2 m);
      mret (dict_get solutions (param, inst))
  | _, _ => mret None
  end.

(** [open(output_file, 'w')] and [f.write(proj_content)]. *)
Definition write_file (w : world) (path content : string) : result (string * string) :=
  match write_error w path with
  | Some e => raise e
  | None => mret (path, content)
  end.

(** The body of the [try] for one file; its value is the file written. *)
Definition convert_file (w : world) (solutions : dict (Z * Z) Z)
    (input_dir output_dir sm_name : string) : result (string * string) :=
  instance ← parse_psplib (read w) (path_join input_dir sm_name);
  optimal ← find_optimal solutions (Py.name_stem sm_name);
  proj_content ← convert_to_proj instance optimal;
  write_file w (path_join output_dir (Py.name_stem sm_name +:+ ".proj")) proj_content.

(** The names the loop skips as solution files. *)
Definition is_solution_file (sm_name : string) : bool :=
  Py.contains "opt" sm_name || Py.contains "hrs" sm_name || Py.contains "lb" sm_name.

Definition warning (sm_name : string) (e : exn) : string :=
  "Warning: Failed to convert " +:+ sm_name +:+ ": " +:+ exn_str e.

(** One round of the loop. *)
Definition batch_step (w : world) (solutions : dict (Z * Z) Z)
    (input_dir output_dir : string) (st : batch_state) (sm_name : string)
    : batch_state :=
  if is_solution_file sm_name then st
  else
    match convert_file w solutions input_dir output_dir sm_name with
    | inr file =>
        let n := converted st + 1 in
        mkBatch n (written st ++ [file])
          (stdout st ++
             if decide (n `mod` 100 = 0)
             then ["  Converted " +:+ Py.str n +:+ " instances..."] else [])
    | inl e => mkBatch (converted st) (written st) (stdout st ++ [warning sm_name e])
    end.

Definition batch_loop (w : world) (solutions : dict (Z * Z) Z)
    (input_dir output_dir : string) (names : list string) (st : batch_state)
    : batch_state :=
  foldl (batch_step w solutions input_dir output_dir) st names.

(** The candidate files of a run, in the order the loop visits them. *)
Definition candidates (w : world) : list string :=
  filter (λ n, is_solution_file n = false) (Py.sorted_strs (glob_sm w)).

(** [solutions = {}], replaced by the table when a solutions file is named
    and exists. *)
Definition load_if_present (w : world) (solutions_file : option string)
    : result (dict (Z * Z) Z) :=
  match solutions_file with
  | Some f =>
      if negb (bool_decide (f = EmptyString)) && path_exists w f
      then parse_optimal_solutions (read w) f else mret []
  | None => mret []
  end.

Definition batch_convert (w : world) (input_dir output_dir : string)
    (solutions_file : option string) : result (Z * batch_state) :=
  _ ← match mkdir_error w with Some e => raise e | None => mret () end;
  solutions ← load_if_present w solutions_file;
  let st :=
    batch_loop w solutions input_dir output_dir (Py.sorted_strs (glob_sm w))
      (mkBatch 0 [] []) in
  mret (converted st, st).

(** ** The command line: [main] *)

(** The module docstring, which [main] prints when it is given no
    argument. *)
Definition module_doc : string :=
  Py.join newline [
    "";
    "Convert PSPLIB instances to utf8proj (.proj) format.";
    "";
    "PSPLIB is the standard benchmark library for Resource-Constrained Project";
    "Scheduling Problems (RCPSP). This converter enables utf8proj to be validated";
    "against known optimal solutions.";
    "";
    "Usage:";
    "    python3 psplib_to_proj.py <input.sm> [output.proj]";
    "    python3 psplib_to_proj.py --batch <directory> <output_dir>";
    "";
    "References:";
    "    - PSPLIB: https://www.om-db.wi.tum.de/psplib/";
    "    - Kolisch & Sprecher (1996): PSPLIB - A project scheduling library";
    "" ].

Definition batch_usage : string :=
  "Usage: psplib_to_proj.py --batch <input_dir> <output_dir> [solutions_file]".

(** How a run of the script ends. *)
Inductive ending : Type :=
  | Returns                     (* [main()] returns *)
  | SystemExit (status : Z)     (* [sys.exit(status)] *)
  | Raises (e : exn).           (* an exception leaves [main()] *)

(** What a run leaves behind: the lines printed, the files written, and
    how it ends. *)
Record run : Type := mkRun {
  printed : list string;
  files : list (string * string);
  ends : ending
}.

(** The single-file mode up to its [print]s: parse, translate without a
    makespan, write. *)
Definition convert_one (w : world) (input_file output_file : string)
    : result (PSPLIBInstance * (string * string)) :=
  instance ← parse_psplib (read w) input_file;
  proj_content ← convert_to_proj instance None;
  file ← write_file w output_file proj_content;
  mret (instance, file).

(** [main()] on [sys.argv]. *)
Definition main (w : world) (argv : list string) : run :=
  match argv with
  | _ :: arg1 :: args =>
      if decide (arg1 = "--batch") then
        match args with
        | input_dir :: output_dir :: more =>
            let solutions_file := head more in
            let banner :=
              "Converting PSPLIB instances from " +:+ input_dir +:+ "..." in
            match batch_convert w input_dir output_dir solutions_file with
            | inr (count, st) =>
                mkRun ([banner] ++ stdout st
                       ++ ["Converted " +:+ Py.str count +:+ " instances to "
                           +:+ output_dir])
                      (written st) Returns
            | inl e => mkRun [banner] [] (Raises e)
            end
        | _ => mkRun [batch_usage] [] (SystemExit 1)
        end
      else
        let input_file := arg1 in
        let output_file :=
          match args with
          | output_file :: _ => output_file
          | [] => Py.replace ".sm" ".proj" input_file
          end in
        match convert_one w input_file output_file with
        | inr (instance, file) =>
            mkRun [ "Converted " +:+ input_file +:+ " -> " +:+ output_file;
                    "  Jobs: " +:+ Py.str (jobs instance) +:+ ", Resources: "
                    +:+ Py.str (resources instance) ]
                  [file] Returns
        | inl e => mkRun [] [] (Raises e)
        end
  | _ => mkRun [module_doc] [] (SystemExit 1)
  end.

(** * What the statements speak of *)

(** ** Observations on the lines of the output *)

(** The kinds of line, told apart by how they start. *)
Definition is_task_line (l : string) : Prop := Py.starts_with "task j" l.
Definition is_depends_line (l : string) : Prop := Py.starts_with "    depends:" l.
Definition is_assign_line (l : string) : Prop := Py.starts_with "    assign:" l.
Definition is_makespan_line (l : string) : Prop :=
  Py.starts_with "# Optimal Makespan" l.
Definition is_warning_line (l : string) : Prop := Py.starts_with "Warning: " l.

Global Instance is_task_line_dec l : Decision (is_task_line l) := _.
Global Instance is_depends_line_dec l : Decision (is_depends_line l) := _.
Global Instance is_assign_line_dec l : Decision (is_assign_line l) := _.
Global Instance is_makespan_line_dec l : Decision (is_makespan_line l) := _.
Global Instance is_warning_line_dec l : Decision (is_warning_line l) := _.

(** Inside a task block every line but the first starts with four blanks
    or is the closing brace. *)
Definition is_body_line (l : string) : Prop :=
  Py.starts_with "    " l ∨ l = "}".
Global Arguments is_body_line _ /.

(** The [depends:] line of a sorted list of predecessors, the [assign:]
    line of a list of assignments, and one assignment. *)
Definition depends_text (preds : list Z) : string :=
  "    depends: " +:+ Py.join ", " ((λ p, "j" +:+ Py.str p) <$> preds).
Definition assign_text (asg : list string) : string :=
  "    assign: " +:+ Py.join ", " asg.
Definition assignment (it : string * Z) (pct : Z) : string :=
  Py.lower it.1 +:+ "@" +:+ Py.str pct +:+ "%".

(** The characters of a decimal numeral. *)
Definition numeral_char (a : ascii) : bool :=
  Py.is_digit a || bool_decide (a = "-"%char).
Fixpoint all_chars (P : ascii → bool) (s : string) : bool :=
  match s with
  | EmptyString => true
  | String a s' => P a && all_chars P s'
  end.

(** ** Rounding *)

(** [p] is the integer nearest to [n / c], an exact half going to the even
    neighbour. *)
Definition nearest_half_even (n c p : Z) : Prop :=
  c ≠ 0 ∧ Z.abs (2 * (p * c - n)) ≤ Z.abs c
  ∧ (Z.abs (2 * (p * c - n)) = Z.abs c → Z.even p = true).

(** The rounding the specification names: the nearest integer, an exact
    half going away from zero. *)
Definition spec_round_half_away (n c : Z) : Z :=
  Z.sgn n * Z.sgn c * ((2 * Z.abs n + Z.abs c) `div` (2 * Z.abs c)).

(** ** Instances as values *)

(** No dictionary of the instance repeats a key. *)
Definition instance_wf (inst : PSPLIBInstance) : Prop :=
  dict_wf (precedence inst) ∧ dict_wf (durations inst) ∧ dict_wf (demands inst)
  ∧ dict_wf (capacities inst)
  ∧ ∀ j, dict_wf (dict_get_or (demands inst) j []).

(** The demands of two instances are the same mapping of mappings. *)
Definition demands_equiv (d1 d2 : dict Z (dict string Z)) : Prop :=
  ∀ j, dict_equiv (dict_get_or d1 j []) (dict_get_or d2 j [])
       ∧ (is_Some (dict_get d1 j) ↔ is_Some (dict_get d2 j)).

(** Two instances are equal as values: the same scalars and the same
    mappings, whatever the order in which the dictionaries were filled. *)
Definition instance_equiv (i1 i2 : PSPLIBInstance) : Prop :=
  name i1 = name i2 ∧ jobs i1 = jobs i2 ∧ resources i1 = resources i2
  ∧ horizon i1 = horizon i2
  ∧ dict_equiv (precedence i1) (precedence i2)
  ∧ dict_equiv (durations i1) (durations i2)
  ∧ demands_equiv (demands i1) (demands i2)
  ∧ dict_equiv (capacities i1) (capacities i2).

(** ** The matcher *)

(** The characters a match of [r] is made of. *)
Fixpoint in_string (a : ascii) (s : string) : bool :=
  match s with
  | EmptyString => false
  | String b s' => bool_decide (a = b) || in_string a s'
  end.

Fixpoint chars_of (r : Re.regex) (a : ascii) : bool :=
  match r with
  | Re.Lit p => in_string a p
  | Re.Cls c => Re.cls_match c a
  | Re.Cat r1 r2 | Re.Alt r1 r2 => chars_of r1 a || chars_of r2 a
  | Re.Rep _ _ r' | Re.Group _ r' => chars_of r' a
  | Re.Eos => false
  end.

(** A length that every match of [r] reaches. *)
Fixpoint min_len (r : Re.regex) : nat :=
  match r with
  | Re.Lit p => String.length p
  | Re.Cls _ => 1
  | Re.Cat r1 r2 => min_len r1 + min_len r2
  | Re.Alt r1 r2 => min_len r1 `min` min_len r2
  | Re.Rep _ lo r' => lo * min_len r'
  | Re.Group _ r' => min_len r'
  | Re.Eos => 0
  end.

(** The groups of [r], and the groups that every match of [r] fills. *)
Fixpoint groups_of (r : Re.regex) : list (nat * Re.regex) :=
  match r with
  | Re.Cat r1 r2 | Re.Alt r1 r2 => groups_of r1 ++ groups_of r2
  | Re.Rep _ _ r' => groups_of r'
  | Re.Group n r' => (n, r') :: groups_of r'
  | _ => []
  end.

Fixpoint filled (r : Re.regex) : list nat :=
  match r with
  | Re.Cat r1 r2 => filled r1 ++ filled r2
  | Re.Rep _ (S _) r' => filled r'
  | Re.Group n r' => n :: filled r'
  | _ => []
  end.

(** A text that a match of [r] can be, as far as its characters and its
    length tell; and a capture that a match of [r] can leave. *)
Definition text_of (r : Re.regex) (w : string) : Prop :=
  all_chars (chars_of r) w = true ∧ (min_len r ≤ String.length w)%nat.

Definition capture_of (r : Re.regex) (c : nat * string) : Prop :=
  ∃ r', (c.1, r') ∈ groups_of r ∧ text_of r' c.2.

(** What a successful run of the matcher has done: consumed a text of
    [r], added captures of [r], among them one for every group that every
    match fills, and handed the rest to its continuation. *)
Definition run_spec {A} (r : Re.regex) (s : string) (caps : Re.captures)
    (k : string → Re.captures → option A) (x : A) : Prop :=
  ∃ w s' new,
    s = w +:+ s' ∧ text_of r w ∧ Forall (capture_of r) new
    ∧ filled r ⊆ new.*1
    ∧ k s' (new ++ caps) = Some x.

(** The same for the rounds of a repetition of [r'] that are still to do
    when [done] rounds are behind. *)
Definition rounds_spec {A} (r' : Re.regex) (lo done : nat) (s : string)
    (caps : Re.captures) (k : string → Re.captures → option A) (x : A) : Prop :=
  ∃ w s' new,
    s = w +:+ s' ∧ all_chars (chars_of r') w = true
    ∧ ((lo - done) * min_len r' ≤ String.length w)%nat
    ∧ Forall (capture_of r') new
    ∧ ((done < lo)%nat → filled r' ⊆ new.*1)
    ∧ k s' (new ++ caps) = Some x.

Definition digit_or_space (a : ascii) : bool := Py.is_digit a || Py.isspace a.

(** ** The parser and the loader *)

(** A result that is a value, or the [ValueError] of [int()] on a token
    that is no integer literal. *)
Definition int_failure {A} (r : result A) : Prop :=
  match r with
  | inr _ => True
  | inl (ValueError tok) => Py.int_opt tok = None
  | inl _ => False
  end.

(** The call returns. *)
Definition returns {A} (r : result A) : Prop := ∃ x, r = inr x.

(** A precedence line on which [int()] raises: three tokens or more, and
    a job id, a successor count or, when the count [k] is positive, one of
    the first [k] successors that is no integer literal. *)
Definition bad_prec_line (line : string) : Prop :=
  ∃ p0 p1 p2 rest,
    Py.split line = p0 :: p1 :: p2 :: rest
    ∧ (Py.int_opt p0 = None ∨ Py.int_opt p2 = None
       ∨ ∃ k, Py.int_opt p2 = Some k ∧ 0 < k
              ∧ Exists (λ t, Py.int_opt t = None) (take (Z.to_nat k) rest)).

(** A requests line on which [int()] raises: three tokens or more, a
    first token of digits, and a duration or one of the first
    [num_resources] demands that is no integer literal. *)
Definition bad_req_line (num_resources : Z) (line : string) : Prop :=
  ∃ p0 p1 p2 rest,
    Py.split line = p0 :: p1 :: p2 :: rest ∧ Py.isdigit p0 = true
    ∧ (Py.int_opt p2 = None
       ∨ Exists (λ t, Py.int_opt t = None) (take (Z.to_nat num_resources) rest)).

(** The invariant of the requests loop: its two dictionaries and the
    demands of every job repeat no key. *)
Definition requests_wf (st : dict Z Z * dict Z (dict string Z)) : Prop :=
  dict_wf st.1 ∧ dict_wf st.2 ∧ ∀ j jd, dict_get st.2 j = Some jd → dict_wf jd.

(** The lines of a section, none when the section is not found. *)
Definition section_of (re : Re.regex) (content : string) : list string :=
  match Re.search re content with
  | Some m => section_lines (Re.group 1 m)
  | None => []
  end.

(** The number of resources that the header declares, 4 by default. *)
Definition declared_resources (content : string) : Z :=
  match header_int resources_re 4 content with inr n => n | inl _ => 4 end.

(** The label of the resource at position [i], and a demand dictionary
    whose labels are those of the first [n] positions. *)
Definition label (i : Z) : string := "R" +:+ Py.str (i + 1).
Definition labelled_below (n : nat) (jd : dict string Z) : Prop :=
  ∀ r, r ∈ dict_keys jd → ∃ i, 0 ≤ i < Z.of_nat n ∧ r = label i.

(** A line of the solutions table on which [int()] raises: three tokens or
    more, a first token of digits, and a second or third token that is no
    integer literal. *)
Definition line_raises (line : string) : Prop :=
  ∃ p0 p1 p2 rest,
    Py.split line = p0 :: p1 :: p2 :: rest ∧ Py.isdigit p0 = true
    ∧ (Py.int_opt p1 = None ∨ Py.int_opt p2 = None).

(** ** The batch driver *)

(** The file a round of the loop writes, and the warning it prints. *)
Definition file_of (r : result (string * string)) : option (string * string) :=
  match r with inr file => Some file | inl _ => None end.
Definition warning_of (sm_name : string) (r : result (string * string))
    : option string :=
  match r with inr _ => None | inl e => Some (warning sm_name e) end.

(** ** Further observations: the translator *)

(** A demand that the translation divides by a capacity of zero: a
    strictly positive demand of a rendered job on a resource whose capacity
    is 0. *)
Definition zero_capacity_item (caps : dict string Z) (it : string * Z) : Prop :=
  0 < it.2 ∧ dict_get_or caps it.1 10 = 0.
Definition zero_capacity_demand (inst : PSPLIBInstance) : Prop :=
  ∃ J it, J ∈ real_jobs inst ∧ it ∈ dict_get_or (demands inst) J []
          ∧ zero_capacity_item (capacities inst) it.

(** The same for the demands of one job. *)
Definition job_divides_by_zero (inst : PSPLIBInstance) (J : Z) : Prop :=
  Exists (zero_capacity_item (capacities inst)) (dict_get_or (demands inst) J []).

(** The lines that open the block of a resource. *)
Definition is_resource_line (l : string) : Prop := Py.starts_with "resource " l.
Global Instance is_resource_line_dec l : Decision (is_resource_line l) := _.

(** The line that opens the block of a resource. *)
Definition resource_header (res_id : string) : string :=
  "resource " +:+ Py.lower res_id +:+ " " +:+ dquote +:+ res_id +:+ dquote +:+ " {".

(** The strict order of [str]. *)
Definition str_lt (a b : string) : Prop := String.le a b ∧ a ≠ b.

(** The bounds of a percentage on a positive capacity. *)
Definition percent_bounds (caps : dict string Z) (it : string * Z) (p : Z) : Prop :=
  let c := dict_get_or caps it.1 10 in
  0 ≤ p ∧ (it.2 ≤ c → p ≤ 100) ∧ (c < it.2 → 100 ≤ p) ∧ (p = 0 ↔ 200 * it.2 ≤ c).

(** A text of one line. *)
Definition one_line (s : string) : Prop :=
  all_chars (λ a, negb (bool_decide (a = ascii_of_nat 10))) s = true.

(** An instance whose name and resource labels are texts of one line. *)
Definition instance_plain (inst : PSPLIBInstance) : Prop :=
  one_line (name inst)
  ∧ Forall (λ it, one_line it.1) (capacities inst)
  ∧ ∀ J, Forall (λ it, one_line it.1) (dict_get_or (demands inst) J []).

(** ** Further observations: the parser *)

(** The number of capacities that the parser stores: one for each declared
    resource, or for each integer of the availabilities line when that line
    has fewer. *)
Definition capacity_count (num_resources : Z) (content : string) : nat :=
  match Re.search cap_re content with
  | Some m =>
      Z.to_nat num_resources `min` length (Py.split (Py.strip (Re.group 1 m)))
  | None => Z.to_nat num_resources
  end.

(** What the requests loop keeps: the same job ids, none negative, in both
    dictionaries, and demands that are all strictly positive. *)
Definition requests_inv (st : dict Z Z * dict Z (dict string Z)) : Prop :=
  dict_keys st.1 = dict_keys st.2
  ∧ (∀ j, j ∈ dict_keys st.1 → 0 ≤ j)
  ∧ (∀ j jd r d, dict_get st.2 j = Some jd → dict_get jd r = Some d → 0 < d).

(** The demand that a requests line gives to the resource at position
    [k]: the integer at that position when it is strictly positive. *)
Definition demand_at (zs : list Z) (k : nat) : option Z :=
  zs !! k ≫= λ z, if decide (0 < z) then Some z else None.

(** ** Further observations: the loader *)

(** The row that an accepted line of the solutions table holds. *)
Definition row_of (line : string) : option ((Z * Z) * Z) :=
  match Py.split line with
  | p0 :: p1 :: p2 :: _ =>
      if Py.isdigit p0 then
        match Py.int_opt p0, Py.int_opt p1, Py.int_opt p2 with
        | Some param, Some instance, Some makespan =>
            Some ((param, instance), makespan)
        | _, _, _ => None
        end
      else None
  | _ => None
  end.

(** The makespans that the lines give to a key, in the order of the lines. *)
Definition makespans_of (key : Z * Z) (lines : list string) : list Z :=
  omap (λ line, row_of line ≫= λ row,
                if decide (row.1 = key) then Some row.2 else None) lines.

(** ** Further observations: the batch driver *)

(** The greedy repetition [\d{lo,}] by recursion on the subject: one more
    digit first, then the continuation. *)
Fixpoint digits_greedy {A} (lo : nat) (k : string → Re.captures → option A)
    (done : nat) (s : string) (caps : Re.captures) : option A :=
  let stop := if (lo <=? done)%nat then k s caps else None in
  match s with
  | String a s' =>
      if Py.is_digit a
      then Re.orelse (digits_greedy lo k (S done) s' caps) stop
      else stop
  | EmptyString => stop
  end.

(** A text that does not go on with a digit. *)
Definition no_digit_ahead (s : string) : Prop :=
  match s with String a _ => Py.is_digit a = false | EmptyString => True end.

(** The progress lines of the loop. *)
Definition is_progress_line (l : string) : Prop := Py.starts_with "  Converted " l.
Global Instance is_progress_line_dec l : Decision (is_progress_line l) := _.

(** The progress line printed when the counter reaches [n]. *)
Definition progress_line (n : Z) : string :=
  "  Converted " +:+ Py.str n +:+ " instances...".

(** The same world with the directory listed in another order. *)
Definition relisted (w : world) (names : list string) : world :=
  mkWorld (read w) names (mkdir_error w) (path_exists w) (write_error w).

(** What the loop keeps of the counter and of the lines printed. *)
Definition progress_inv (st : batch_state) : Prop :=
  0 ≤ converted st
  ∧ filter is_progress_line (stdout st)
    = (λ k, progress_line (100 * k)) <$> seqZ 1 (converted st `div` 100)
  ∧ Forall (λ l, is_warning_line l ∨ is_progress_line l) (stdout st).

(** ** Further observations: the command line *)

(** The command lines that [main] refuses. *)
Definition bad_usage (argv : list string) : Prop :=
  (length argv < 2)%nat ∨ (argv !! 1%nat = Some "--batch" ∧ (length argv < 4)%nat).

(** * Inputs of the examples *)

Definition text (lines : list string) : string := Py.join newline lines.

(** The four-job instance of the end-to-end scenario: jobs 1 and 4 are the
    supersource and the supersink. *)
Definition ex_inst : PSPLIBInstance :=
  mkInstance "demo" 4 1 100
    [(1, [2; 3]); (2, [4]); (3, [4]); (4, [])]
    [(1, 0); (2, 5); (3, 5); (4, 0)]
    [(1, []); (2, [("R1", 5)]); (3, []); (4, [])]
    [("R1", 10)].

Definition ex_lines : list string :=
  Eval vm_compute in
    match proj_lines ex_inst None with inr l => l | inl _ => [] end.

(** Demand 1 on capacity 8: exactly 12.5 percent. *)
Definition eighth_inst : PSPLIBInstance :=
  mkInstance "eighth" 3 1 100
    [(1, [2]); (2, [3]); (3, [])]
    [(1, 0); (2, 5); (3, 0)]
    [(1, []); (2, [("R1", 1)]); (3, [])]
    [("R1", 8)].

Definition eighth_lines : list string :=
  Eval vm_compute in
    match proj_lines eighth_inst None with inr l => l | inl _ => [] end.

(** One instance with two resources, and the same instance with every
    dictionary filled in another order. *)
Definition two_res_inst : PSPLIBInstance :=
  mkInstance "demo" 4 2 100
    [(1, [2; 3]); (2, [4]); (3, [4]); (4, [])]
    [(1, 0); (2, 5); (3, 5); (4, 0)]
    [(1, []); (2, [("R1", 5); ("R2", 3)]); (3, [("R2", 1)]); (4, [])]
    [("R1", 10); ("R2", 7)].

Definition two_res_shuffled : PSPLIBInstance :=
  mkInstance "demo" 4 2 100
    [(4, []); (3, [4]); (1, [2; 3]); (2, [4])]
    [(3, 5); (4, 0); (2, 5); (1, 0)]
    [(2, [("R2", 3); ("R1", 5)]); (4, []); (3, [("R2", 1)]); (1, [])]
    [("R2", 7); ("R1", 10)].

(** A small file in the layout of the benchmark library. *)
Definition sample_sm : string := Eval vm_compute in text [
  "jobs (incl. supersource/sink ):  4";
  "horizon                       :  158";
  "  - renewable                 :  2   R";
  "****************";
  "PRECEDENCE RELATIONS:";
  "jobnr.    #modes  #successors   successors";
  "   1        1          2           2   3";
  "   2        1          1           4";
  "   3        1          1           4";
  "   4        1          0";
  "****************";
  "REQUESTS/DURATIONS:";
  "jobnr. mode duration  R 1  R 2";
  "-------------------------------";
  "  1      1     0       0    0";
  "  2      1     8       4    0";
  "  3      1     4       1    3";
  "  4      1     0       0    0";
  "****************";
  "RESOURCEAVAILABILITIES:";
  "  R 1  R 2";
  "   8   13";
  "****************" ].

Definition sample_inst : PSPLIBInstance :=
  mkInstance "j301_1" 4 2 158
    [(1, [2; 3]); (2, [4]); (3, [4]); (4, [])]
    [(1, 0); (2, 8); (3, 4); (4, 0)]
    [(1, []); (2, [("R1", 4)]); (3, [("R1", 1); ("R2", 3)]); (4, [])]
    [("R1", 8); ("R2", 13)].

(** Two resources are declared and requested, and the availabilities line
    gives one integer. *)
Definition short_caps_sm : string := Eval vm_compute in text [
  "  - renewable                 :  2   R";
  "REQUESTS/DURATIONS:";
  "jobnr. mode duration  R 1  R 2";
  "-------------------------------";
  "  1      1     0       0    0";
  "  2      1     4       1    3";
  "  3      1     0       0    0";
  "****************";
  "RESOURCEAVAILABILITIES:";
  "  R 1  R 2";
  "   8";
  "****************" ].

Definition short_caps_inst : PSPLIBInstance :=
  mkInstance "short" 0 2 100 []
    [(1, 0); (2, 4); (3, 0)]
    [(1, []); (2, [("R1", 1); ("R2", 3)]); (3, [])]
    [("R1", 8)].

(** A precedence line of three tokens whose first is no integer. *)
Definition bad_prec_sm : string := Eval vm_compute in text [
  "PRECEDENCE RELATIONS:";
  "jobnr.    #modes  #successors   successors";
  "   1        1          1           2";
  "   oops     1          0";
  "****************" ].

(** A requests line with a negative duration. *)
Definition negative_sm : string := Eval vm_compute in text [
  "  - renewable                 :  1   R";
  "REQUESTS/DURATIONS:";
  "jobnr. mode duration  R 1";
  "-------------------------------";
  "  1      1     0       0";
  "  2      1    -3       1";
  "  3      1     4       1";
  "  4      1     0       0";
  "****************" ].

Definition negative_inst : PSPLIBInstance :=
  mkInstance "neg" 0 1 100 []
    [(1, 0); (2, -3); (3, 4); (4, 0)]
    [(1, []); (2, [("R1", 1)]); (3, [("R1", 1)]); (4, [])]
    [("R1", 10)].

Definition negative_lines : list string :=
  Eval vm_compute in
    match proj_lines negative_inst None with inr l => l | inl _ => [] end.

(** A reader under which every path holds the same text. *)
Definition always (content : string) : reader := λ _, mret content.

(** The table of the loader scenario. *)
Definition scenario_table : string :=
  Eval vm_compute in text ["1 1 43"; "2 1 47"; "badline"; "3 1 39"].

(** Three candidate files and a solutions file in one directory; the second
    candidate requests a resource of capacity 0, so that its translation
    divides by zero. *)
Definition good_sm : string := Eval vm_compute in text [
  "  - renewable                 :  1   R";
  "REQUESTS/DURATIONS:";
  "jobnr. mode duration  R 1";
  "-------------------------------";
  "  1      1     0       0";
  "  2      1     3       1";
  "  3      1     0       0";
  "****************";
  "RESOURCEAVAILABILITIES:";
  "  R 1";
  "   4";
  "****************" ].

Definition zero_cap_sm : string := Eval vm_compute in text [
  "  - renewable                 :  1   R";
  "REQUESTS/DURATIONS:";
  "jobnr. mode duration  R 1";
  "-------------------------------";
  "  1      1     0       0";
  "  2      1     3       1";
  "  3      1     0       0";
  "****************";
  "RESOURCEAVAILABILITIES:";
  "  R 1";
  "   0";
  "****************" ].

Definition three_files : world :=
  mkWorld (λ p, if decide (p = "in/j102_1.sm") then mret zero_cap_sm else mret good_sm)
          ["j103_1.sm"; "j101_1.sm"; "j102_1.sm"; "j10opt.sm"]
          None (λ _, false) (λ _, None).

(** Further inputs. *)

(** A chain of four jobs: job 3 follows job 2, and both are rendered. *)
Definition chain_inst : PSPLIBInstance :=
  mkInstance "chain" 4 2 100
    [(1, [2]); (2, [3]); (3, [4]); (4, [])]
    [(1, 0); (2, 5); (3, 3); (4, 0)]
    [(1, []); (2, [("R1", 5)]); (3, [("R10", 2); ("R2", 1)]); (4, [])]
    [("R2", 7); ("R10", 4); ("R1", 10)].

Definition chain_lines : list string :=
  Eval vm_compute in
    match proj_lines chain_inst None with inr l => l | inl _ => [] end.

Definition chain_block : list string :=
  Eval vm_compute in match task_block chain_inst 3 with inr b => b | inl _ => [] end.

Definition tiny_inst : PSPLIBInstance :=
  mkInstance "tiny" 3 2 100
    [(1, [2]); (2, [3]); (3, [])]
    [(1, 0); (2, 5); (3, 0)]
    [(1, []); (2, [("R1", 1); ("R2", 9)]); (3, [])]
    [("R1", 200); ("R2", 4)].

Definition tiny_block : list string :=
  Eval vm_compute in match task_block tiny_inst 2 with inr b => b | inl _ => [] end.

Definition twice_table : string :=
  "1 1 43" +:+ newline +:+ "header line" +:+ newline +:+ "1 1 44".

Definition one_file : world :=
  mkWorld (λ _, mret good_sm) [] None (λ _, false) (λ _, None).

(** * Properties *)

(** ** Decimal numerals *)

Lemma uint_string_numeral d :
  all_chars numeral_char (NilEmpty.string_of_uint d) = true.
Proof. induction d; simpl; auto. Qed.

Lemma str_numeral z : all_chars numeral_char (Py.str z) = true.
Proof.
  unfold Py.str, NilZero.string_of_int, NilZero.string_of_uint.
  destruct (Z.to_int z) as [d|d]; destruct d; simpl; auto using uint_string_numeral.
Qed.

Lemma to_int_proper z :
  Z.to_int z ≠ Decimal.Pos Decimal.Nil ∧ Z.to_int z ≠ Decimal.Neg Decimal.Nil.
Proof.
  destruct z as [|p|p]; simpl; split; try discriminate;
    intros [= H]; revert H; apply Unsigned.to_uint_nonnil.
Qed.

(** Two integers that print alike are equal. *)
Lemma str_inj a b : Py.str a = Py.str b → a = b.
Proof.
  intros H. apply DecimalZ.to_int_inj.
  destruct (to_int_proper a) as [? ?], (to_int_proper b) as [? ?].
  assert (Some (Z.to_int a) = Some (Z.to_int b)) as [= ->]; [|done].
  rewrite <- (NilZero.isi (Z.to_int a)), <- (NilZero.isi (Z.to_int b)) by done.
  unfold Py.str in H. by rewrite H.
Qed.

Lemma append_cons a s t : String a s +:+ t = String a (s +:+ t).
Proof. done. Qed.

(** A numeral is read off up to the first blank. *)
Lemma numeral_prefix_inj s1 s2 r1 r2 :
  all_chars numeral_char s1 = true → all_chars numeral_char s2 = true →
  s1 +:+ String " " r1 = s2 +:+ String " " r2 → s1 = s2.
Proof.
  revert s2. induction s1 as [|a s1 IH]; intros [|b s2]; simpl; try done.
  - intros _ [Hb _]%andb_prop. rewrite append_cons. intros [= <- _]. done.
  - intros [Ha _]%andb_prop _. rewrite append_cons. intros [= -> _]. done.
  - intros [_ H1]%andb_prop [_ H2]%andb_prop. rewrite !append_cons.
    intros [= -> H]. f_equal. by apply IH.
Qed.

Lemma task_header_inj j1 j2 : task_header j1 = task_header j2 → j1 = j2.
Proof.
  unfold task_header. intros H%(inj (String.app "task j")).
  apply str_inj. eapply numeral_prefix_inj; [apply str_numeral..|exact H].
Qed.

(** Digit strings are integer literals. *)

Lemma is_digit_not_underscore a : Py.is_digit a = true → a ≠ "_"%char.
Proof. by intros H ->. Qed.

Lemma digit_val_nonneg a : Py.is_digit a = true → 0 ≤ Py.digit_val a.
Proof.
  unfold Py.is_digit, Py.digit_val. intros [H _]%andb_prop.
  apply N.leb_le in H. lia.
Qed.

Lemma int_digits_all_digits s acc :
  Py.all_digits s = true → 0 ≤ acc →
  ∃ z, Py.int_digits acc false s = Some z ∧ 0 ≤ z.
Proof.
  revert acc. induction s as [|a s IH]; intros acc; simpl.
  - intros _ ?. by exists acc.
  - intros [Ha Hs]%andb_prop Hacc.
    rewrite decide_False by by apply is_digit_not_underscore.
    rewrite Ha. apply IH; [done|]. pose proof (digit_val_nonneg _ Ha). lia.
Qed.

Lemma isdigit_int s :
  Py.isdigit s = true → ∃ z, Py.int_opt s = Some z ∧ 0 ≤ z.
Proof.
  destruct s as [|a s]; [done|]. simpl. intros [Ha Hs]%andb_prop.
  assert (Py.int_unsigned (String a s) = Py.int_digits (Py.digit_val a) false s) as Hu
    by (simpl; by rewrite Ha).
  destruct (int_digits_all_digits s (Py.digit_val a) Hs (digit_val_nonneg _ Ha))
    as (z & Hz & Hpos).
  exists z. split; [|done]. rewrite <- Hz, <- Hu.
  unfold Py.int_opt.
  destruct (decide (a = "+"%char)) as [->|]; [done|].
  destruct (decide (a = "-"%char)) as [->|]; [done|].
  destruct a as [[] [] [] [] [] [] [] []]; done.
Qed.

(** ** Orders and sorting *)

Global Instance item_le_trans : Transitive Py.item_le.
Proof.
  intros [s1 z1] [s2 z2] [s3 z3]. unfold Py.item_le; simpl.
  destruct (decide (s1 = s2)) as [->|N12], (decide (s2 = s3)) as [->|N23];
    rewrite ?decide_True by done; rewrite ?decide_False by done; try done.
  - lia.
  - intros L12 L23. destruct (decide (s1 = s3)) as [->|N13].
    + destruct N12. by apply (anti_symm String.le).
    + by etrans.
Qed.

Global Instance item_le_total : Total Py.item_le.
Proof.
  intros [s1 z1] [s2 z2]. unfold Py.item_le; simpl.
  destruct (decide (s1 = s2)) as [->|N12].
  - rewrite decide_True by done. lia.
  - rewrite decide_False by done. apply (total String.le).
Qed.

Global Instance item_le_antisymm : AntiSymm (=) Py.item_le.
Proof.
  intros [s1 z1] [s2 z2]. unfold Py.item_le; simpl.
  destruct (decide (s1 = s2)) as [->|N12].
  - rewrite decide_True by done. intros. f_equal. lia.
  - rewrite decide_False by done. intros L12 L21.
    destruct N12. by apply (anti_symm String.le).
Qed.

Section Sorting.
Context {A : Type} (R : relation A) `{!RelDecision R}.
Context `{!Transitive R, !Total R, !AntiSymm (=) R}.

(** Under a total order the sorted list depends on the elements only. *)
Lemma merge_sort_perm_eq (l1 l2 : list A) :
  l1 ≡ₚ l2 → merge_sort R l1 = merge_sort R l2.
Proof.
  intros Hp. apply (StronglySorted_unique R).
  - by apply StronglySorted_merge_sort.
  - by apply StronglySorted_merge_sort.
  - by rewrite !merge_sort_Permutation.
Qed.

Lemma elem_of_merge_sort (x : A) (l : list A) : x ∈ merge_sort R l ↔ x ∈ l.
Proof. by rewrite merge_sort_Permutation. Qed.

Lemma merge_sort_nil_iff (l : list A) : merge_sort R l = [] ↔ l = [].
Proof.
  split; [|by intros ->].
  intros H. apply Permutation_nil_r. rewrite <- H. by rewrite merge_sort_Permutation.
Qed.
End Sorting.

(** Sorting integers without repeats gives a strictly ascending list. *)
Lemma sorted_ints_strict (l : list Z) :
  NoDup l → StronglySorted Z.lt (Py.sorted_ints l).
Proof.
  intros Hnd. unfold Py.sorted_ints.
  assert (NoDup (merge_sort Z.le l)) as Hnd' by by rewrite merge_sort_Permutation.
  assert (StronglySorted Z.le (merge_sort Z.le l)) as Hs
    by apply (StronglySorted_merge_sort _).
  induction Hs as [|x k Hk IH Hx]; [constructor|].
  apply NoDup_cons in Hnd' as [Hx' Hnd'].
  constructor; [by apply IH|].
  rewrite Forall_forall in Hx |- *. intros y Hy.
  specialize (Hx y Hy). assert (x ≠ y) by (intros ->; done). lia.
Qed.

(** ** Dictionaries *)

Section DictFacts.
Context {K V : Type} `{EqDecision K}.
Implicit Types (d : list (K * V)) (k : K) (v : V).

Lemma dict_get_Some_elem d k v : dict_get d k = Some v → (k, v) ∈ d.
Proof.
  induction d as [|[k' v'] d IH]; simpl; [done|].
  case_decide; subst.
  - intros [= ->]. left.
  - intros. right. auto.
Qed.

Lemma dict_get_None d k : dict_get d k = None ↔ k ∉ dict_keys d.
Proof.
  unfold dict_keys. induction d as [|[k' v'] d IH]; simpl.
  - split; [intros _; apply not_elem_of_nil|done].
  - rewrite not_elem_of_cons. destruct (decide (k' = k)) as [->|Hne].
    + split; [done|]. by intros [? _].
    + rewrite IH. split; [intros ?; split; [congruence|done]|by intros [_ ?]].
Qed.

Lemma dict_keys_is_Some d k : k ∈ dict_keys d ↔ is_Some (dict_get d k).
Proof.
  rewrite <- not_eq_None_Some, dict_get_None. split; [tauto|].
  intros Hn. destruct (decide (k ∈ dict_keys d)); [done|by destruct Hn].
Qed.

Lemma dict_elem_get d k v : dict_wf d → (k, v) ∈ d → dict_get d k = Some v.
Proof.
  unfold dict_wf, dict_keys. induction d as [|[k' v'] d IH]; simpl.
  - intros _ H. by apply elem_of_nil in H.
  - rewrite NoDup_cons. intros [Hk Hd] [[= -> ->]|Hin]%elem_of_cons.
    + by rewrite decide_True.
    + rewrite decide_False; [auto|]. intros ->. apply Hk.
      apply list_elem_of_fmap. by exists (k, v).
Qed.

Lemma dict_wf_NoDup d : dict_wf d → NoDup d.
Proof. intros Hwf. by eapply NoDup_fmap_1. Qed.

(** Two dictionaries that are the same mapping hold the same items. *)
Lemma dict_equiv_perm d1 d2 :
  dict_wf d1 → dict_wf d2 → dict_equiv d1 d2 → d1 ≡ₚ d2.
Proof.
  intros H1 H2 He. apply NoDup_Permutation; [by apply dict_wf_NoDup..|].
  intros [k v]. split; intros Hin.
  - apply dict_get_Some_elem. rewrite <- He. by apply dict_elem_get.
  - apply dict_get_Some_elem. rewrite He. by apply dict_elem_get.
Qed.

Lemma dict_get_set d k v k' :
  dict_get (dict_set d k v) k' = if decide (k = k') then Some v else dict_get d k'.
Proof.
  induction d as [|[k0 v0] d IH]; simpl.
  - done.
  - destruct (decide (k0 = k)) as [->|Hne]; simpl.
    + by destruct (decide (k = k')).
    + rewrite IH. destruct (decide (k0 = k')) as [->|]; [|done].
      by rewrite decide_False by done.
Qed.

Lemma dict_keys_set d k v k' :
  k' ∈ dict_keys (dict_set d k v) ↔ k' = k ∨ k' ∈ dict_keys d.
Proof.
  rewrite !dict_keys_is_Some, dict_get_set.
  destruct (decide (k = k')) as [->|Hne].
  - split; [by left|]. intros _. by eexists.
  - split; [by right|]. by intros [->|?].
Qed.

Lemma dict_set_wf d k v : dict_wf d → dict_wf (dict_set d k v).
Proof.
  unfold dict_wf, dict_keys. induction d as [|[k0 v0] d IH]; simpl.
  - intros _. apply NoDup_singleton.
  - rewrite NoDup_cons. intros [Hk Hd].
    destruct (decide (k0 = k)) as [->|Hne]; simpl.
    + by apply NoDup_cons.
    + apply NoDup_cons. split; [|auto].
      intros Hin. by apply (dict_keys_set d k v k0) in Hin as [->|?].
Qed.

(** Checks that decide the two predicates on given dictionaries. *)
Lemma dict_wf_check d : bool_decide (NoDup (dict_keys d)) = true → dict_wf d.
Proof. apply bool_decide_eq_true_1. Qed.

Lemma dict_equiv_check d1 d2 :
  Forall (λ k, dict_get d1 k = dict_get d2 k) (dict_keys d1 ++ dict_keys d2) →
  dict_equiv d1 d2.
Proof.
  intros HF k. destruct (decide (k ∈ dict_keys d1 ++ dict_keys d2)) as [Hin|Hn].
  - by apply (proj1 (Forall_forall _ _) HF).
  - apply not_elem_of_app in Hn as [H1 H2].
    apply dict_get_None in H1, H2. by rewrite H1, H2.
Qed.
End DictFacts.

Ltac check_wf := apply dict_wf_check; reflexivity.
Ltac check_equiv :=
  apply dict_equiv_check; repeat (constructor; [reflexivity|]); constructor.

Lemma demands_equiv_check (d1 d2 : dict Z (dict string Z)) :
  Forall (λ j, dict_equiv (dict_get_or d1 j []) (dict_get_or d2 j [])
               ∧ (is_Some (dict_get d1 j) ↔ is_Some (dict_get d2 j)))
         (dict_keys d1 ++ dict_keys d2) →
  demands_equiv d1 d2.
Proof.
  intros HF j. destruct (decide (j ∈ dict_keys d1 ++ dict_keys d2)) as [Hin|Hn].
  - by apply (proj1 (Forall_forall _ _) HF).
  - apply not_elem_of_app in Hn as [H1 H2].
    apply dict_get_None in H1, H2. unfold dict_get_or. by rewrite H1, H2.
Qed.

Lemma inner_wf_check (d : dict Z (dict string Z)) :
  Forall (λ it, dict_wf it.2) d → ∀ j, dict_wf (dict_get_or d j []).
Proof.
  intros HF j. unfold dict_get_or.
  destruct (dict_get d j) as [jd|] eqn:E; simpl; [|apply NoDup_nil_2].
  apply dict_get_Some_elem in E. by apply (proj1 (Forall_forall _ _) HF (j, jd)).
Qed.

(** ** The error monad *)

Lemma bind_inr {A B} (m : result A) (f : A → result B) (y : B) :
  (m ≫= f) = inr y → ∃ x, m = inr x ∧ f x = inr y.
Proof. destruct m as [e|x]; [done|]. intros. by exists x. Qed.

Lemma int_failure_ret {A} (x : A) : int_failure (mret x : result A).
Proof. done. Qed.

Lemma int_failure_bind {A B} (m : result A) (f : A → result B) :
  int_failure m → (∀ x, int_failure (f x)) → int_failure (m ≫= f).
Proof. destruct m as [e|x]; simpl; auto. Qed.

Lemma int_failure_int s : int_failure (Py.int s).
Proof. unfold Py.int. by destruct (Py.int_opt s) eqn:E. Qed.

Create HintDb int_failure discriminated.
#[global] Hint Resolve int_failure_ret int_failure_int : int_failure.
#[global] Hint Extern 2 (int_failure (_ ≫= _)) =>
  apply int_failure_bind; [|intros ?] : int_failure.

Lemma int_failure_traverse l : int_failure (Py.traverse Py.int l).
Proof. induction l as [|x l IH]; simpl; auto with int_failure. Qed.
#[global] Hint Resolve int_failure_traverse : int_failure.

(** ** The translator *)

(** *** Predecessors *)

(** The loop over [precedence.items()] keeps the keys whose successor list
    holds the job and whose duration is positive. *)
Lemma predecessors_filter inst J :
  predecessors inst J =
  (filter (λ it : Z * list Z,
             J ∈ it.2 ∧ 0 < dict_get_or (durations inst) it.1 0) (precedence inst)).*1.
Proof.
  unfold predecessors.
  match goal with |- foldl ?f _ _ = _ => set (F := f) end.
  enough (∀ l acc, foldl F acc l
    = acc ++ (filter (λ it : Z * list Z,
                J ∈ it.2 ∧ 0 < dict_get_or (durations inst) it.1 0) l).*1) as H
    by (by rewrite H).
  induction l as [|[p succs] l IH]; intros acc; simpl.
  - by rewrite app_nil_r.
  - rewrite IH.
    destruct (decide (J ∈ succs ∧ 0 < dict_get_or (durations inst) p 0)) as [[H1 H2]|Hn].
    + rewrite filter_cons_True by done.
      rewrite !bool_decide_eq_true_2 by done. simpl. by rewrite <- app_assoc.
    + rewrite filter_cons_False by done.
      destruct (bool_decide (J ∈ succs)) eqn:E1; [|done].
      destruct (bool_decide (0 < dict_get_or (durations inst) p 0)) eqn:E2; [|done].
      apply bool_decide_eq_true in E1, E2. destruct Hn; done.
Qed.

Lemma elem_of_predecessors inst J P :
  dict_wf (precedence inst) →
  P ∈ predecessors inst J ↔
  ∃ succs, dict_get (precedence inst) P = Some succs ∧ J ∈ succs
           ∧ 0 < dict_get_or (durations inst) P 0.
Proof.
  intros Hwf. rewrite predecessors_filter, list_elem_of_fmap. split.
  - intros ([p succs] & -> & [[H1 H2] Hin]%list_elem_of_filter). simpl in *.
    exists succs. split_and!; [|done..]. by apply dict_elem_get.
  - intros (succs & Hget & H1 & H2). exists (P, succs). split; [done|].
    apply list_elem_of_filter. split; [done|]. by apply dict_get_Some_elem.
Qed.

Lemma predecessors_NoDup inst J :
  dict_wf (precedence inst) → NoDup (predecessors inst J).
Proof.
  intros Hwf. rewrite predecessors_filter.
  apply NoDup_fmap_2_strong.
  - intros [p1 s1] [p2 s2] [_ H1]%list_elem_of_filter [_ H2]%list_elem_of_filter; simpl.
    intros <-. f_equal.
    apply (dict_elem_get _ _ _ Hwf) in H1, H2. congruence.
  - apply NoDup_filter. by apply dict_wf_NoDup.
Qed.

(** *** Percentages *)

Lemma round_half_even_pos n c :
  0 < c → nearest_half_even n c (Py.round_half_even n c).
Proof.
  intros Hc. unfold nearest_half_even, Py.round_half_even.
  pose proof (Z.div_mod n c ltac:(lia)) as Hdm.
  pose proof (Z.mod_pos_bound n c Hc) as Hr.
  set (q := n `div` c) in *. set (r := n `mod` c) in *.
  split; [lia|].
  destruct (Z.ltb_spec (2 * r) c); [split; [lia|lia]|].
  destruct (Z.ltb_spec c (2 * r)); [split; [lia|lia]|].
  destruct (Z.even q) eqn:Ev.
  - split; [lia|done].
  - split; [lia|]. intros _. rewrite Z.even_add, Ev. done.
Qed.

(** What [round(n / c)] returns is the nearest integer, halves to even. *)
Lemma round_div_spec n c p :
  Py.round_div n c = inr p → nearest_half_even n c p.
Proof.
  unfold Py.round_div. destruct (decide (c = 0)) as [|Hc]; [done|].
  destruct (decide (0 < c)) as [Hpos|Hneg]; intros [= <-].
  - by apply round_half_even_pos.
  - destruct (round_half_even_pos (- n) (- c)) as (_ & Hle & Hev); [lia|].
    set (p := Py.round_half_even (- n) (- c)) in *.
    assert (Z.abs (2 * (p * c - n)) = Z.abs (2 * (p * - c - - n))) as Heq by lia.
    unfold nearest_half_even. rewrite Heq.
    split; [done|]. split; [lia|]. intros ?. apply Hev. lia.
Qed.

(** The loop over the demands of a job: one assignment for each positive
    demand, in the order of the items. *)
Lemma assignments_spec caps items acc out :
  assignments caps items acc = inr out →
  ∃ pcts,
    Forall2 (λ it p, nearest_half_even (it.2 * 100) (dict_get_or caps it.1 10) p)
            (filter (λ it : string * Z, 0 < it.2) items) pcts
    ∧ out = acc ++ zip_with assignment (filter (λ it : string * Z, 0 < it.2) items) pcts.
Proof.
  revert acc out. induction items as [|[r d] items IH]; intros acc out; simpl.
  - intros [= <-]. exists []. split; [constructor|by rewrite app_nil_r].
  - case_decide as Hd.
    + intros (p & Hp & Hrest)%bind_inr.
      apply IH in Hrest as (pcts & HF & ->).
      rewrite filter_cons_True by done.
      exists (p :: pcts). split.
      * constructor; [|done]. by apply round_div_spec.
      * by rewrite <- app_assoc.
    + intros Hrest. rewrite filter_cons_False by done. by apply IH.
Qed.

(** *** The shape of a task block and of the whole output *)

Lemma task_block_inv inst J block :
  task_block inst J = inr block →
  ∃ duration asg,
    dict_get (durations inst) J = Some duration
    ∧ assignments (capacities inst)
        (Py.sorted_items (dict_get_or (demands inst) J [])) [] = inr asg
    ∧ block = [ task_header J; "    duration: " +:+ Py.str duration +:+ "d" ]
              ++ assign_line asg ++ depends_line (predecessors inst J) ++ ["}"].
Proof.
  unfold task_block, dict_index.
  intros (duration & Hd & (asg & Ha & [= <-])%bind_inr)%bind_inr.
  exists duration, asg. destruct (dict_get (durations inst) J); [|done].
  by injection Hd as ->.
Qed.

Lemma task_block_shape inst J block :
  task_block inst J = inr block →
  ∃ body, block = task_header J :: body ∧ Forall is_body_line body.
Proof.
  intros (duration & asg & _ & _ & ->)%task_block_inv.
  eexists. split; [done|].
  constructor; [by left|].
  apply Forall_app. split.
  { destruct asg; [constructor|]. constructor; [by left|constructor]. }
  apply Forall_app. split.
  { destruct (predecessors inst J); [constructor|]. constructor; [by left|constructor]. }
  constructor; [by right|constructor].
Qed.

Lemma task_lines_inv inst js ts :
  task_lines inst js = inr ts →
  ∃ blocks, Forall2 (λ j b, task_block inst j = inr b) js blocks ∧ ts = mjoin blocks.
Proof.
  revert ts. induction js as [|j js IH]; intros ts; simpl.
  - intros [= <-]. exists []. by split; [constructor|].
  - intros (b & Hb & (bs & Hbs & [= <-])%bind_inr)%bind_inr.
    apply IH in Hbs as (blocks & HF & ->).
    exists (b :: blocks). split; [by constructor|done].
Qed.

(** The output is the preamble, the resources, and one block for each job
    of [real_jobs], in that order. *)
Lemma proj_lines_inv inst mk lines :
  proj_lines inst mk = inr lines →
  ∃ blocks,
    Forall2 (λ j b, task_block inst j = inr b) (real_jobs inst) blocks
    ∧ lines = header_lines inst mk ++ project_lines inst ++ resource_lines inst
              ++ mjoin blocks ++ [""].
Proof.
  unfold proj_lines. intros (ts & Hts & [= <-])%bind_inr.
  apply task_lines_inv in Hts as (blocks & HF & ->). by exists blocks.
Qed.

Lemma blocks_locate {A} (P : Z → list A → Prop) js blocks J :
  Forall2 P js blocks → J ∈ js →
  ∃ pre b post, P J b ∧ mjoin blocks = pre ++ b ++ post.
Proof.
  induction 1 as [|j b js blocks Hb _ IH]; [by intros ?%elem_of_nil|].
  intros [->|Hin]%elem_of_cons.
  - exists [], b, (mjoin blocks). by split.
  - destruct (IH Hin) as (pre & b' & post & HP & Heq).
    exists (b ++ pre), b', post. split; [done|]. simpl. by rewrite Heq, <- app_assoc.
Qed.

(** The block of a job of [real_jobs] stands in the output. *)
Lemma proj_lines_locate inst mk lines J :
  proj_lines inst mk = inr lines → J ∈ real_jobs inst →
  ∃ pre block post, task_block inst J = inr block ∧ lines = pre ++ block ++ post.
Proof.
  intros (blocks & HF & ->)%proj_lines_inv Hin.
  destruct (blocks_locate _ _ _ _ HF Hin) as (pre & b & post & Hb & Heq).
  exists (header_lines inst mk ++ project_lines inst ++ resource_lines inst ++ pre),
    b, (post ++ [""]).
  split; [done|]. rewrite Heq. by rewrite <- !app_assoc.
Qed.

(** *** Which lines start how *)

Lemma body_line_not_task l : is_body_line l → ¬ is_task_line l.
Proof.
  unfold is_body_line, is_task_line. intros [H| ->]; [|by compute].
  destruct l as [|a l]; [done|]. simpl in *.
  apply andb_prop_elim in H as [Ha _]. apply bool_decide_unpack in Ha as <-. by compute.
Qed.

Lemma body_line_not_makespan l : is_body_line l → ¬ is_makespan_line l.
Proof.
  unfold is_body_line, is_makespan_line. intros [H| ->]; [|by compute].
  destruct l as [|a l]; [done|]. simpl in *.
  apply andb_prop_elim in H as [Ha _]. apply bool_decide_unpack in Ha as <-. by compute.
Qed.

Lemma filter_none {A} (P : A → Prop) `{∀ x, Decision (P x)} (l : list A) :
  Forall (λ x, ¬ P x) l → filter P l = [].
Proof.
  induction 1 as [|x l Hx _ IH]; [done|]. by rewrite filter_cons_False.
Qed.

Lemma header_project_lines_no_task inst mk :
  filter is_task_line (header_lines inst mk ++ project_lines inst) = [].
Proof.
  apply filter_none, Forall_app. split.
  - unfold header_lines. destruct mk as [m|]; [destruct (decide (m = 0))|];
      repeat constructor; by compute.
  - repeat constructor; by compute.
Qed.

Lemma resource_lines_no_task inst : filter is_task_line (resource_lines inst) = [].
Proof.
  apply filter_none. unfold resource_lines. apply Forall_app. split.
  - induction (Py.sorted_items (capacities inst)) as [|[r c] l IH]; simpl; [constructor|].
    repeat (constructor; [by compute|]). done.
  - repeat constructor; by compute.
Qed.

Lemma task_blocks_filter inst js blocks :
  Forall2 (λ j b, task_block inst j = inr b) js blocks →
  filter is_task_line (mjoin blocks) = task_header <$> js.
Proof.
  induction 1 as [|j b js blocks Hb _ IH]; [done|]. simpl.
  rewrite filter_app, IH.
  apply task_block_shape in Hb as (body & -> & Hbody).
  rewrite filter_cons_True by by compute.
  rewrite filter_none; [done|].
  eapply Forall_impl; [done|]. apply body_line_not_task.
Qed.

(** The lines of the output that open a task are the headers of
    [real_jobs], in its order. *)
Lemma proj_lines_task_lines inst mk lines :
  proj_lines inst mk = inr lines →
  filter is_task_line lines = task_header <$> real_jobs inst.
Proof.
  intros (blocks & HF & ->)%proj_lines_inv.
  rewrite app_assoc, (filter_app _ (_ ++ _)), header_project_lines_no_task.
  rewrite !filter_app, resource_lines_no_task.
  rewrite (task_blocks_filter _ _ _ HF). simpl.
  rewrite filter_cons_False by by compute. by rewrite app_nil_r.
Qed.

Lemma real_jobs_sorted inst :
  dict_wf (durations inst) → StronglySorted Z.lt (real_jobs inst).
Proof. intros Hwf. apply sorted_ints_strict. by apply NoDup_filter. Qed.

Lemma elem_of_real_jobs inst j :
  j ∈ real_jobs inst ↔ ∃ d, dict_get (durations inst) j = Some d ∧ 0 < d.
Proof.
  unfold real_jobs, Py.sorted_ints.
  rewrite (elem_of_merge_sort _), list_elem_of_filter, dict_keys_is_Some.
  unfold dict_get_or. destruct (dict_get (durations inst) j) as [d|]; simpl.
  - split; [intros [? _]; by exists d|].
    intros (d' & [= <-] & ?). split; [done|by eexists].
  - split; [intros [? _]; lia|]. by intros (d' & [=] & _).
Qed.

Lemma header_lines_makespan inst mk :
  filter is_makespan_line (header_lines inst mk) =
  match mk with
  | Some m =>
      if decide (m = 0) then [] else ["# Optimal Makespan: " +:+ Py.str m +:+ " days"]
  | None => []
  end.
Proof.
  unfold header_lines. destruct mk as [m|]; [destruct (decide (m = 0))|]; simpl.
  - by rewrite !filter_cons_False, filter_nil by by compute.
  - rewrite !filter_cons_False by by compute.
    rewrite filter_cons_True by by compute.
    by rewrite !filter_cons_False, filter_nil by by compute.
  - by rewrite !filter_cons_False, filter_nil by by compute.
Qed.

Lemma rest_lines_no_makespan inst blocks :
  Forall2 (λ j b, task_block inst j = inr b) (real_jobs inst) blocks →
  filter is_makespan_line
    (project_lines inst ++ resource_lines inst ++ mjoin blocks ++ [""]) = [].
Proof.
  intros HF. apply filter_none. repeat (apply Forall_app; split).
  - repeat constructor; by compute.
  - induction (Py.sorted_items (capacities inst)) as [|[r c] l IH]; simpl; [constructor|].
    repeat (constructor; [by compute|]). done.
  - repeat constructor; by compute.
  - induction HF as [|j b js bs Hb _ IH]; [constructor|]. simpl.
    apply Forall_app. split; [|done].
    apply task_block_shape in Hb as (body & -> & Hbody).
    constructor; [by compute|].
    eapply Forall_impl; [done|]. apply body_line_not_makespan.
  - repeat constructor; by compute.
Qed.

(** *** Emission order and filtering *)

(** C8. For every instance whose [durations] repeats no key, the lines of
    the output that open a task block are the headers [task j<id> ...] of
    the jobs of [real_jobs], in the order of that list, and that list is
    strictly ascending: the task blocks appear in strictly ascending order
    of job id. *)
Theorem task_blocks_ascending inst mk lines :
  dict_wf (durations inst) →
  proj_lines inst mk = inr lines →
  filter is_task_line lines = task_header <$> real_jobs inst
  ∧ StronglySorted Z.lt (real_jobs inst).
Proof.
  intros Hwf Hl. split; [by eapply proj_lines_task_lines|by apply real_jobs_sorted].
Qed.

Lemma task_blocks_ascending_witness :
  dict_wf (durations ex_inst) ∧ proj_lines ex_inst None = inr ex_lines
  ∧ filter is_task_line ex_lines = task_header <$> real_jobs ex_inst
  ∧ StronglySorted Z.lt (real_jobs ex_inst).
Proof.
  assert (dict_wf (durations ex_inst)) as Hwf by check_wf.
  assert (proj_lines ex_inst None = inr ex_lines) as Hl by (vm_compute; reflexivity).
  split; [exact Hwf|]. split; [exact Hl|].
  exact (task_blocks_ascending ex_inst None ex_lines Hwf Hl).
Defined.

(** C2, as the code decides it. A job with a duration is emitted as a task
    block exactly when that duration is strictly positive, whatever the
    place of its id: a job is left out when its duration is 0, and also
    when it is negative, which the parser can read from a file. *)
Theorem task_emitted_iff_positive inst mk lines j d :
  proj_lines inst mk = inr lines →
  dict_get (durations inst) j = Some d →
  task_header j ∈ lines ↔ 0 < d.
Proof.
  intros Hl Hd. pose proof (proj_lines_task_lines _ _ _ Hl) as Hf. split.
  - intros Hin.
    assert (task_header j ∈ filter is_task_line lines) as Hin'.
    { apply list_elem_of_filter. split; [by compute|done]. }
    rewrite Hf in Hin'. apply list_elem_of_fmap in Hin' as (j' & Hj & Hin').
    apply task_header_inj in Hj as <-.
    apply elem_of_real_jobs in Hin' as (d' & Hd' & Hpos). congruence.
  - intros Hpos.
    assert (task_header j ∈ filter is_task_line lines) as Hin'.
    { rewrite Hf. apply list_elem_of_fmap_2, elem_of_real_jobs. eauto. }
    by apply list_elem_of_filter in Hin' as [_ ?].
Qed.

Lemma task_emitted_iff_positive_witness :
  proj_lines ex_inst None = inr ex_lines
  ∧ dict_get (durations ex_inst) 2 = Some 5
  ∧ (task_header 2 ∈ ex_lines ↔ 0 < 5).
Proof.
  assert (proj_lines ex_inst None = inr ex_lines) as Hl by (vm_compute; reflexivity).
  assert (dict_get (durations ex_inst) 2 = Some 5) as Hd by reflexivity.
  split; [exact Hl|]. split; [exact Hd|].
  exact (task_emitted_iff_positive ex_inst None ex_lines 2 5 Hl Hd).
Defined.

(** C2 as stated fails on a parsed instance: the file [negative_sm] gives
    job 2 the duration -3, which is not 0, and the output has no task block
    for job 2. *)
Lemma negative_duration_excluded :
  parse_psplib (always negative_sm) "neg.sm" = inr negative_inst
  ∧ proj_lines negative_inst None = inr negative_lines
  ∧ dict_get (durations negative_inst) 2 = Some (-3)
  ∧ -3 ≠ 0
  ∧ task_header 2 ∉ negative_lines.
Proof.
  split_and!.
  - vm_compute. reflexivity.
  - vm_compute. reflexivity.
  - reflexivity.
  - lia.
  - apply (bool_decide_unpack _). vm_compute. exact I.
Qed.

(** *** Dependencies *)

(** C1. For every job [J] rendered as a task (a job of [real_jobs], in an
    instance whose [precedence] repeats no key), the block of [J] stands in
    the output, and with [preds] the strictly ascending list whose members
    are exactly the jobs [P] with [J] among the successors of [P] and a
    duration of [P] above 0 (a job without duration counts as 0): the
    block has the one line [depends: j<p1>, j<p2>, ...] over [preds] when
    [preds] is not empty, and no [depends:] line when it is. *)
Theorem depends_line_exact inst mk lines J :
  dict_wf (precedence inst) →
  proj_lines inst mk = inr lines →
  J ∈ real_jobs inst →
  ∃ pre block post preds,
    lines = pre ++ block ++ post
    ∧ task_block inst J = inr block
    ∧ (∀ P, P ∈ preds ↔
             ∃ succs, dict_get (precedence inst) P = Some succs ∧ J ∈ succs
                      ∧ 0 < dict_get_or (durations inst) P 0)
    ∧ StronglySorted Z.lt preds
    ∧ filter is_depends_line block =
        match preds with [] => [] | _ => [depends_text preds] end.
Proof.
  intros Hwf Hl HJ.
  destruct (proj_lines_locate _ _ _ _ Hl HJ) as (pre & block & post & Hb & ->).
  exists pre, block, post, (Py.sorted_ints (predecessors inst J)).
  split; [done|]. split; [done|]. split; [|split].
  - intros P. unfold Py.sorted_ints. rewrite (elem_of_merge_sort _).
    by apply elem_of_predecessors.
  - by apply sorted_ints_strict, predecessors_NoDup.
  - apply task_block_inv in Hb as (duration & asg & _ & _ & ->).
    rewrite !filter_app, !filter_cons_False, !filter_nil by by compute.
    assert (filter is_depends_line (assign_line asg) = []) as ->.
    { destruct asg; [done|]. simpl. by rewrite filter_cons_False by by compute. }
    simpl. rewrite app_nil_r. unfold depends_line.
    destruct (predecessors inst J) as [|p ps] eqn:Hp; [done|].
    rewrite filter_cons_True by by compute.
    destruct (Py.sorted_ints (p :: ps)) eqn:Hs; [|done].
    by apply (merge_sort_nil_iff _) in Hs.
Qed.

Lemma depends_line_exact_witness :
  dict_wf (precedence ex_inst) ∧ proj_lines ex_inst None = inr ex_lines
  ∧ 2 ∈ real_jobs ex_inst
  ∧ ∃ pre block post preds,
      ex_lines = pre ++ block ++ post
      ∧ task_block ex_inst 2 = inr block
      ∧ (∀ P, P ∈ preds ↔
               ∃ succs, dict_get (precedence ex_inst) P = Some succs ∧ 2 ∈ succs
                        ∧ 0 < dict_get_or (durations ex_inst) P 0)
      ∧ StronglySorted Z.lt preds
      ∧ filter is_depends_line block =
          match preds with [] => [] | _ => [depends_text preds] end.
Proof.
  assert (dict_wf (precedence ex_inst)) as Hwf by check_wf.
  assert (proj_lines ex_inst None = inr ex_lines) as Hl by (vm_compute; reflexivity).
  assert (2 ∈ real_jobs ex_inst) as HJ
    by (apply (bool_decide_unpack _); vm_compute; exact I).
  split; [exact Hwf|]. split; [exact Hl|]. split; [exact HJ|].
  exact (depends_line_exact ex_inst None ex_lines 2 Hwf Hl HJ).
Defined.

(** *** Resource assignments *)




(** *** The makespan comment *)

(** C10. A makespan of 0 gives the very text that no makespan gives; and
    in any output a line [# Optimal Makespan ...] stands exactly when a
    makespan other than 0 was passed, in which case it is the one line
    [# Optimal Makespan: <m> days]. *)
Theorem makespan_comment_iff_nonzero inst mk lines :
  proj_lines inst mk = inr lines →
  convert_to_proj inst (Some 0) = convert_to_proj inst None
  ∧ ((∃ l, l ∈ lines ∧ is_makespan_line l) ↔ ∃ m, mk = Some m ∧ m ≠ 0)
  ∧ (∀ m, mk = Some m → m ≠ 0 →
       filter is_makespan_line lines
       = ["# Optimal Makespan: " +:+ Py.str m +:+ " days"]).
Proof.
  intros Hl. split; [done|].
  apply proj_lines_inv in Hl as (blocks & HF & ->).
  assert (filter is_makespan_line
            (header_lines inst mk ++ project_lines inst ++ resource_lines inst
             ++ mjoin blocks ++ [""]) =
          match mk with
          | Some m => if decide (m = 0) then []
                      else ["# Optimal Makespan: " +:+ Py.str m +:+ " days"]
          | None => []
          end) as Hf.
  { by rewrite filter_app, header_lines_makespan, rest_lines_no_makespan, app_nil_r. }
  split.
  - split.
    + intros (l & Hin & Hm).
      assert (l ∈ filter is_makespan_line
                (header_lines inst mk ++ project_lines inst ++ resource_lines inst
                 ++ mjoin blocks ++ [""])) as Hin'
        by by apply list_elem_of_filter.
      rewrite Hf in Hin'. destruct mk as [m|]; [|by apply elem_of_nil in Hin'].
      destruct (decide (m = 0)); [by apply elem_of_nil in Hin'|]. by exists m.
    + intros (m & -> & Hm). rewrite decide_False in Hf by done.
      exists ("# Optimal Makespan: " +:+ Py.str m +:+ " days").
      split; [|by compute].
      eapply (list_elem_of_filter is_makespan_line). rewrite Hf. by left.
  - intros m -> Hm. by rewrite decide_False in Hf.
Qed.

Lemma makespan_comment_iff_nonzero_witness :
  proj_lines ex_inst (Some 0) = inr ex_lines
  ∧ convert_to_proj ex_inst (Some 0) = convert_to_proj ex_inst None
  ∧ ((∃ l, l ∈ ex_lines ∧ is_makespan_line l) ↔ ∃ m, Some 0 = Some m ∧ m ≠ 0)
  ∧ (∀ m, Some 0 = Some m → m ≠ 0 →
       filter is_makespan_line ex_lines
       = ["# Optimal Makespan: " +:+ Py.str m +:+ " days"]).
Proof.
  assert (proj_lines ex_inst (Some 0) = inr ex_lines) as Hl by (vm_compute; reflexivity).
  split; [exact Hl|].
  exact (makespan_comment_iff_nonzero ex_inst (Some 0) ex_lines Hl).
Defined.

(** *** Determinism *)

Section Deterministic.
Context (i1 i2 : PSPLIBInstance).
Context (Hwf1 : instance_wf i1) (Hwf2 : instance_wf i2) (Heq : instance_equiv i1 i2).

Lemma equiv_header mk : header_lines i1 mk = header_lines i2 mk.
Proof.
  destruct Heq as (Hn & Hj & Hr & _). unfold header_lines. by rewrite Hn, Hj, Hr.
Qed.

Lemma equiv_project : project_lines i1 = project_lines i2.
Proof. destruct Heq as (Hn & _). unfold project_lines. by rewrite Hn. Qed.

Lemma equiv_resources : resource_lines i1 = resource_lines i2.
Proof.
  destruct Heq as (_ & _ & _ & _ & _ & _ & _ & Hc).
  destruct Hwf1 as (_ & _ & _ & Hc1 & _), Hwf2 as (_ & _ & _ & Hc2 & _).
  unfold resource_lines, Py.sorted_items.
  by rewrite (merge_sort_perm_eq _ _ _ (dict_equiv_perm _ _ Hc1 Hc2 Hc)).
Qed.

Lemma equiv_real_jobs : real_jobs i1 = real_jobs i2.
Proof.
  destruct Heq as (_ & _ & _ & _ & _ & Hd & _).
  destruct Hwf1 as (_ & Hd1 & _), Hwf2 as (_ & Hd2 & _).
  unfold real_jobs, Py.sorted_ints. apply (merge_sort_perm_eq _).
  unfold dict_keys. rewrite (dict_equiv_perm _ _ Hd1 Hd2 Hd).
  erewrite list_filter_iff; [done|].
  intros j. unfold dict_get_or. by rewrite (Hd j).
Qed.

Lemma equiv_assignments items acc :
  assignments (capacities i1) items acc = assignments (capacities i2) items acc.
Proof.
  destruct Heq as (_ & _ & _ & _ & _ & _ & _ & Hc).
  revert acc. induction items as [|[r d] items IH]; intros acc; simpl; [done|].
  unfold dict_get_or. rewrite (Hc r).
  case_decide; [|done]. destruct (Py.round_div _ _); simpl; [done|]. apply IH.
Qed.

Lemma equiv_predecessors J : predecessors i1 J ≡ₚ predecessors i2 J.
Proof.
  destruct Heq as (_ & _ & _ & _ & Hp & Hd & _).
  destruct Hwf1 as (Hp1 & _), Hwf2 as (Hp2 & _).
  rewrite !predecessors_filter.
  rewrite (dict_equiv_perm _ _ Hp1 Hp2 Hp).
  erewrite list_filter_iff; [done|].
  intros [p succs]. unfold dict_get_or; simpl. by rewrite (Hd p).
Qed.

Lemma equiv_depends J :
  depends_line (predecessors i1 J) = depends_line (predecessors i2 J).
Proof.
  pose proof (equiv_predecessors J) as Hp. unfold depends_line.
  unfold Py.sorted_ints. rewrite (merge_sort_perm_eq _ _ _ Hp).
  destruct (predecessors i1 J), (predecessors i2 J); try done.
  - by apply Permutation_nil_cons in Hp.
  - symmetry in Hp. by apply Permutation_nil_cons in Hp.
Qed.

Lemma equiv_task_block J : task_block i1 J = task_block i2 J.
Proof.
  destruct Heq as (_ & _ & _ & _ & _ & Hd & Hm & _).
  destruct Hwf1 as (_ & _ & _ & _ & Hm1), Hwf2 as (_ & _ & _ & _ & Hm2).
  unfold task_block, dict_index. rewrite (Hd J).
  destruct (dict_get (durations i2) J) as [duration|]; simpl; [|done].
  unfold Py.sorted_items.
  rewrite (merge_sort_perm_eq _ _ _
             (dict_equiv_perm _ _ (Hm1 J) (Hm2 J) (proj1 (Hm J)))).
  by rewrite equiv_assignments, equiv_depends.
Qed.

Lemma equiv_task_lines js : task_lines i1 js = task_lines i2 js.
Proof.
  induction js as [|j js IH]; simpl; [done|]. by rewrite equiv_task_block, IH.
Qed.

Lemma equiv_convert mk : convert_to_proj i1 mk = convert_to_proj i2 mk.
Proof.
  unfold convert_to_proj, proj_lines.
  by rewrite equiv_real_jobs, equiv_task_lines, equiv_header, equiv_project,
    equiv_resources.
Qed.
End Deterministic.

(** C9. [convert_to_proj] is a function of the instance as a value: two
    instances with the same scalars and the same mappings, in whatever
    order their [precedence], [durations], [demands] and [capacities]
    dictionaries were filled, give the same result, character for
    character (and the same exception when the translation raises). *)
Theorem convert_to_proj_deterministic i1 i2 mk :
  instance_wf i1 → instance_wf i2 → instance_equiv i1 i2 →
  convert_to_proj i1 mk = convert_to_proj i2 mk.
Proof. intros. by apply equiv_convert. Qed.

Lemma two_res_wf : instance_wf two_res_inst.
Proof.
  split_and!; try check_wf.
  apply inner_wf_check. repeat (constructor; [check_wf|]). constructor.
Defined.

Lemma two_res_shuffled_wf : instance_wf two_res_shuffled.
Proof.
  split_and!; try check_wf.
  apply inner_wf_check. repeat (constructor; [check_wf|]). constructor.
Defined.

Lemma two_res_equiv : instance_equiv two_res_inst two_res_shuffled.
Proof.
  split_and!; try reflexivity; try check_equiv.
  apply demands_equiv_check.
  repeat (constructor; [split; [check_equiv|split; intros _; by eexists]|]).
  constructor.
Defined.

Lemma convert_to_proj_deterministic_witness :
  instance_wf two_res_inst ∧ instance_wf two_res_shuffled
  ∧ instance_equiv two_res_inst two_res_shuffled
  ∧ convert_to_proj two_res_inst (Some 12) = convert_to_proj two_res_shuffled (Some 12).
Proof.
  split; [exact two_res_wf|]. split; [exact two_res_shuffled_wf|].
  split; [exact two_res_equiv|].
  exact (convert_to_proj_deterministic two_res_inst two_res_shuffled (Some 12)
           two_res_wf two_res_shuffled_wf two_res_equiv).
Defined.

(** ** The matcher *)

Lemma append_nil_r s : s +:+ EmptyString = s.
Proof. induction s as [|a s IH]; [done|]. by rewrite append_cons, IH. Qed.

Lemma append_assoc s1 s2 s3 : (s1 +:+ s2) +:+ s3 = s1 +:+ (s2 +:+ s3).
Proof. induction s1 as [|a s1 IH]; [done|]. by rewrite !append_cons, IH. Qed.

Lemma append_length s1 s2 :
  String.length (s1 +:+ s2) = (String.length s1 + String.length s2)%nat.
Proof.
  induction s1 as [|a s1 IH]; [done|]. rewrite append_cons. simpl. by rewrite IH.
Qed.

Lemma all_chars_append P s1 s2 :
  all_chars P (s1 +:+ s2) = all_chars P s1 && all_chars P s2.
Proof.
  induction s1 as [|a s1 IH]; [done|]. rewrite append_cons. simpl.
  by rewrite IH, andb_assoc.
Qed.

Lemma all_chars_impl (P Q : ascii → bool) s :
  (∀ a, P a = true → Q a = true) → all_chars P s = true → all_chars Q s = true.
Proof.
  intros HPQ. induction s as [|a s IH]; [done|]. simpl.
  intros [Ha Hs]%andb_prop. by rewrite (HPQ _ Ha), IH.
Qed.

Lemma all_chars_in_string p : all_chars (λ a, in_string a p) p = true.
Proof.
  enough (∀ q, (∀ a, in_string a p = true → in_string a q = true) →
               all_chars (λ a, in_string a q) p = true) as H by by apply H.
  induction p as [|b p IH]; intros q Hq; [done|]. simpl.
  rewrite Hq by (simpl; by rewrite bool_decide_eq_true_2).
  apply IH. intros a Ha. apply Hq. simpl. by rewrite Ha, orb_true_r.
Qed.

Lemma strip_prefix_Some p s s' : Re.strip_prefix p s = Some s' → s = p +:+ s'.
Proof.
  revert s. induction p as [|a p IH]; intros [|b s]; simpl; try done.
  - by intros [= <-].
  - by intros [= <-].
  - case_decide; [|done]. subst. intros H%IH. by rewrite append_cons, <- H.
Qed.

Lemma consumed_append w s' : Re.consumed (w +:+ s') s' = w.
Proof.
  unfold Re.consumed. rewrite append_length.
  replace (String.length w + String.length s' - String.length s')%nat
    with (String.length w) by lia.
  induction w as [|a w IH].
  - by destruct s'.
  - rewrite append_cons. simpl. by rewrite IH.
Qed.

Lemma text_of_weaken (P Q : ascii → bool) (m n : nat) w :
  (∀ a, P a = true → Q a = true) → (n ≤ m)%nat →
  all_chars P w = true ∧ (m ≤ String.length w)%nat →
  all_chars Q w = true ∧ (n ≤ String.length w)%nat.
Proof. intros HPQ Hnm [H1 H2]. split; [by eapply all_chars_impl|lia]. Qed.

Lemma capture_of_mono r r' c :
  (∀ g, g ∈ groups_of r' → g ∈ groups_of r) → capture_of r' c → capture_of r c.
Proof. intros Hsub (r0 & Hin & Ht). exists r0. split; [by apply Hsub|done]. Qed.

Lemma captures_mono r r' new :
  (∀ g, g ∈ groups_of r' → g ∈ groups_of r) →
  Forall (capture_of r') new → Forall (capture_of r) new.
Proof.
  intros Hsub HF. eapply Forall_impl; [exact HF|]. intros c. by apply capture_of_mono.
Qed.

Section Rounds.
Context {A : Type} (r' : Re.regex) (greedy : bool) (lo : nat).
Context (k : string → Re.captures → option A) (x : A).
Context (body_sound : ∀ s caps k', Re.run r' s caps k' = Some x → run_spec r' s caps k' x).

Lemma rounds_stop done s caps :
  (if (lo <=? done)%nat then k s caps else None) = Some x →
  rounds_spec r' lo done s caps k x.
Proof.
  destruct (Nat.leb_spec lo done) as [Hle|]; [|done]. intros Hk.
  exists EmptyString, s, []. split_and!; try done.
  - replace (lo - done)%nat with 0%nat by lia. simpl. lia.
  - lia.
Qed.

Lemma rounds_sound fuel done s caps :
  Re.rounds (Re.run r') greedy lo k fuel done s caps = Some x →
  rounds_spec r' lo done s caps k x.
Proof.
  revert done s caps. induction fuel as [|fuel IHf]; intros done s caps; simpl.
  - destruct greedy; unfold Re.orelse; [apply rounds_stop|].
    intros H. apply rounds_stop. by destruct (if (lo <=? done)%nat then _ else _).
  - match goal with |- context [Re.run r' s caps ?k'] => set (K := k') end.
    assert (Re.run r' s caps K = Some x → rounds_spec r' lo done s caps k x) as Hmore.
    { intros (w1 & s1 & new1 & -> & [Hc1 Hl1] & HF1 & Hm1 & HK)%body_sound.
      unfold K in HK. destruct (_ <? _)%nat; [|done].
      apply IHf in HK as (w2 & s2 & new2 & -> & Hc2 & Hl2 & HF2 & _ & Hk).
      exists (w1 +:+ w2), s2, (new2 ++ new1).
      split; [by rewrite append_assoc|].
      split; [rewrite all_chars_append; by rewrite Hc1, Hc2|].
      split; [rewrite append_length; nia|].
      split; [by apply Forall_app|].
      split; [|by rewrite <- app_assoc].
      intros _ n Hn. rewrite fmap_app. apply elem_of_app. right. by apply Hm1. }
    destruct greedy; unfold Re.orelse.
    + destruct (Re.run r' s caps K) eqn:E;
        [intros [= ->]; by apply Hmore|apply rounds_stop].
    + destruct (if (lo <=? done)%nat then k s caps else None) eqn:E;
        [intros [= ->]; by apply rounds_stop|exact Hmore].
Qed.
End Rounds.

(** The matcher is sound for what the statements need of a match. *)
Lemma run_sound {A} r s caps (k : string → Re.captures → option A) x :
  Re.run r s caps k = Some x → run_spec r s caps k x.
Proof.
  revert s caps k.
  induction r as [p|c|r1 IH1 r2 IH2|r1 IH1 r2 IH2|g lo r' IH|n r' IH|];
    intros s caps k; simpl.
  - destruct (Re.strip_prefix p s) as [s'|] eqn:E; [|done]. intros Hk.
    exists p, s', []. split; [by apply strip_prefix_Some|].
    split; [split; [apply all_chars_in_string|done]|]. by split_and!.
  - destruct s as [|a s']; [done|].
    destruct (Re.cls_match c a) eqn:E; [|done]. intros Hk.
    exists (String a EmptyString), s', []. split; [done|].
    split; [split; [simpl; by rewrite E|simpl; lia]|]. by split_and!.
  - intros (w1 & s1 & new1 & -> & [Hc1 Hl1] & HF1 & Hm1 & Hrun)%IH1.
    apply IH2 in Hrun as (w2 & s2 & new2 & -> & [Hc2 Hl2] & HF2 & Hm2 & Hk).
    exists (w1 +:+ w2), s2, (new2 ++ new1). split; [by rewrite append_assoc|].
    split.
    { split; [|rewrite append_length; simpl; lia].
      rewrite all_chars_append. apply andb_true_intro. split.
      - eapply all_chars_impl; [|exact Hc1]. intros a Ha. simpl. by rewrite Ha.
      - eapply all_chars_impl; [|exact Hc2]. intros a Ha. simpl.
        by rewrite Ha, orb_true_r. }
    split.
    { apply Forall_app. split.
      - eapply captures_mono; [|exact HF2]. intros c Hc. simpl.
        apply elem_of_app. by right.
      - eapply captures_mono; [|exact HF1]. intros c Hc. simpl.
        apply elem_of_app. by left. }
    split; [|by rewrite <- app_assoc].
    intros n [Hn|Hn]%elem_of_app; rewrite fmap_app; apply elem_of_app;
      [right; by apply Hm1|left; by apply Hm2].
  - unfold Re.orelse. destruct (Re.run r1 s caps k) as [y|] eqn:E1.
    + intros [= <-]. apply IH1 in E1 as (w & s' & new & -> & Ht & HF & _ & Hk).
      exists w, s', new. split; [done|]. split.
      { eapply text_of_weaken; [| |exact Ht];
          [intros a Ha; simpl; by rewrite Ha|simpl; lia]. }
      split; [|by split; [intros n Hn; by apply elem_of_nil in Hn|]].
      eapply captures_mono; [|exact HF]. intros c Hc. simpl. apply elem_of_app. by left.
    + intros (w & s' & new & -> & Ht & HF & _ & Hk)%IH2.
      exists w, s', new. split; [done|]. split.
      { eapply text_of_weaken; [| |exact Ht];
          [intros a Ha; simpl; by rewrite Ha, orb_true_r|simpl; lia]. }
      split; [|by split; [intros n Hn; by apply elem_of_nil in Hn|]].
      eapply captures_mono; [|exact HF]. intros c Hc. simpl. apply elem_of_app. by right.
  - intros (w & s' & new & -> & Hc & Hl & HF & Hm & Hk)%(rounds_sound r' g lo k x IH).
    exists w, s', new. split; [done|].
    split; [split; [done|by rewrite Nat.sub_0_r in Hl]|].
    split; [done|]. split; [|done].
    destruct lo; [intros n Hn; by apply elem_of_nil in Hn|]. apply Hm. lia.
  - intros (w & s' & new & -> & Ht & HF & Hm & Hk)%IH.
    rewrite consumed_append in Hk.
    exists w, s', ((n, w) :: new). split; [done|]. split; [done|].
    split; [|split; [|done]].
    + constructor.
      * exists r'. split; [simpl; by left|done].
      * eapply captures_mono; [|exact HF]. intros c Hc. simpl. by right.
    + simpl. intros m [->|Hm']%elem_of_cons; [by left|right; by apply Hm].
  - intros Hk. exists EmptyString, s, []. split; [done|].
    split; [done|]. split; [done|]. split; [done|].
    destruct s as [|a [|b s]]; try done. by case_decide.
Qed.

(** *** The bound on the rounds *)

Section RoundsFuel.
Context {A : Type}.
Context (body : string → Re.captures → (string → Re.captures → option A) → option A).
Context (greedy : bool) (lo : nat).
Context (body_ext : ∀ s caps k1 k2,
           (∀ s' caps', k1 s' caps' = k2 s' caps') → body s caps k1 = body s caps k2).
Context (body_none : ∀ s caps, body s caps (λ _ _, None) = None).

Lemma rounds_ext k1 k2 fuel done s caps :
  (∀ s' caps', k1 s' caps' = k2 s' caps') →
  Re.rounds body greedy lo k1 fuel done s caps
  = Re.rounds body greedy lo k2 fuel done s caps.
Proof.
  intros Hk. revert done s caps.
  induction fuel as [|fuel IH]; intros done s caps; simpl.
  - by rewrite Hk.
  - rewrite Hk. f_equal.
    erewrite body_ext; [done|]. intros s' caps'. simpl. by rewrite IH.
Qed.

(** With the length of the subject for fuel, one more unit changes
    nothing: a round has to consume a character. *)
Lemma rounds_fuel k fuel done s caps :
  (String.length s ≤ fuel)%nat →
  Re.rounds body greedy lo k (S fuel) done s caps
  = Re.rounds body greedy lo k fuel done s caps.
Proof.
  revert done s caps. induction fuel as [|fuel IH]; intros done s caps Hlen.
  - simpl. erewrite body_ext; [by rewrite body_none|].
    intros s' caps'. simpl.
    destruct (Nat.ltb_spec (String.length s') (String.length s)); [lia|done].
  - change (Re.rounds body greedy lo k (S (S fuel)) done s caps)
      with (let stop := if (lo <=? done)%nat then k s caps else None in
            let more :=
              body s caps (λ s' caps',
                if (String.length s' <? String.length s)%nat
                then Re.rounds body greedy lo k (S fuel) (S done) s' caps'
                else None) in
            if greedy then Re.orelse more stop else Re.orelse stop more).
    change (Re.rounds body greedy lo k (S fuel) done s caps)
      with (let stop := if (lo <=? done)%nat then k s caps else None in
            let more :=
              body s caps (λ s' caps',
                if (String.length s' <? String.length s)%nat
                then Re.rounds body greedy lo k fuel (S done) s' caps'
                else None) in
            if greedy then Re.orelse more stop else Re.orelse stop more).
    cbv zeta. erewrite body_ext; [done|].
    intros s' caps'. simpl.
    destruct (Nat.ltb_spec (String.length s') (String.length s)); [|done].
    apply IH. lia.
Qed.

Lemma rounds_fuel_enough k fuel done s caps :
  (String.length s ≤ fuel)%nat →
  Re.rounds body greedy lo k fuel done s caps
  = Re.rounds body greedy lo k (String.length s) done s caps.
Proof.
  intros Hlen.
  replace fuel with ((fuel - String.length s) + String.length s)%nat by lia.
  induction (fuel - String.length s)%nat as [|d IH]; [done|].
  simpl plus. rewrite rounds_fuel by lia. done.
Qed.
End RoundsFuel.

Lemma run_ext {A} r s caps (k1 k2 : string → Re.captures → option A) :
  (∀ s' caps', k1 s' caps' = k2 s' caps') → Re.run r s caps k1 = Re.run r s caps k2.
Proof.
  revert s caps k1 k2.
  induction r as [p|c|r1 IH1 r2 IH2|r1 IH1 r2 IH2|g lo r' IH|n r' IH|];
    intros s caps k1 k2 Hk; simpl.
  - by destruct (Re.strip_prefix p s).
  - destruct s as [|a s']; [done|]. by destruct (Re.cls_match c a).
  - apply IH1. intros s1 caps1. by apply IH2.
  - by rewrite (IH1 _ _ k1 k2), (IH2 _ _ k1 k2).
  - by apply rounds_ext.
  - apply IH. intros s' caps'. apply Hk.
  - destruct s as [|a [|b s]]; try done. by case_decide.
Qed.

Lemma run_none {A} r s caps :
  Re.run r s caps (λ _ _, @None A) = None.
Proof.
  destruct (Re.run r s caps (λ _ _, @None A)) as [x|] eqn:E; [|done].
  apply run_sound in E as (? & ? & ? & _ & _ & _ & _ & [=]).
Qed.

(** The matcher is total, and the fuel of a repetition is never what ends
    it: any fuel from the length of the subject on gives the result of
    [run]. *)
Lemma run_rep_fuel {A} g lo r' s caps (k : string → Re.captures → option A) fuel :
  (String.length s ≤ fuel)%nat →
  Re.run (Re.Rep g lo r') s caps k = Re.rounds (Re.run r') g lo k fuel 0 s caps.
Proof.
  intros Hlen. simpl. symmetry.
  apply rounds_fuel_enough; [apply run_ext|apply run_none|done].
Qed.

Lemma match_sound r s m :
  Re.match_ r s = Some m → Forall (capture_of r) m ∧ filled r ⊆ m.*1.
Proof.
  unfold Re.match_. intros (w & s' & new & _ & _ & HF & Hm & [= <-])%run_sound.
  by rewrite app_nil_r.
Qed.

Lemma search_sound r s m :
  Re.search r s = Some m → Forall (capture_of r) m ∧ filled r ⊆ m.*1.
Proof.
  induction s as [|a s IH]; simpl.
  - destruct (Re.match_ r EmptyString) eqn:E; [|done].
    intros [= <-]. by eapply match_sound.
  - destruct (Re.match_ r (String a s)) eqn:E; [|done].
    intros [= <-]. by eapply match_sound.
Qed.

(** The text of a group that the match has filled. *)
Lemma group_text r n m :
  Forall (capture_of r) m → n ∈ m.*1 →
  ∃ r', (n, r') ∈ groups_of r ∧ text_of r' (Re.group n m).
Proof.
  intros HF Hn. apply dict_keys_is_Some in Hn as [t Ht].
  unfold Re.group. rewrite Ht. simpl.
  apply dict_get_Some_elem in Ht.
  by apply (proj1 (Forall_forall _ _) HF) in Ht.
Qed.

(** ** The parser *)

(** *** What the parser can raise *)

#[global] Hint Extern 3 (int_failure (match ?x with _ => _ end)) =>
  destruct x : int_failure.

Lemma int_failure_prec_line prec line : int_failure (prec_line prec line).
Proof.
  unfold prec_line.
  destruct (Py.split line) as [|p0 [|p1 [|p2 rest]]]; auto 7 with int_failure.
Qed.

Lemma int_failure_prec_lines prec lines : int_failure (prec_lines prec lines).
Proof.
  revert prec. induction lines as [|l lines IH]; intros prec; simpl;
    auto using int_failure_prec_line with int_failure.
Qed.

Lemma int_failure_job_demands i toks jd : int_failure (job_demands_of i toks jd).
Proof.
  revert i jd. induction toks as [|t toks IH]; intros i jd; simpl;
    auto with int_failure.
Qed.

Lemma int_failure_req_line n st line : int_failure (req_line n st line).
Proof.
  unfold req_line. destruct st as [durations demands].
  destruct (Py.split line) as [|p0 [|p1 [|p2 rest]]];
    auto 7 using int_failure_job_demands with int_failure.
Qed.

Lemma int_failure_req_lines n st lines : int_failure (req_lines n st lines).
Proof.
  revert st. induction lines as [|l lines IH]; intros st; simpl;
    auto using int_failure_req_line with int_failure.
Qed.

Lemma int_failure_caps i toks caps : int_failure (caps_of i toks caps).
Proof.
  revert i caps. induction toks as [|t toks IH]; intros i caps; simpl;
    auto with int_failure.
Qed.

Lemma int_failure_header re dflt content : int_failure (header_int re dflt content).
Proof. unfold header_int. auto with int_failure. Qed.

(** Whatever the text, the parser returns an instance or raises the
    [ValueError] of a token that is no integer literal. *)
Lemma int_failure_parse stem content : int_failure (parse_content stem content).
Proof.
  unfold parse_content.
  apply int_failure_bind; [apply int_failure_header|intros jobs].
  apply int_failure_bind; [apply int_failure_header|intros n].
  apply int_failure_bind; [apply int_failure_header|intros horizon].
  apply int_failure_bind; [|intros prec].
  { unfold parsed_precedence.
    destruct (Re.search prec_re content); [apply int_failure_prec_lines|done]. }
  apply int_failure_bind; [|intros [durations demands]].
  { unfold parsed_requests.
    destruct (Re.search req_re content); [apply int_failure_req_lines|done]. }
  apply int_failure_bind; [|done].
  unfold parsed_capacities.
  destruct (Re.search cap_re content); [apply int_failure_caps|done].
Qed.

(** *** The headers and the capacities never raise *)

Lemma all_chars_digits s : all_chars Py.is_digit s = Py.all_digits s.
Proof. induction s as [|a s IH]; simpl; [done|]. by rewrite IH. Qed.

Lemma all_digits_isdigit t :
  all_chars Py.is_digit t = true → (1 ≤ String.length t)%nat → Py.isdigit t = true.
Proof. rewrite all_chars_digits. destruct t as [|a t]; simpl; [lia|done]. Qed.

(** The group of a pattern whose one group is [(\d+)] is a digit string. *)
Lemma digits_group_isdigit r m :
  groups_of r = [(1%nat, Re.plus Re.Digit)] → filled r = [1%nat] →
  Forall (capture_of r) m → filled r ⊆ m.*1 →
  Py.isdigit (Re.group 1 m) = true.
Proof.
  intros Hg Hf HF Hm.
  destruct (group_text r 1 m HF) as (r' & Hin & [Hc Hl]).
  { apply Hm. rewrite Hf. by left. }
  rewrite Hg in Hin. apply list_elem_of_singleton in Hin as [= ->].
  apply all_digits_isdigit; [done|]. simpl in Hl. lia.
Qed.

Lemma header_int_returns re dflt content :
  groups_of re = [(1%nat, Re.plus Re.Digit)] → filled re = [1%nat] →
  ∃ z, header_int re dflt content = inr z.
Proof.
  intros Hg Hf. unfold header_int.
  destruct (Re.search re content) as [m|] eqn:E; [|by eexists].
  apply search_sound in E as [HF Hm].
  destruct (isdigit_int _ (digits_group_isdigit _ _ Hg Hf HF Hm)) as (z & Hz & _).
  exists z. unfold Py.int. by rewrite Hz.
Qed.

Lemma digit_not_space a : Py.is_digit a = true → Py.isspace a = false.
Proof.
  unfold Py.is_digit, Py.isspace. intros [H1 H2]%andb_prop.
  apply N.leb_le in H1, H2.
  apply orb_false_intro; apply andb_false_iff.
  - right. apply N.leb_gt. lia.
  - right. apply N.leb_gt. lia.
Qed.

Lemma rev_app_all_chars P s t :
  all_chars P (String.rev_app s t) = all_chars P s && all_chars P t.
Proof.
  revert t. induction s as [|a s IH]; intros t; simpl; [done|].
  rewrite IH. simpl. by destruct (P a), (all_chars P s).
Qed.

Lemma rev_all_chars P s : all_chars P (String.rev s) = all_chars P s.
Proof. unfold String.rev. rewrite rev_app_all_chars. simpl. by rewrite andb_true_r. Qed.

Lemma rev_app_length s t :
  String.length (String.rev_app s t) = (String.length s + String.length t)%nat.
Proof.
  revert t. induction s as [|a s IH]; intros t; simpl; [done|]. rewrite IH. simpl. lia.
Qed.

Lemma lstrip_all_chars P s : all_chars P s = true → all_chars P (Py.lstrip s) = true.
Proof.
  induction s as [|a s IH]; simpl; [done|]. intros [Ha Hs]%andb_prop.
  destruct (Py.isspace a); [by apply IH|]. simpl. by rewrite Ha, Hs.
Qed.

Lemma strip_all_chars P s : all_chars P s = true → all_chars P (Py.strip s) = true.
Proof.
  intros H. unfold Py.strip. rewrite rev_all_chars. apply lstrip_all_chars.
  rewrite rev_all_chars. by apply lstrip_all_chars.
Qed.

Lemma token_isdigit c :
  all_chars Py.is_digit c = true → (1 ≤ String.length c)%nat →
  Py.isdigit (String.rev c) = true.
Proof.
  intros Hc Hl. apply all_digits_isdigit; [by rewrite rev_all_chars|].
  unfold String.rev. rewrite rev_app_length. simpl. lia.
Qed.

(** The tokens of a text of digits and blanks are digit strings. *)
Lemma split_go_digits cur s :
  all_chars digit_or_space s = true →
  (∀ c, cur = Some c → all_chars Py.is_digit c = true ∧ (1 ≤ String.length c)%nat) →
  Forall (λ t, Py.isdigit t = true) (Py.split_go cur s).
Proof.
  revert cur. induction s as [|a s IH]; intros cur; simpl.
  - intros _ Hcur. destruct cur as [c|]; simpl; [|constructor].
    destruct (Hcur c eq_refl) as [Hc Hl]. constructor; [|constructor].
    by apply token_isdigit.
  - intros [Ha Hs]%andb_prop Hcur. destruct (Py.isspace a) eqn:Esp.
    + apply Forall_app. split; [|apply IH; [done|by intros c [=]]].
      destruct cur as [c|]; simpl; [|constructor].
      destruct (Hcur c eq_refl) as [Hc Hl]. constructor; [|constructor].
      by apply token_isdigit.
    + apply IH; [done|]. intros c [= <-].
      assert (Py.is_digit a = true) as Hd.
      { unfold digit_or_space in Ha. rewrite Esp, orb_false_r in Ha. done. }
      destruct cur as [c|]; simpl.
      * destruct (Hcur c eq_refl) as [Hc Hl]. rewrite Hd, Hc. split; [done|lia].
      * rewrite Hd. split; [done|lia].
Qed.

Lemma split_digits s :
  all_chars digit_or_space s = true → Forall (λ t, Py.isdigit t = true) (Py.split s).
Proof. intros H. apply split_go_digits; [done|by intros c [=]]. Qed.

Lemma caps_of_returns i toks caps :
  Forall (λ t, Py.isdigit t = true) toks → ∃ caps', caps_of i toks caps = inr caps'.
Proof.
  intros HF. revert i caps. induction HF as [|t toks Ht _ IH]; intros i caps; simpl.
  - by eexists.
  - destruct (isdigit_int _ Ht) as (z & Hz & _). unfold Py.int. rewrite Hz. simpl.
    apply IH.
Qed.

Lemma parsed_capacities_returns n content :
  ∃ caps, parsed_capacities n content = inr caps.
Proof.
  unfold parsed_capacities.
  destruct (Re.search cap_re content) as [m|] eqn:E; [|by eexists].
  apply search_sound in E as [HF Hm].
  destruct (group_text cap_re 1 m HF) as (r' & Hin & [Hc Hl]).
  { apply Hm. by left. }
  apply list_elem_of_singleton in Hin as [= ->].
  apply caps_of_returns, Forall_take, split_digits, strip_all_chars.
  eapply all_chars_impl; [|exact Hc].
  intros a Ha. unfold digit_or_space. simpl in Ha.
  by destruct (Py.is_digit a), (Py.isspace a).
Qed.

(** *** Lines that are skipped, lines that raise *)

Lemma prec_line_short prec line :
  (length (Py.split line) < 3)%nat → prec_line prec line = inr prec.
Proof.
  unfold prec_line.
  destruct (Py.split line) as [|p0 [|p1 [|p2 rest]]]; simpl; try done. lia.
Qed.

Lemma req_line_skipped n st line :
  (length (Py.split line) < 3)%nat
  ∨ Py.isdigit (default EmptyString (head (Py.split line))) = false →
  req_line n st line = inr st.
Proof.
  unfold req_line. destruct st as [durations demands].
  destruct (Py.split line) as [|p0 [|p1 [|p2 rest]]]; simpl; try done.
  intros [?| ->]; [lia|done].
Qed.

Lemma returns_bind {A B} (m : result A) (f : A → result B) :
  returns (m ≫= f) ↔ ∃ x, m = inr x ∧ returns (f x).
Proof.
  unfold returns. destruct m as [e|x]; simpl.
  - split; [by intros [? ?]|by intros (? & ? & ?)].
  - split; [intros [y Hy]; by exists x; eauto|by intros (? & [= <-] & ?)].
Qed.

Lemma returns_ret {A} (x : A) : returns (mret x : result A).
Proof. by exists x. Qed.

Lemma int_inr s z : Py.int s = inr z ↔ Py.int_opt s = Some z.
Proof.
  unfold Py.int. destruct (Py.int_opt s); simpl; split; try done.
  - by intros [= ->].
  - by intros [= ->].
Qed.

Lemma traverse_int_returns l :
  returns (Py.traverse Py.int l) ↔ ¬ Exists (λ t, Py.int_opt t = None) l.
Proof.
  induction l as [|t l IH]; simpl.
  - split; [intros _ H; by apply Exists_nil in H|intros _; apply returns_ret].
  - rewrite returns_bind, Exists_cons. split.
    + intros (z & Hz%int_inr & (zs & Hzs & _)%returns_bind) [Ht|Hl].
      * congruence.
      * apply IH; [by exists zs|done].
    + intros Hn. destruct (Py.int_opt t) as [z|] eqn:Ez; [|destruct Hn; by left].
      exists z. split; [by apply int_inr|]. apply returns_bind.
      destruct (proj2 IH) as [zs Hzs]; [intros ?; apply Hn; by right|].
      exists zs. split; [done|apply returns_ret].
Qed.

(** A precedence line raises exactly when it is a bad one. *)
Lemma prec_line_returns prec line :
  returns (prec_line prec line) ↔ ¬ bad_prec_line line.
Proof.
  unfold prec_line, bad_prec_line.
  destruct (Py.split line) as [|p0 [|p1 [|p2 rest]]];
    try (split; [intros _ (? & ? & ? & ? & [=] & _)|intros _; apply returns_ret]).
  rewrite returns_bind. split.
  - intros (j & Hj%int_inr
            & (k & Hk%int_inr & (succs & Hs & _)%returns_bind)%returns_bind).
    intros (q0 & q1 & q2 & qrest & [= <- <- <- <-] & [H|[H|(k' & Hk' & Hpos & Hex)]]);
      [congruence..|].
    assert (k' = k) as -> by congruence.
    rewrite decide_True in Hs by done.
    apply (proj1 (traverse_int_returns _)) in Hex; [done|by eexists].
  - intros Hn.
    destruct (Py.int_opt p0) as [j|] eqn:E0; [|destruct Hn; by eauto 10].
    exists j. split; [by apply int_inr|]. apply returns_bind.
    destruct (Py.int_opt p2) as [k|] eqn:E2; [|destruct Hn; by eauto 10].
    exists k. split; [by apply int_inr|]. apply returns_bind.
    destruct (decide (0 < k)) as [Hpos|Hneg].
    + destruct (proj2 (traverse_int_returns (take (Z.to_nat k) rest))) as [zs Hzs].
      { intros Hex. apply Hn. exists p0, p1, p2, rest. split; [done|].
        right. right. by exists k. }
      exists zs. split; [done|apply returns_ret].
    + exists []. split; [done|apply returns_ret].
Qed.

Lemma prec_lines_returns prec lines :
  returns (prec_lines prec lines) ↔ Forall (λ l, ¬ bad_prec_line l) lines.
Proof.
  revert prec. induction lines as [|l lines IH]; intros prec; simpl.
  - split; [constructor|intros _; apply returns_ret].
  - rewrite returns_bind, Forall_cons. split.
    + intros (prec' & H1 & Hrest). split.
      * apply (prec_line_returns prec). by exists prec'.
      * by apply (IH prec').
    + intros [Hl Hrest]. destruct (proj2 (prec_line_returns prec l) Hl) as [prec' H1].
      exists prec'. split; [done|]. by apply IH.
Qed.

Lemma job_demands_returns i toks jd :
  returns (job_demands_of i toks jd) ↔ ¬ Exists (λ t, Py.int_opt t = None) toks.
Proof.
  revert i jd. induction toks as [|t toks IH]; intros i jd; simpl.
  - split; [intros _ H; by apply Exists_nil in H|intros _; apply returns_ret].
  - rewrite returns_bind, Exists_cons. split.
    + intros (d & Hd%int_inr & Hrest) [Ht|Hl]; [congruence|].
      by apply IH in Hrest.
    + intros Hn. destruct (Py.int_opt t) as [d|] eqn:Ed; [|destruct Hn; by left].
      exists d. split; [by apply int_inr|]. apply IH. intros ?. apply Hn. by right.
Qed.

(** A requests line raises exactly when it is a bad one. *)
Lemma req_line_returns n st line :
  returns (req_line n st line) ↔ ¬ bad_req_line n line.
Proof.
  unfold req_line, bad_req_line. destruct st as [durations demands].
  destruct (Py.split line) as [|p0 [|p1 [|p2 rest]]];
    try (split; [intros _ (? & ? & ? & ? & [=] & _)|intros _; apply returns_ret]).
  destruct (Py.isdigit p0) eqn:Hd.
  2:{ split; [|intros _; apply returns_ret].
      intros _ (q0 & q1 & q2 & qrest & [= <- <- <- <-] & Hd' & _). congruence. }
  destruct (isdigit_int _ Hd) as (j & Hj & _).
  rewrite returns_bind. split.
  - intros (j' & _ & (d & Hd2%int_inr & (jd & Hjd & _)%returns_bind)%returns_bind).
    intros (q0 & q1 & q2 & qrest & [= <- <- <- <-] & _ & [H|Hex]); [congruence|].
    apply (proj1 (job_demands_returns 0 _ [])) in Hex; [done|by exists jd].
  - intros Hn. exists j. split; [by apply int_inr|]. apply returns_bind.
    destruct (Py.int_opt p2) as [d|] eqn:E2; [|destruct Hn; by eauto 10].
    exists d. split; [by apply int_inr|]. apply returns_bind.
    destruct (proj2 (job_demands_returns 0 (take (Z.to_nat n) rest) [])) as [jd Hjd].
    { intros Hex. apply Hn. exists p0, p1, p2, rest. by eauto. }
    exists jd. split; [done|apply returns_ret].
Qed.

Lemma req_lines_returns n st lines :
  returns (req_lines n st lines) ↔ Forall (λ l, ¬ bad_req_line n l) lines.
Proof.
  revert st. induction lines as [|l lines IH]; intros st; simpl.
  - split; [constructor|intros _; apply returns_ret].
  - rewrite returns_bind, Forall_cons. split.
    + intros (st' & H1 & Hrest). split.
      * apply (req_line_returns n st). by exists st'.
      * by apply (IH st').
    + intros [Hl Hrest]. destruct (proj2 (req_line_returns n st l) Hl) as [st' H1].
      exists st'. split; [done|]. by apply IH.
Qed.

(** The parser returns exactly when no line of its two sections of lines
    is a bad one. *)
Lemma parse_content_returns stem content :
  returns (parse_content stem content)
  ↔ Forall (λ l, ¬ bad_prec_line l) (section_of prec_re content)
    ∧ Forall (λ l, ¬ bad_req_line (declared_resources content) l)
        (section_of req_re content).
Proof.
  unfold parse_content, declared_resources, section_of.
  destruct (header_int_returns jobs_re 0 content eq_refl eq_refl) as [jobs ->].
  destruct (header_int_returns resources_re 4 content eq_refl eq_refl) as [n ->].
  destruct (header_int_returns horizon_re 100 content eq_refl eq_refl) as [horizon ->].
  simpl. destruct (parsed_capacities_returns n content) as [caps Hcaps].
  rewrite returns_bind. unfold parsed_precedence, parsed_requests. split.
  - intros (prec & Hp & ([dur dem] & Hr & _)%returns_bind). split.
    + destruct (Re.search prec_re content); [|constructor].
      apply (prec_lines_returns []). by exists prec.
    + destruct (Re.search req_re content); [|constructor].
      apply (req_lines_returns n ([], [])). by eexists.
  - intros [Hp Hr].
    assert (returns (match Re.search prec_re content with
                     | Some m => prec_lines [] (section_lines (Re.group 1 m))
                     | None => mret []
                     end)) as [prec Hprec].
    { destruct (Re.search prec_re content);
        [by apply prec_lines_returns|apply returns_ret]. }
    exists prec. split; [done|]. apply returns_bind.
    assert (returns (match Re.search req_re content with
                     | Some m => req_lines n ([], []) (section_lines (Re.group 1 m))
                     | None => mret ([], [])
                     end)) as [[dur dem] Hreq].
    { destruct (Re.search req_re content);
        [by apply req_lines_returns|apply returns_ret]. }
    exists (dur, dem). split; [done|]. simpl. rewrite Hcaps. apply returns_ret.
Qed.

(** *** The parsed instance, field by field *)

Lemma parse_content_inv stem content inst :
  parse_content stem content = inr inst →
  header_int jobs_re 0 content = inr (jobs inst)
  ∧ header_int resources_re 4 content = inr (resources inst)
  ∧ header_int horizon_re 100 content = inr (horizon inst)
  ∧ parsed_precedence content = inr (precedence inst)
  ∧ parsed_requests (resources inst) content = inr (durations inst, demands inst)
  ∧ parsed_capacities (resources inst) content = inr (capacities inst)
  ∧ name inst = stem.
Proof.
  unfold parse_content.
  intros (jobs & Hj & (n & Hn & (horizon & Hh & (prec & Hp &
    ([dur dem] & Hr & (caps & Hc & [= <-])%bind_inr)%bind_inr)%bind_inr)%bind_inr)%bind_inr)%bind_inr.
  done.
Qed.

Lemma parse_absent_defaults stem content inst :
  parse_content stem content = inr inst →
  (Re.search jobs_re content = None → jobs inst = 0)
  ∧ (Re.search resources_re content = None → resources inst = 4)
  ∧ (Re.search horizon_re content = None → horizon inst = 100)
  ∧ (Re.search prec_re content = None → precedence inst = [])
  ∧ (Re.search req_re content = None → durations inst = [] ∧ demands inst = [])
  ∧ (Re.search cap_re content = None → capacities inst = default_caps (resources inst)).
Proof.
  intros (Hj & Hn & Hh & Hp & Hr & Hc & _)%parse_content_inv.
  unfold header_int, parsed_precedence, parsed_requests, parsed_capacities in *.
  split_and!; intros H.
  - rewrite H in Hj. by injection Hj.
  - rewrite H in Hn. by injection Hn.
  - rewrite H in Hh. by injection Hh.
  - rewrite H in Hp. by injection Hp.
  - rewrite H in Hr. injection Hr as <- <-. done.
  - rewrite H in Hc. by injection Hc.
Qed.

Lemma sample_parses : parse_content "j301_1" sample_sm = inr sample_inst.
Proof. vm_compute. reflexivity. Qed.



(** *** Labels of demands and of capacities *)

Lemma job_demands_keys i toks jd jd' r :
  job_demands_of i toks jd = inr jd' →
  r ∈ dict_keys jd' →
  r ∈ dict_keys jd ∨ ∃ i', i ≤ i' < i + Z.of_nat (length toks) ∧ r = label i'.
Proof.
  revert i jd. induction toks as [|t toks IH]; intros i jd; simpl.
  - intros [= <-]. auto.
  - intros (d & _ & Hrest)%bind_inr Hr.
    destruct (IH _ _ Hrest Hr) as [Hin|(i' & Hi' & ->)].
    + case_decide; [|by left].
      apply dict_keys_set in Hin as [->|Hin]; [|by left].
      right. exists i. split; [lia|done].
    + right. exists i'. split; [lia|done].
Qed.

Lemma req_line_labels n st st' line :
  (∀ j jd, dict_get st.2 j = Some jd → labelled_below (Z.to_nat n) jd) →
  req_line n st line = inr st' →
  ∀ j jd, dict_get st'.2 j = Some jd → labelled_below (Z.to_nat n) jd.
Proof.
  unfold req_line. destruct st as [durations demands]. simpl. intros Hst.
  destruct (Py.split line) as [|p0 [|p1 [|p2 rest]]]; try (by intros [= <-]).
  destruct (Py.isdigit p0); [|by intros [= <-]].
  intros (job_id & _ & (duration & _ & (jd' & Hjd & [= <-])%bind_inr)%bind_inr)%bind_inr.
  simpl. intros j jd. rewrite dict_get_set. case_decide; [|by apply Hst].
  intros [= <-] r Hr.
  destruct (job_demands_keys _ _ _ _ _ Hjd Hr) as [Hin|(i & Hi & ->)].
  - by apply elem_of_nil in Hin.
  - exists i. split; [|done]. rewrite length_take in Hi. lia.
Qed.

Lemma req_lines_labels n st st' lines :
  (∀ j jd, dict_get st.2 j = Some jd → labelled_below (Z.to_nat n) jd) →
  req_lines n st lines = inr st' →
  ∀ j jd, dict_get st'.2 j = Some jd → labelled_below (Z.to_nat n) jd.
Proof.
  revert st. induction lines as [|l lines IH]; intros st Hst; simpl.
  - by intros [= <-].
  - intros (st1 & H1 & Hrest)%bind_inr. eapply IH; [|done].
    by eapply req_line_labels.
Qed.

(** The labels of the parsed demands are among those of the first
    [num_resources] positions. *)
Lemma parsed_requests_labels n content dur dem :
  parsed_requests n content = inr (dur, dem) →
  ∀ j jd, dict_get dem j = Some jd → labelled_below (Z.to_nat n) jd.
Proof.
  unfold parsed_requests. destruct (Re.search req_re content).
  - intros H j jd. eapply (req_lines_labels _ _ (dur, dem)); [|exact H].
    by intros j' jd' [=].
  - by intros [= <- <-].
Qed.

Lemma caps_of_keeps toks i caps caps' r :
  caps_of i toks caps = inr caps' → r ∈ dict_keys caps → r ∈ dict_keys caps'.
Proof.
  revert i caps. induction toks as [|t toks IH]; intros i caps; simpl.
  - by intros [= <-].
  - intros (c & _ & Hrest)%bind_inr Hr. eapply IH; [done|].
    apply dict_keys_set. by right.
Qed.

(** The capacities read from a line have the labels of its positions. *)
Lemma caps_of_keys i toks caps caps' :
  caps_of i toks caps = inr caps' →
  ∀ i', i ≤ i' < i + Z.of_nat (length toks) → label i' ∈ dict_keys caps'.
Proof.
  revert i caps. induction toks as [|t toks IH]; intros i caps; simpl.
  - intros _ i' ?. lia.
  - intros (c & _ & Hrest)%bind_inr i' Hi'.
    destruct (decide (i' = i)) as [->|].
    + eapply caps_of_keeps; [done|]. apply dict_keys_set. by left.
    + eapply IH; [done|]. lia.
Qed.

Lemma default_caps_keys n i :
  0 ≤ i < Z.of_nat (Z.to_nat n) → label i ∈ dict_keys (default_caps n).
Proof.
  unfold default_caps. induction (Z.to_nat n) as [|m IH]; [lia|].
  intros Hi. rewrite seq_S, foldl_app. simpl.
  apply dict_keys_set. destruct (decide (i = Z.of_nat m)) as [->|]; [by left|].
  right. apply IH. lia.
Qed.

(** C6, as the code behaves. In a parsed instance every resource label of
    a demand is a key of [capacities], provided the availabilities block is
    absent (the defaults then cover [R1..Rk]) or its line gives at least as
    many integers as resources are declared.  When the line gives fewer,
    the labels beyond it have no capacity, and the translator takes 10. *)
Theorem demand_labels_have_capacity stem content inst j jd r :
  parse_content stem content = inr inst →
  (∀ m, Re.search cap_re content = Some m →
        (Z.to_nat (resources inst) ≤ length (Py.split (Py.strip (Re.group 1 m))))%nat) →
  dict_get (demands inst) j = Some jd →
  r ∈ dict_keys jd →
  r ∈ dict_keys (capacities inst).
Proof.
  intros (_ & _ & _ & _ & Hreq & Hcap & _)%parse_content_inv Hlen Hj Hr.
  destruct (parsed_requests_labels _ _ _ _ Hreq j jd Hj r Hr) as (i & Hi & ->).
  unfold parsed_capacities in Hcap.
  destruct (Re.search cap_re content) as [m|].
  - eapply caps_of_keys; [exact Hcap|]. rewrite length_take.
    specialize (Hlen m eq_refl). lia.
  - injection Hcap as <-. by apply default_caps_keys.
Qed.

Lemma demand_labels_have_capacity_witness :
  parse_content "j301_1" sample_sm = inr sample_inst
  ∧ (∀ m, Re.search cap_re sample_sm = Some m →
          (Z.to_nat (resources sample_inst)
           ≤ length (Py.split (Py.strip (Re.group 1 m))))%nat)
  ∧ dict_get (demands sample_inst) 3 = Some [("R1", 1); ("R2", 3)]
  ∧ "R2" ∈ dict_keys [("R1", 1); ("R2", 3)]
  ∧ "R2" ∈ dict_keys (capacities sample_inst).
Proof.
  assert (parse_content "j301_1" sample_sm = inr sample_inst) as Hp
    by (vm_compute; reflexivity).
  assert (∀ m, Re.search cap_re sample_sm = Some m →
            (Z.to_nat (resources sample_inst)
             ≤ length (Py.split (Py.strip (Re.group 1 m))))%nat) as Hlen.
  { intros m Hm. vm_compute in Hm. injection Hm as <-. vm_compute. lia. }
  assert (dict_get (demands sample_inst) 3 = Some [("R1", 1); ("R2", 3)]) as Hj
    by reflexivity.
  assert ("R2" ∈ dict_keys [("R1", 1); ("R2", 3)]) as Hr
    by (apply (bool_decide_unpack _); vm_compute; exact I).
  split; [exact Hp|]. split; [exact Hlen|]. split; [exact Hj|]. split; [exact Hr|].
  exact (demand_labels_have_capacity _ _ _ _ _ _ Hp Hlen Hj Hr).
Defined.

(** C6 as stated fails when the availabilities line is short: in the
    instance parsed from [short_caps_sm] job 2 demands [R2], and [R2] is
    no key of [capacities]. *)
Lemma demand_label_without_capacity :
  parse_content "short" short_caps_sm = inr short_caps_inst
  ∧ dict_get (demands short_caps_inst) 2 = Some [("R1", 1); ("R2", 3)]
  ∧ "R2" ∈ dict_keys [("R1", 1); ("R2", 3)]
  ∧ "R2" ∉ dict_keys (capacities short_caps_inst).
Proof.
  split_and!.
  - vm_compute. reflexivity.
  - reflexivity.
  - apply (bool_decide_unpack _). vm_compute. exact I.
  - apply (bool_decide_unpack _). vm_compute. exact I.
Qed.

(** *** The dictionaries of a parsed instance *)

Lemma prec_lines_wf prec lines prec' :
  dict_wf prec → prec_lines prec lines = inr prec' → dict_wf prec'.
Proof.
  revert prec. induction lines as [|l lines IH]; intros prec Hwf; simpl.
  - by intros [= <-].
  - intros (prec1 & H1 & Hrest)%bind_inr. eapply IH; [|exact Hrest].
    unfold prec_line in H1.
    destruct (Py.split l) as [|p0 [|p1 [|p2 rest]]]; try (by injection H1 as <-).
    apply bind_inr in H1 as (j & _ & (k & _ & (succs & _ & [= <-])%bind_inr)%bind_inr).
    by apply dict_set_wf.
Qed.

Lemma job_demands_wf i toks jd jd' :
  dict_wf jd → job_demands_of i toks jd = inr jd' → dict_wf jd'.
Proof.
  revert i jd. induction toks as [|t toks IH]; intros i jd Hwf; simpl.
  - by intros [= <-].
  - intros (d & _ & Hrest)%bind_inr. eapply IH; [|exact Hrest].
    case_decide; [by apply dict_set_wf|done].
Qed.

Lemma req_lines_wf n st lines st' :
  requests_wf st → req_lines n st lines = inr st' → requests_wf st'.
Proof.
  revert st. induction lines as [|l lines IH]; intros st Hwf; simpl.
  - by intros [= <-].
  - intros (st1 & H1 & Hrest)%bind_inr. eapply IH; [|exact Hrest].
    unfold req_line in H1. destruct st as [durations demands].
    destruct (Py.split l) as [|p0 [|p1 [|p2 rest]]]; try (by injection H1 as <-).
    destruct (Py.isdigit p0); [|by injection H1 as <-].
    apply bind_inr in H1 as (j & _ & (d & _ & (jd & Hjd & [= <-])%bind_inr)%bind_inr).
    destruct Hwf as (Hd & Hm & Hin). split_and!; simpl in *.
    + by apply dict_set_wf.
    + by apply dict_set_wf.
    + intros j' jd'. rewrite dict_get_set. case_decide; [|by apply Hin].
      intros [= <-]. eapply job_demands_wf; [|exact Hjd]. apply NoDup_nil_2.
Qed.

Lemma caps_of_wf i toks caps caps' :
  dict_wf caps → caps_of i toks caps = inr caps' → dict_wf caps'.
Proof.
  revert i caps. induction toks as [|t toks IH]; intros i caps Hwf; simpl.
  - by intros [= <-].
  - intros (c & _ & Hrest)%bind_inr. eapply IH; [|exact Hrest]. by apply dict_set_wf.
Qed.

Lemma default_caps_wf n : dict_wf (default_caps n).
Proof.
  unfold default_caps. induction (Z.to_nat n) as [|m IH]; [apply NoDup_nil_2|].
  rewrite seq_S, foldl_app. simpl. by apply dict_set_wf.
Qed.

(** No dictionary of a parsed instance repeats a key, which is what the
    statements on the translator ask of an instance. *)
Lemma parse_content_wf stem content inst :
  parse_content stem content = inr inst → instance_wf inst.
Proof.
  intros (_ & _ & _ & Hp & Hr & Hc & _)%parse_content_inv.
  assert (requests_wf (durations inst, demands inst)) as (Hd & Hm & Hin).
  { unfold parsed_requests in Hr. destruct (Re.search req_re content).
    - eapply req_lines_wf; [|exact Hr]. split_and!; [apply NoDup_nil_2..|done].
    - injection Hr as <- <-. split_and!; [apply NoDup_nil_2..|done]. }
  split_and!; [|done|done| |].
  - unfold parsed_precedence in Hp. destruct (Re.search prec_re content).
    + eapply prec_lines_wf; [|exact Hp]. apply NoDup_nil_2.
    + injection Hp as <-. apply NoDup_nil_2.
  - unfold parsed_capacities in Hc. destruct (Re.search cap_re content).
    + eapply caps_of_wf; [|exact Hc]. apply NoDup_nil_2.
    + injection Hc as <-. apply default_caps_wf.
  - intros j. unfold dict_get_or.
    destruct (dict_get (demands inst) j) as [jd|] eqn:E; simpl; [|apply NoDup_nil_2].
    by eapply Hin.
Qed.

(** ** The loader *)

Lemma solution_line_skipped solutions line :
  (length (Py.split line) < 3)%nat
  ∨ Py.isdigit (default EmptyString (head (Py.split line))) = false →
  solution_line solutions line = inr solutions.
Proof.
  unfold solution_line.
  destruct (Py.split line) as [|p0 [|p1 [|p2 rest]]]; simpl; try done.
  intros [?| ->]; [lia|done].
Qed.

Lemma solution_line_accepted solutions line p0 p1 p2 rest inst makespan :
  Py.split line = p0 :: p1 :: p2 :: rest → Py.isdigit p0 = true →
  Py.int_opt p1 = Some inst → Py.int_opt p2 = Some makespan →
  ∃ param, Py.int_opt p0 = Some param ∧ 0 ≤ param
           ∧ solution_line solutions line
             = inr (dict_set solutions (param, inst) makespan).
Proof.
  unfold solution_line. intros -> Hd H1 H2.
  destruct (isdigit_int _ Hd) as (param & H0 & Hpos).
  exists param. split; [done|]. split; [done|].
  rewrite Hd. unfold Py.int. by rewrite H0, H1, H2.
Qed.

Lemma solution_line_raises solutions line :
  line_raises line ↔ ∃ tok, solution_line solutions line = inl (ValueError tok).
Proof.
  unfold line_raises, solution_line. split.
  - intros (p0 & p1 & p2 & rest & -> & Hd & Hbad).
    destruct (isdigit_int _ Hd) as (param & H0 & _).
    rewrite Hd. unfold Py.int. rewrite H0. simpl.
    destruct (Py.int_opt p1) as [i|]; simpl; [|by eexists].
    destruct Hbad as [?| ->]; [done|]. by eexists.
  - intros (tok & H).
    destruct (Py.split line) as [|p0 [|p1 [|p2 rest]]]; try done.
    destruct (Py.isdigit p0) eqn:Hd; [|done].
    exists p0, p1, p2, rest. split; [done|]. split; [done|].
    destruct (isdigit_int _ Hd) as (param & H0 & _).
    unfold Py.int in H. rewrite H0 in H. simpl in H.
    destruct (Py.int_opt p1); [|by left].
    destruct (Py.int_opt p2); [done|by right].
Qed.

Lemma solution_line_total solutions line :
  ¬ line_raises line → ∃ solutions', solution_line solutions line = inr solutions'.
Proof.
  intros Hn. destruct (solution_line solutions line) as [e|s] eqn:E; [|by eexists].
  destruct Hn. apply (solution_line_raises solutions). rewrite E.
  unfold solution_line, Py.int in E.
  destruct (Py.split line) as [|p0 [|p1 [|p2 rest]]]; try done.
  destruct (Py.isdigit p0); [|done].
  destruct (Py.int_opt p0); simpl in E; [|injection E as <-; by eexists].
  destruct (Py.int_opt p1); simpl in E; [|injection E as <-; by eexists].
  destruct (Py.int_opt p2); simpl in E; [done|injection E as <-; by eexists].
Qed.

(** The scan returns exactly when no line raises. *)
Lemma solution_lines_returns solutions lines :
  (∃ solutions', solution_lines solutions lines = inr solutions')
  ↔ Forall (λ line, ¬ line_raises line) lines.
Proof.
  revert solutions. induction lines as [|l lines IH]; intros solutions; simpl.
  - split; [constructor|by eexists].
  - rewrite Forall_cons. split.
    + intros (s' & (s1 & H1 & Hrest)%bind_inr). split.
      * intros (tok & Htok)%(solution_line_raises solutions). congruence.
      * apply (IH s1). by eexists.
    + intros [Hl Hrest].
      destruct (solution_line_total solutions l Hl) as (s1 & ->). simpl.
      by apply IH.
Qed.


(** The scenario of the loader: the line [badline] is skipped. *)
Lemma loader_scenario :
  load_solutions scenario_table = inr [((1, 1), 43); ((2, 1), 47); ((3, 1), 39)].
Proof. vm_compute. reflexivity. Qed.


(** ** The batch driver *)

Section BatchLoop.
Context (w : world) (solutions : dict (Z * Z) Z) (input_dir output_dir : string).

Local Abbreviation attempt := (convert_file w solutions input_dir output_dir).
Local Abbreviation candidates_of names :=
  (filter (λ n, is_solution_file n = false) names).

(** What the loop adds to the state it starts from: one written file and
    one count for each candidate that converts, one warning for each
    candidate that raises, and nothing for a solution file. *)
Lemma batch_loop_spec names st :
  let st' := batch_loop w solutions input_dir output_dir names st in
  written st' = written st ++ omap (λ n, file_of (attempt n)) (candidates_of names)
  ∧ converted st'
    = converted st
      + Z.of_nat (length (omap (λ n, file_of (attempt n)) (candidates_of names)))
  ∧ filter is_warning_line (stdout st')
    = filter is_warning_line (stdout st)
      ++ omap (λ n, warning_of n (attempt n)) (candidates_of names).
Proof.
  revert st. induction names as [|n names IH]; intros st; simpl.
  - by rewrite !app_nil_r, Z.add_0_r.
  - destruct (IH (batch_step w solutions input_dir output_dir st n)) as (Hw & Hc & Ho).
    unfold batch_loop in *. simpl. rewrite Hw, Hc, Ho. clear Hw Hc Ho IH.
    unfold batch_step. destruct (is_solution_file n) eqn:Hs.
    + rewrite filter_cons_False by (by rewrite Hs). done.
    + rewrite filter_cons_True by done. simpl.
      destruct (attempt n) as [e|file]; simpl.
      * rewrite filter_app, filter_cons_True, filter_nil by by compute.
        by rewrite <- !app_assoc.
      * rewrite filter_app, <- !app_assoc. split; [done|].
        split; [rewrite Nat2Z.inj_succ; unfold omap; lia|].
        case_decide; [|by rewrite filter_nil].
        by rewrite filter_cons_False, filter_nil by by compute.
Qed.
End BatchLoop.

(** The driver raises only before the loop, when the output directory
    cannot be made or the solutions file does not load. *)
Lemma batch_convert_raises_in_setup w input_dir output_dir sf e :
  batch_convert w input_dir output_dir sf = inl e →
  mkdir_error w = Some e ∨ load_if_present w sf = inl e.
Proof.
  unfold batch_convert. destruct (mkdir_error w) as [e'|]; simpl.
  - intros [= <-]. by left.
  - destruct (load_if_present w sf) as [e'|sols]; simpl; [|done].
    intros [= <-]. by right.
Qed.

(** C7. Once the output directory is made and the solutions are loaded,
    [batch_convert] returns, whatever the files hold: an exception raised
    while one candidate is parsed, translated or written is caught, and
    the loop goes on.  The files written are those of the candidates that
    convert, in order; the warnings printed are one for each candidate that
    raises, naming the file and the cause; and the value returned is the
    number of files written. *)
Theorem batch_convert_isolates_failures w input_dir output_dir sf solutions :
  mkdir_error w = None →
  load_if_present w sf = inr solutions →
  ∃ st,
    batch_convert w input_dir output_dir sf = inr (Z.of_nat (length (written st)), st)
    ∧ written st
      = omap (λ n, file_of (convert_file w solutions input_dir output_dir n))
          (candidates w)
    ∧ filter is_warning_line (stdout st)
      = omap (λ n, warning_of n (convert_file w solutions input_dir output_dir n))
          (candidates w).
Proof.
  intros Hm Hs. unfold batch_convert. rewrite Hm, Hs. simpl.
  destruct (batch_loop_spec w solutions input_dir output_dir
              (Py.sorted_strs (glob_sm w)) (mkBatch 0 [] [])) as (Hw & Hc & Ho).
  simpl in *. eexists. split; [|split; [exact Hw|exact Ho]].
  do 2 f_equal. rewrite Hc, Hw. done.
Qed.

Lemma batch_convert_isolates_failures_witness :
  mkdir_error three_files = None
  ∧ load_if_present three_files None = inr []
  ∧ ∃ st,
      batch_convert three_files "in" "out" None
      = inr (Z.of_nat (length (written st)), st)
      ∧ written st
        = omap (λ n, file_of (convert_file three_files [] "in" "out" n))
            (candidates three_files)
      ∧ filter is_warning_line (stdout st)
        = omap (λ n, warning_of n (convert_file three_files [] "in" "out" n))
            (candidates three_files).
Proof.
  split; [reflexivity|]. split; [reflexivity|].
  exact (batch_convert_isolates_failures three_files "in" "out" None []
           eq_refl eq_refl).
Defined.

(** The scenario of the batch: of three candidates the second raises
    while it is translated; two files are written, the count is 2, and one
    warning names the failing file. *)
Lemma batch_scenario :
  fst <$> batch_convert three_files "in" "out" None = inr 2
  ∧ (stdout ∘ snd) <$> batch_convert three_files "in" "out" None
    = inr ["Warning: Failed to convert j102_1.sm: division by zero"]
  ∧ ((λ st, (written st).*1) ∘ snd) <$> batch_convert three_files "in" "out" None
    = inr ["out/j101_1.proj"; "out/j103_1.proj"].
Proof. split_and!; vm_compute; reflexivity. Qed.

(** * Further properties

    What the code does beyond the statements above, component by
    component. *)

(** ** The translator: what it raises *)

Lemma round_div_outcome n c :
  (c = 0 ∧ Py.round_div n c = inl ZeroDivisionError)
  ∨ (c ≠ 0 ∧ ∃ p, Py.round_div n c = inr p).
Proof.
  unfold Py.round_div. destruct (decide (c = 0)); [by left|right].
  split; [done|]. destruct (decide (0 < c)); by eexists.
Qed.

Lemma assignments_outcome caps items acc :
  (Exists (zero_capacity_item caps) items
   ∧ assignments caps items acc = inl ZeroDivisionError)
  ∨ (¬ Exists (zero_capacity_item caps) items
     ∧ ∃ out, assignments caps items acc = inr out).
Proof.
  revert acc. induction items as [|[r d] items IH]; intros acc; simpl.
  - right. split; [by intros ?%Exists_nil|by eexists].
  - case_decide as Hd.
    + destruct (round_div_outcome (d * 100) (dict_get_or caps r 10))
        as [[Hc ->]|[Hc [p ->]]]; simpl.
      * left. split; [|done]. by left.
      * destruct (IH (acc ++ [Py.lower r +:+ "@" +:+ Py.str p +:+ "%"]))
          as [[HE ->]|[HE [out ->]]].
        -- left. split; [by right|done].
        -- right. split; [|by eexists].
           intros [[_ ?]|?]%Exists_cons; [done|by apply HE].
    + destruct (IH acc) as [[HE ->]|[HE [out ->]]].
      * left. split; [by right|done].
      * right. split; [|by eexists].
        intros [[? _]|?]%Exists_cons; [done|by apply HE].
Qed.

Lemma sorted_items_Exists (P : string * Z → Prop) l :
  Exists P (Py.sorted_items l) ↔ Exists P l.
Proof.
  rewrite !Exists_exists. unfold Py.sorted_items.
  split; intros (x & Hx & HP); exists x; split; try done.
  - by rewrite merge_sort_Permutation in Hx.
  - by rewrite merge_sort_Permutation.
Qed.

Lemma task_block_outcome inst J :
  J ∈ real_jobs inst →
  (job_divides_by_zero inst J ∧ task_block inst J = inl ZeroDivisionError)
  ∨ (¬ job_divides_by_zero inst J ∧ ∃ b, task_block inst J = inr b).
Proof.
  intros (d & Hd & _)%elem_of_real_jobs.
  unfold task_block, dict_index, job_divides_by_zero. rewrite Hd. simpl.
  destruct (assignments_outcome (capacities inst)
              (Py.sorted_items (dict_get_or (demands inst) J [])) [])
    as [[HE ->]|[HE [out ->]]]; simpl.
  - left. by rewrite <- sorted_items_Exists.
  - right. rewrite <- sorted_items_Exists. split; [done|by eexists].
Qed.

Lemma task_lines_outcome inst js :
  Forall (λ J, J ∈ real_jobs inst) js →
  (Exists (job_divides_by_zero inst) js ∧ task_lines inst js = inl ZeroDivisionError)
  ∨ (¬ Exists (job_divides_by_zero inst) js ∧ ∃ ts, task_lines inst js = inr ts).
Proof.
  induction 1 as [|J js HJ _ IH]; simpl.
  - right. split; [by intros ?%Exists_nil|by eexists].
  - destruct (task_block_outcome inst J HJ) as [[HE ->]|[HE [b ->]]]; simpl.
    + left. split; [by left|done].
    + destruct IH as [[HE' ->]|[HE' [ts ->]]]; simpl.
      * left. split; [by right|done].
      * right. split; [|by eexists].
        intros [?|?]%Exists_cons; [by apply HE|by apply HE'].
Qed.

Lemma zero_capacity_demand_Exists inst :
  zero_capacity_demand inst ↔ Exists (job_divides_by_zero inst) (real_jobs inst).
Proof.
  unfold zero_capacity_demand, job_divides_by_zero. rewrite Exists_exists. split.
  - intros (J & it & HJ & Hit & Hz). exists J. split; [done|].
    apply Exists_exists. by exists it.
  - intros (J & HJ & (it & Hit & Hz)%Exists_exists). by exists J, it.
Qed.

Lemma proj_lines_outcome inst mk :
  (zero_capacity_demand inst ∧ proj_lines inst mk = inl ZeroDivisionError)
  ∨ (¬ zero_capacity_demand inst ∧ ∃ lines, proj_lines inst mk = inr lines).
Proof.
  rewrite zero_capacity_demand_Exists. unfold proj_lines.
  destruct (task_lines_outcome inst (real_jobs inst)) as [[HE ->]|[HE [ts ->]]]; simpl.
  - by apply Forall_forall.
  - by left.
  - right. split; [done|by eexists].
Qed.



(** ** The translator: resources and dependencies *)

Lemma body_line_not_resource l : is_body_line l → ¬ is_resource_line l.
Proof.
  unfold is_body_line, is_resource_line. intros [H| ->]; [|by compute].
  destruct l as [|a l]; [done|]. simpl in *.
  apply andb_prop_elim in H as [Ha _]. apply bool_decide_unpack in Ha as <-. by compute.
Qed.

Lemma resource_blocks_filter items :
  filter is_resource_line (mjoin (resource_block <$> items))
  = resource_header <$> items.*1.
Proof.
  induction items as [|[r c] items IH]; [done|].
  rewrite !fmap_cons. change (mjoin (?b :: ?bs)) with (b ++ mjoin bs).
  rewrite filter_app, IH. unfold resource_block.
  rewrite filter_cons_True by by compute.
  by rewrite !filter_cons_False, filter_nil by by compute.
Qed.

Lemma task_blocks_no_resource inst js blocks :
  Forall2 (λ j b, task_block inst j = inr b) js blocks →
  filter is_resource_line (mjoin blocks) = [].
Proof.
  induction 1 as [|j b js blocks Hb _ IH]; [done|]. simpl.
  rewrite filter_app, IH, app_nil_r.
  apply task_block_shape in Hb as (body & -> & Hbody).
  rewrite filter_cons_False by by compute.
  apply filter_none. eapply Forall_impl; [done|]. apply body_line_not_resource.
Qed.

Lemma proj_lines_resource_lines inst mk lines :
  proj_lines inst mk = inr lines →
  filter is_resource_line lines
  = resource_header <$> (Py.sorted_items (capacities inst)).*1.
Proof.
  intros (blocks & HF & ->)%proj_lines_inv.
  rewrite !filter_app, (task_blocks_no_resource _ _ _ HF).
  unfold resource_lines. rewrite filter_app, resource_blocks_filter.
  rewrite (filter_none _ (header_lines inst mk)).
  2:{ unfold header_lines. destruct mk as [m|]; [destruct (decide (m = 0))|];
        repeat constructor; by compute. }
  rewrite (filter_none _ (project_lines inst)) by (repeat constructor; by compute).
  simpl. rewrite !filter_cons_False, filter_nil by by compute.
  by rewrite !app_nil_r.
Qed.

Lemma sorted_items_keys_strict (d : dict string Z) :
  dict_wf d → StronglySorted str_lt (Py.sorted_items d).*1.
Proof.
  intros Hwf. unfold Py.sorted_items.
  assert (NoDup (merge_sort Py.item_le d).*1) as Hnd.
  { unfold dict_wf, dict_keys in Hwf. by rewrite merge_sort_Permutation. }
  assert (StronglySorted Py.item_le (merge_sort Py.item_le d)) as Hs
    by apply (StronglySorted_merge_sort _).
  induction Hs as [|x k Hk IH Hx]; [constructor|].
  simpl in Hnd. apply NoDup_cons in Hnd as [Hx' Hnd].
  simpl. constructor; [by apply IH|].
  apply Forall_fmap, Forall_forall. intros y Hy.
  rewrite Forall_forall in Hx. specialize (Hx y Hy).
  assert (x.1 ≠ y.1) as Hne.
  { intros Heq. apply Hx'. rewrite Heq. by apply list_elem_of_fmap_2. }
  unfold Py.item_le in Hx. rewrite decide_False in Hx by done. by split.
Qed.

(** X2. The output declares one resource block for each key of
    [capacities] and no other: the lines that open a resource block are
    those of the labels in strictly ascending order of [str] (so [R10]
    comes before [R2]), and the four lines of the block of every capacity
    stand in the output, with the capacity in the comment. *)
Theorem resource_blocks_by_label inst mk lines :
  dict_wf (capacities inst) →
  proj_lines inst mk = inr lines →
  ∃ labels,
    filter is_resource_line lines = resource_header <$> labels
    ∧ labels ≡ₚ dict_keys (capacities inst)
    ∧ StronglySorted str_lt labels
    ∧ ∀ r c, dict_get (capacities inst) r = Some c →
        ∃ pre post, lines = pre ++ resource_block (r, c) ++ post.
Proof.
  intros Hwf Hl. exists (Py.sorted_items (capacities inst)).*1. split_and!.
  - by apply (proj_lines_resource_lines inst mk).
  - unfold Py.sorted_items, dict_keys. by rewrite merge_sort_Permutation.
  - by apply sorted_items_keys_strict.
  - intros r c Hget. apply (proj_lines_inv inst mk) in Hl as (blocks & _ & ->).
    assert ((r, c) ∈ Py.sorted_items (capacities inst)) as Hin.
    { unfold Py.sorted_items. rewrite merge_sort_Permutation. by apply dict_get_Some_elem. }
    apply list_elem_of_split in Hin as (l1 & l2 & Heq).
    exists (header_lines inst mk ++ project_lines inst ++ mjoin (resource_block <$> l1)),
      (mjoin (resource_block <$> l2) ++ [""] ++ mjoin blocks ++ [""]).
    unfold resource_lines. rewrite Heq, fmap_app, join_app. simpl.
    by rewrite <- !app_assoc.
Qed.

Lemma resource_blocks_by_label_witness :
  dict_wf (capacities chain_inst)
  ∧ proj_lines chain_inst None = inr chain_lines
  ∧ ∃ labels,
      filter is_resource_line chain_lines = resource_header <$> labels
      ∧ labels ≡ₚ dict_keys (capacities chain_inst)
      ∧ StronglySorted str_lt labels
      ∧ ∀ r c, dict_get (capacities chain_inst) r = Some c →
          ∃ pre post, chain_lines = pre ++ resource_block (r, c) ++ post.
Proof.
  assert (dict_wf (capacities chain_inst)) as Hwf by check_wf.
  assert (proj_lines chain_inst None = inr chain_lines) as Hl
    by (vm_compute; reflexivity).
  split; [exact Hwf|]. split; [exact Hl|].
  exact (resource_blocks_by_label chain_inst None chain_lines Hwf Hl).
Defined.

(** The [depends:] line of a block is the one of its sorted predecessors. *)
Lemma block_depends_line inst J block :
  task_block inst J = inr block →
  filter is_depends_line block
  = match Py.sorted_ints (predecessors inst J) with
    | [] => []
    | preds => [depends_text preds]
    end.
Proof.
  intros (duration & asg & _ & _ & ->)%task_block_inv.
  rewrite !filter_app, !filter_cons_False, !filter_nil by by compute.
  assert (filter is_depends_line (assign_line asg) = []) as ->.
  { destruct asg; [done|]. simpl. by rewrite filter_cons_False by by compute. }
  simpl. rewrite app_nil_r. unfold depends_line.
  destruct (predecessors inst J) as [|p ps] eqn:Hp; [done|].
  rewrite filter_cons_True by by compute.
  destruct (Py.sorted_ints (p :: ps)) eqn:Hs; [|done].
  by apply (merge_sort_nil_iff _) in Hs.
Qed.

(** X3. No [depends:] line names a job that is not in the output: the
    line of a block lists sorted predecessors, and each of them has a
    strictly positive duration and a task header of its own among the
    lines. *)
Theorem depends_names_tasks inst mk lines J block :
  proj_lines inst mk = inr lines →
  J ∈ real_jobs inst →
  task_block inst J = inr block →
  ∃ preds,
    filter is_depends_line block
    = match preds with [] => [] | _ => [depends_text preds] end
    ∧ ∀ P, P ∈ preds →
        task_header P ∈ lines ∧ ∃ d, dict_get (durations inst) P = Some d ∧ 0 < d.
Proof.
  intros Hl HJ Hb. exists (Py.sorted_ints (predecessors inst J)). split.
  - rewrite (block_depends_line _ _ _ Hb).
    by destruct (Py.sorted_ints (predecessors inst J)).
  - intros P HP. unfold Py.sorted_ints in HP. rewrite (elem_of_merge_sort _) in HP.
    rewrite predecessors_filter in HP.
    apply list_elem_of_fmap in HP as ([p succs] & -> & [[_ Hd] _]%list_elem_of_filter).
    simpl in *. unfold dict_get_or in Hd.
    destruct (dict_get (durations inst) p) as [d|] eqn:Hget; simpl in Hd; [|lia].
    split; [|by exists d].
    assert (p ∈ real_jobs inst) as Hp by (apply elem_of_real_jobs; eauto).
    pose proof (proj_lines_task_lines _ _ _ Hl) as Hf.
    assert (task_header p ∈ filter is_task_line lines) as Hin.
    { rewrite Hf. by apply list_elem_of_fmap_2. }
    by apply list_elem_of_filter in Hin as [_ ?].
Qed.

Lemma depends_names_tasks_witness :
  proj_lines chain_inst None = inr chain_lines
  ∧ 3 ∈ real_jobs chain_inst
  ∧ task_block chain_inst 3 = inr chain_block
  ∧ ∃ preds,
      filter is_depends_line chain_block
      = match preds with [] => [] | _ => [depends_text preds] end
      ∧ ∀ P, P ∈ preds →
          task_header P ∈ chain_lines
          ∧ ∃ d, dict_get (durations chain_inst) P = Some d ∧ 0 < d.
Proof.
  assert (proj_lines chain_inst None = inr chain_lines) as Hl
    by (vm_compute; reflexivity).
  assert (3 ∈ real_jobs chain_inst) as HJ
    by (apply (bool_decide_unpack _); vm_compute; exact I).
  assert (task_block chain_inst 3 = inr chain_block) as Hb
    by (vm_compute; reflexivity).
  split; [exact Hl|]. split; [exact HJ|]. split; [exact Hb|].
  exact (depends_names_tasks chain_inst None chain_lines 3 chain_block Hl HJ Hb).
Defined.


(** ** The translator: bounds of the percentages *)

Lemma nearest_half_even_bounds d c p :
  0 < c → 0 < d → nearest_half_even (d * 100) c p →
  0 ≤ p ∧ (d ≤ c → p ≤ 100) ∧ (c < d → 100 ≤ p) ∧ (p = 0 ↔ 200 * d ≤ c).
Proof.
  intros Hc Hd (_ & Hle & Hev).
  rewrite (Z.abs_eq c) in * by lia.
  assert (- c ≤ 2 * (p * c - d * 100) ≤ c) as Hb by lia.
  split_and!.
  - destruct (decide (0 ≤ p)); [done|]. assert (p * c ≤ - c) by nia. lia.
  - intros Hdc. destruct (decide (p ≤ 100)); [done|].
    assert (101 * c ≤ p * c) by nia. lia.
  - intros Hdc. destruct (decide (100 ≤ p)); [done|].
    assert (p * c ≤ 99 * c) by nia. lia.
  - split.
    + intros ->. lia.
    + intros H200. destruct (decide (p ≤ 0)) as [|Hp].
      * destruct (decide (0 ≤ p)); [lia|]. assert (p * c ≤ - c) by nia. lia.
      * assert (c ≤ p * c) by nia.
        assert (p = 1) as -> by nia.
        assert (Z.abs (2 * (1 * c - d * 100)) = c) as Habs by lia.
        by apply Hev in Habs.
Qed.

(** The [assign:] line of a block is the one of its assignments. *)
Lemma block_assign_line inst J block :
  task_block inst J = inr block →
  ∃ pcts,
    let items := filter (λ it : string * Z, 0 < it.2)
                   (Py.sorted_items (dict_get_or (demands inst) J [])) in
    Forall2 (λ it p, nearest_half_even (it.2 * 100)
                       (dict_get_or (capacities inst) it.1 10) p) items pcts
    ∧ filter is_assign_line block =
        match items with
        | [] => []
        | _ => [assign_text (zip_with assignment items pcts)]
        end.
Proof.
  intros (duration & asg & _ & Ha & ->)%task_block_inv.
  apply assignments_spec in Ha as (pcts & HF & ->).
  exists pcts. cbv zeta. split; [exact HF|].
  rewrite !filter_app.
  assert (filter is_assign_line (depends_line (predecessors inst J)) = []) as ->.
  { unfold depends_line. destruct (predecessors inst J); [done|].
    by rewrite filter_cons_False by by compute. }
  rewrite !filter_cons_False, !filter_nil by by compute.
  rewrite !app_nil_r, app_nil_l.
  destruct HF as [|it p its ps]; [done|]. simpl.
  by rewrite filter_cons_True by by compute.
Qed.




(** ** The translator: the text and its lines *)

(** *** Lines and text *)

Lemma rev_app_append c d l :
  String.rev_app c d +:+ l = String.rev_app c (d +:+ l).
Proof.
  revert d. induction c as [|b c IH]; intros d; simpl; [done|].
  by rewrite IH, append_cons.
Qed.

Lemma split_on_go_line sep cur l :
  all_chars (λ a, negb (bool_decide (a = sep))) l = true →
  (Py.split_on_go sep cur l = [String.rev cur +:+ l])
  ∧ ∀ rest, Py.split_on_go sep cur (l +:+ String sep rest)
            = (String.rev cur +:+ l) :: Py.split_on_go sep EmptyString rest.
Proof.
  revert cur. induction l as [|a l IH]; intros cur; simpl.
  - intros _. split; [by rewrite append_nil_r|].
    intros rest. rewrite decide_True by done. by rewrite append_nil_r.
  - intros [Ha Hl]%andb_prop. apply negb_true_iff, bool_decide_eq_false in Ha.
    rewrite decide_False by done.
    destruct (IH (String a cur) Hl) as [H1 H2].
    assert (String.rev (String a cur) +:+ l = String.rev cur +:+ String a l) as Heq.
    { unfold String.rev. simpl. by rewrite !rev_app_append. }
    rewrite <- Heq. split; [done|]. intros rest. rewrite decide_False by done.
    apply H2.
Qed.

Lemma split_on_join sep lines :
  lines ≠ [] →
  Forall (λ l, all_chars (λ a, negb (bool_decide (a = sep))) l = true) lines →
  Py.split_on sep (Py.join (String sep EmptyString) lines) = lines.
Proof.
  unfold Py.split_on. intros Hne HF.
  induction HF as [|l lines Hl HF IH]; [done|].
  destruct (split_on_go_line sep EmptyString l Hl) as [H1 H2].
  destruct lines as [|l' lines].
  - simpl. by rewrite H1.
  - change (Py.join (String sep EmptyString) (l :: l' :: lines))
      with (l +:+ String sep (Py.join (String sep EmptyString) (l' :: lines))).
    rewrite H2. f_equal. by apply IH.
Qed.

(** *** Every line of the output is one line *)

Lemma one_line_append s t : one_line s → one_line t → one_line (s +:+ t).
Proof. unfold one_line. rewrite all_chars_append. by intros -> ->. Qed.

Lemma one_line_str z : one_line (Py.str z).
Proof.
  unfold one_line. eapply all_chars_impl; [|apply str_numeral].
  intros a Ha. unfold numeral_char in Ha.
  apply negb_true_iff, bool_decide_eq_false. intros ->. by compute in Ha.
Qed.

Lemma lower_char_newline a :
  a ≠ ascii_of_nat 10 → Py.lower_char a ≠ ascii_of_nat 10.
Proof. destruct a as [[] [] [] [] [] [] [] []]; by compute. Qed.

Lemma one_line_lower s : one_line s → one_line (Py.lower s).
Proof.
  unfold one_line. induction s as [|a s IH]; [done|]. simpl.
  intros [Ha Hs]%andb_prop. rewrite IH by done. rewrite andb_true_r.
  apply negb_true_iff, bool_decide_eq_false in Ha.
  apply negb_true_iff, bool_decide_eq_false. by apply lower_char_newline.
Qed.

Lemma one_line_join sep l :
  one_line sep → Forall one_line l → one_line (Py.join sep l).
Proof.
  intros Hsep. induction 1 as [|x l Hx HF IH]; [done|].
  destruct l as [|y l]; [done|].
  change (Py.join sep (x :: y :: l)) with (x +:+ sep +:+ Py.join sep (y :: l)).
  by repeat apply one_line_append.
Qed.

Create HintDb one_line.
#[local] Hint Resolve one_line_append one_line_str one_line_lower one_line_join : one_line.
#[local] Hint Extern 1 (one_line ?s) =>
  (lazymatch s with append _ _ => fail | _ => reflexivity end) : one_line.

Lemma header_lines_one_line inst mk :
  one_line (name inst) → Forall one_line (header_lines inst mk).
Proof.
  intros Hn. unfold header_lines.
  destruct mk as [m|]; [destruct (decide (m = 0))|];
    repeat constructor; auto 10 with one_line.
Qed.

Lemma project_lines_one_line inst :
  one_line (name inst) → Forall one_line (project_lines inst).
Proof. intros Hn. repeat constructor; auto 10 with one_line. Qed.

Lemma sorted_items_Forall (P : string * Z → Prop) l :
  Forall P l → Forall P (Py.sorted_items l).
Proof.
  rewrite !Forall_forall. intros H x Hx. apply H.
  unfold Py.sorted_items in Hx. by rewrite merge_sort_Permutation in Hx.
Qed.

Lemma resource_lines_one_line inst :
  Forall (λ it, one_line it.1) (capacities inst) →
  Forall one_line (resource_lines inst).
Proof.
  intros HF%sorted_items_Forall. unfold resource_lines.
  apply Forall_app. split; [|by repeat constructor].
  induction HF as [|[r c] l Hr _ IH]; [constructor|]. simpl in *.
  repeat (constructor; [auto 10 with one_line|]). done.
Qed.

Lemma task_block_one_line inst J block :
  Forall (λ it, one_line it.1) (dict_get_or (demands inst) J []) →
  task_block inst J = inr block → Forall one_line block.
Proof.
  intros HF (duration & asg & _ & Ha & ->)%task_block_inv.
  apply assignments_spec in Ha as (pcts & _ & ->).
  apply sorted_items_Forall in HF.
  repeat (constructor; [unfold task_header; auto 10 with one_line|]).
  apply Forall_app. split; [|apply Forall_app; split].
  - unfold assign_line. simpl.
    destruct (zip_with _ _ _) eqn:E; [constructor|]. rewrite <- E.
    constructor; [|constructor].
    apply one_line_append; [reflexivity|]. apply one_line_join; [reflexivity|].
    apply Forall_zip_with_fst with (P := λ it : string * Z, one_line it.1).
    + apply Forall_forall. intros it [_ Hit]%list_elem_of_filter.
      by apply (proj1 (Forall_forall _ _) HF).
    + apply Forall_true. intros p [r d] Hr. unfold assignment. simpl in *.
      auto 10 with one_line.
  - unfold depends_line. destruct (predecessors inst J); [constructor|].
    constructor; [|constructor].
    apply one_line_append; [reflexivity|]. apply one_line_join; [reflexivity|].
    apply Forall_fmap, Forall_true. intros p. simpl. auto with one_line.
  - by repeat constructor.
Qed.

(** X5. When the name and the resource labels of the instance hold no
    newline, the text that [convert_to_proj] returns splits at its newlines
    into exactly the lines the translator appended, and the last of them is
    empty: the text ends with a newline. *)
Theorem convert_to_proj_lines inst mk text :
  instance_plain inst →
  convert_to_proj inst mk = inr text →
  ∃ lines,
    proj_lines inst mk = inr lines
    ∧ Py.split_on (ascii_of_nat 10) text = lines
    ∧ last lines = Some EmptyString.
Proof.
  intros (Hn & Hc & Hd) Ht. unfold convert_to_proj in Ht.
  destruct (proj_lines inst mk) as [e|lines] eqn:Hl; [done|].
  injection Ht as <-. exists lines. split; [done|].
  pose proof Hl as (blocks & HF & ->)%proj_lines_inv. split.
  - apply (split_on_join (ascii_of_nat 10)).
    { unfold header_lines. done. }
    apply Forall_app. split; [by apply header_lines_one_line|].
    apply Forall_app. split; [by apply project_lines_one_line|].
    apply Forall_app. split; [by apply resource_lines_one_line|].
    apply Forall_app. split; [|by repeat constructor].
    clear Hl. induction HF as [|J b js bs Hb _ IH]; [constructor|]. simpl.
    apply Forall_app. split; [|done]. eapply task_block_one_line; [|done]. apply Hd.
  - by rewrite !app_assoc, last_snoc.
Qed.

Lemma convert_to_proj_lines_witness :
  instance_plain ex_inst
  ∧ convert_to_proj ex_inst None = inr (Py.join newline ex_lines)
  ∧ ∃ lines,
      proj_lines ex_inst None = inr lines
      ∧ Py.split_on (ascii_of_nat 10) (Py.join newline ex_lines) = lines
      ∧ last lines = Some EmptyString.
Proof.
  assert (instance_plain ex_inst) as Hp.
  { split_and!; [reflexivity|by repeat constructor|].
    intros J. unfold dict_get_or. simpl.
    repeat case_decide; simpl; by repeat constructor. }
  assert (convert_to_proj ex_inst None = inr (Py.join newline ex_lines)) as Ht
    by (vm_compute; reflexivity).
  split; [exact Hp|]. split; [exact Ht|].
  exact (convert_to_proj_lines ex_inst None _ Hp Ht).
Defined.


(** ** The parser: what a parsed instance holds *)

Section DictKeys.
Context {K V : Type} `{EqDecision K}.
Implicit Types d : dict K V.

Lemma dict_keys_set_new d k v :
  k ∉ dict_keys d → dict_keys (dict_set d k v) = dict_keys d ++ [k].
Proof.
  induction d as [|[k' v'] d IH]; simpl; [done|].
  intros [Hne Hin]%not_elem_of_cons. rewrite decide_False by done.
  simpl. f_equal. by apply IH.
Qed.

Lemma dict_keys_set_same {W} d (d' : dict K W) k v w :
  dict_keys d = dict_keys d' →
  dict_keys (dict_set d k v) = dict_keys (dict_set d' k w).
Proof.
  revert d'. induction d as [|[k1 v1] d IH]; intros [|[k2 v2] d']; simpl; try done.
  intros [= -> Heq]. case_decide; simpl; f_equal; [done|by apply IH].
Qed.
End DictKeys.

Lemma label_inj i j : label i = label j → i = j.
Proof.
  unfold label. intros [= H]. apply str_inj in H. lia.
Qed.

(** *** The numbers of a parsed instance *)

Lemma header_int_nonneg re dflt content z :
  groups_of re = [(1%nat, Re.plus Re.Digit)] → filled re = [1%nat] →
  0 ≤ dflt → header_int re dflt content = inr z → 0 ≤ z.
Proof.
  intros Hg Hf Hd. unfold header_int.
  destruct (Re.search re content) as [m|] eqn:E; [|by intros [= <-]].
  apply search_sound in E as [HF Hm].
  destruct (isdigit_int _ (digits_group_isdigit _ _ Hg Hf HF Hm)) as (z' & Hz & Hpos).
  unfold Py.int. rewrite Hz. by intros [= <-].
Qed.

Lemma caps_of_nonneg i toks caps caps' :
  Forall (λ t, Py.isdigit t = true) toks →
  caps_of i toks caps = inr caps' →
  (∀ r c, dict_get caps r = Some c → 0 ≤ c) →
  ∀ r c, dict_get caps' r = Some c → 0 ≤ c.
Proof.
  intros HF. revert i caps. induction HF as [|t toks Ht _ IH]; intros i caps; simpl.
  - by intros [= <-].
  - destruct (isdigit_int _ Ht) as (z & Hz & Hpos). unfold Py.int. rewrite Hz. simpl.
    intros Hrest Hcaps. eapply IH; [exact Hrest|].
    intros r c. rewrite dict_get_set. case_decide; [|by apply Hcaps].
    by intros [= <-].
Qed.

Lemma default_caps_get n r c :
  dict_get (default_caps n) r = Some c → c = 10.
Proof.
  unfold default_caps. induction (Z.to_nat n) as [|m IH]; [done|].
  rewrite seq_S, foldl_app. simpl. rewrite dict_get_set.
  case_decide; [by intros [= <-]|done].
Qed.

Lemma cap_tokens_digits content m :
  Re.search cap_re content = Some m →
  Forall (λ t, Py.isdigit t = true) (Py.split (Py.strip (Re.group 1 m))).
Proof.
  intros [HF Hm]%search_sound.
  destruct (group_text cap_re 1 m HF) as (r' & Hin & [Hc Hl]).
  { apply Hm. by left. }
  apply list_elem_of_singleton in Hin as [= ->].
  apply split_digits, strip_all_chars.
  eapply all_chars_impl; [|exact Hc].
  intros a Ha. unfold digit_or_space. simpl in Ha.
  by destruct (Py.is_digit a), (Py.isspace a).
Qed.

Lemma parsed_capacities_nonneg n content caps r c :
  parsed_capacities n content = inr caps → dict_get caps r = Some c → 0 ≤ c.
Proof.
  unfold parsed_capacities.
  destruct (Re.search cap_re content) as [m|] eqn:E.
  - intros Hcaps. eapply caps_of_nonneg; [|exact Hcaps|done].
    by apply Forall_take, (cap_tokens_digits content).
  - intros [= <-] ->%default_caps_get. lia.
Qed.

(** *** The keys of the capacities *)

Lemma caps_of_keys_exact toks i caps caps' :
  0 ≤ i →
  dict_keys caps = (λ k, label (Z.of_nat k)) <$> seq 0 (Z.to_nat i) →
  caps_of i toks caps = inr caps' →
  dict_keys caps'
  = (λ k, label (Z.of_nat k)) <$> seq 0 (Z.to_nat i + length toks).
Proof.
  revert i caps. induction toks as [|t toks IH]; intros i caps Hi Hk; simpl.
  - intros [= <-]. by rewrite Nat.add_0_r.
  - intros (c & _ & Hrest)%bind_inr.
    replace (Z.to_nat i + S (length toks))%nat
      with (Z.to_nat (i + 1) + length toks)%nat by lia.
    eapply IH; [lia| |exact Hrest].
    rewrite dict_keys_set_new.
    + rewrite Hk. replace (Z.to_nat (i + 1)) with (S (Z.to_nat i)) by lia.
      rewrite seq_S, fmap_app. simpl.
      by replace (Z.of_nat (Z.to_nat i)) with i by lia.
    + rewrite Hk. intros (k & Hl & Hin)%list_elem_of_fmap.
      apply label_inj in Hl. apply elem_of_seq in Hin. lia.
Qed.

Lemma default_caps_keys_exact n :
  dict_keys (default_caps n) = (λ k, label (Z.of_nat k)) <$> seq 0 (Z.to_nat n).
Proof.
  unfold default_caps. induction (Z.to_nat n) as [|m IH]; [done|].
  rewrite seq_S, foldl_app. simpl. rewrite dict_keys_set_new.
  - rewrite IH, fmap_app. done.
  - rewrite IH. intros (k & Hl & Hin)%list_elem_of_fmap.
    apply label_inj in Hl. apply elem_of_seq in Hin. lia.
Qed.

(** X6. The keys of the capacities of a parsed instance are exactly
    [R1 .. Rm] in this order, where [m] is the number of declared resources
    or, when the availabilities line has fewer integers, their number; no
    capacity is negative, and without an availabilities block every
    capacity is 10. *)
Theorem parsed_capacities_keys stem content inst :
  parse_content stem content = inr inst →
  dict_keys (capacities inst)
  = (λ k, label (Z.of_nat k)) <$> seq 0 (capacity_count (resources inst) content)
  ∧ (∀ r c, dict_get (capacities inst) r = Some c → 0 ≤ c)
  ∧ (Re.search cap_re content = None →
       ∀ r c, dict_get (capacities inst) r = Some c → c = 10).
Proof.
  intros (_ & _ & _ & _ & _ & Hc & _)%parse_content_inv. split_and!.
  - unfold parsed_capacities, capacity_count in *.
    destruct (Re.search cap_re content) as [m|].
    + apply (caps_of_keys_exact _ 0) in Hc; [|done|done].
      rewrite Hc, length_take. done.
    + injection Hc as <-. apply default_caps_keys_exact.
  - intros r c. by eapply parsed_capacities_nonneg.
  - intros Hno r c. unfold parsed_capacities in Hc. rewrite Hno in Hc.
    injection Hc as <-. apply default_caps_get.
Qed.

Lemma parsed_capacities_keys_witness :
  parse_content "short" short_caps_sm = inr short_caps_inst
  ∧ dict_keys (capacities short_caps_inst)
    = (λ k, label (Z.of_nat k))
        <$> seq 0 (capacity_count (resources short_caps_inst) short_caps_sm)
  ∧ (∀ r c, dict_get (capacities short_caps_inst) r = Some c → 0 ≤ c)
  ∧ (Re.search cap_re short_caps_sm = None →
       ∀ r c, dict_get (capacities short_caps_inst) r = Some c → c = 10).
Proof.
  assert (parse_content "short" short_caps_sm = inr short_caps_inst) as Hp
    by (vm_compute; reflexivity).
  split; [exact Hp|].
  exact (parsed_capacities_keys "short" short_caps_sm short_caps_inst Hp).
Defined.

(** *** The durations and the demands *)

Lemma job_demands_positive i toks jd jd' :
  job_demands_of i toks jd = inr jd' →
  (∀ r d, dict_get jd r = Some d → 0 < d) →
  ∀ r d, dict_get jd' r = Some d → 0 < d.
Proof.
  revert i jd. induction toks as [|t toks IH]; intros i jd; simpl.
  - by intros [= <-].
  - intros (d & _ & Hrest)%bind_inr Hjd. eapply IH; [exact Hrest|].
    case_decide; [|done].
    intros r d'. rewrite dict_get_set. case_decide; [|by apply Hjd].
    by intros [= <-].
Qed.

Lemma req_line_inv n st st' line :
  requests_inv st → req_line n st line = inr st' → requests_inv st'.
Proof.
  unfold req_line. destruct st as [durations demands]. intros (Hk & Hj & Hd).
  destruct (Py.split line) as [|p0 [|p1 [|p2 rest]]]; try (by intros [= <-]).
  destruct (Py.isdigit p0) eqn:E0; [|by intros [= <-]].
  destruct (isdigit_int _ E0) as (j0 & Hj0 & Hpos).
  intros (job_id & Hid%int_inr & (duration & _ & (jd' & Hjd & [= <-])%bind_inr)%bind_inr)%bind_inr.
  assert (job_id = j0) as -> by congruence.
  split_and!; simpl in *.
  - by apply dict_keys_set_same.
  - intros j [->|Hin]%dict_keys_set; [done|by apply Hj].
  - intros j jd r d. rewrite dict_get_set. case_decide; [|by apply Hd].
    intros [= <-]. by eapply job_demands_positive.
Qed.

Lemma req_lines_inv n st st' lines :
  requests_inv st → req_lines n st lines = inr st' → requests_inv st'.
Proof.
  revert st. induction lines as [|l lines IH]; intros st Hst; simpl.
  - by intros [= <-].
  - intros (st1 & H1 & Hrest)%bind_inr. eapply IH; [|done].
    by eapply req_line_inv.
Qed.

(** X7. In a parsed instance the job count, the resource count and the
    horizon are not negative; [durations] and [demands] have the same job
    ids in the same order, none negative; and every demand stored is
    strictly positive, under a label [R1 .. Rk] with [k] the resource
    count. *)
Theorem parsed_requests_invariant stem content inst :
  parse_content stem content = inr inst →
  0 ≤ jobs inst ∧ 0 ≤ resources inst ∧ 0 ≤ horizon inst
  ∧ dict_keys (durations inst) = dict_keys (demands inst)
  ∧ (∀ j, j ∈ dict_keys (durations inst) → 0 ≤ j)
  ∧ (∀ j jd r d, dict_get (demands inst) j = Some jd → dict_get jd r = Some d →
       0 < d ∧ ∃ i, 0 ≤ i < resources inst ∧ r = label i).
Proof.
  intros (Hj & Hn & Hh & _ & Hr & _ & _)%parse_content_inv.
  assert (0 ≤ resources inst) as Hres
    by exact (header_int_nonneg resources_re 4 content _ eq_refl eq_refl ltac:(lia) Hn).
  assert (requests_inv (durations inst, demands inst)) as (Hk & Hpos & Hd).
  { unfold parsed_requests in Hr. destruct (Re.search req_re content).
    - eapply req_lines_inv; [|exact Hr]. split_and!; [done|by intros j ?%elem_of_nil|done].
    - injection Hr as <- <-. split_and!; [done|by intros j ?%elem_of_nil|done]. }
  split_and!; try done.
  - exact (header_int_nonneg jobs_re 0 content _ eq_refl eq_refl ltac:(lia) Hj).
  - exact (header_int_nonneg horizon_re 100 content _ eq_refl eq_refl ltac:(lia) Hh).
  - intros j jd r d Hjd Hrd. split; [by eapply Hd|].
    destruct (parsed_requests_labels _ _ _ _ Hr j jd Hjd r) as (i & Hi & ->).
    { apply dict_keys_is_Some. by eexists. }
    exists i. split; [lia|done].
Qed.

Lemma parsed_requests_invariant_witness :
  parse_content "j301_1" sample_sm = inr sample_inst
  ∧ 0 ≤ jobs sample_inst ∧ 0 ≤ resources sample_inst ∧ 0 ≤ horizon sample_inst
  ∧ dict_keys (durations sample_inst) = dict_keys (demands sample_inst)
  ∧ (∀ j, j ∈ dict_keys (durations sample_inst) → 0 ≤ j)
  ∧ (∀ j jd r d, dict_get (demands sample_inst) j = Some jd → dict_get jd r = Some d →
       0 < d ∧ ∃ i, 0 ≤ i < resources sample_inst ∧ r = label i).
Proof.
  assert (parse_content "j301_1" sample_sm = inr sample_inst) as Hp
    by (vm_compute; reflexivity).
  split; [exact Hp|].
  exact (parsed_requests_invariant "j301_1" sample_sm sample_inst Hp).
Defined.


(** ** The parser: what a line stores *)

Lemma int_Some t z : Py.int_opt t = Some z → Py.int t = inr z.
Proof. apply int_inr. Qed.

Lemma traverse_int_Forall2 toks zs :
  Forall2 (λ t z, Py.int_opt t = Some z) toks zs →
  Py.traverse Py.int toks = inr zs.
Proof.
  induction 1 as [|t z toks zs Ht _ IH]; simpl; [done|].
  rewrite (int_Some _ _ Ht). simpl. by rewrite IH.
Qed.



Lemma job_demands_get toks zs :
  Forall2 (λ t z, Py.int_opt t = Some z) toks zs →
  ∀ i jd, 0 ≤ i →
  ∃ jd', job_demands_of i toks jd = inr jd'
    ∧ ∀ k : nat,
        dict_get jd' (label (Z.of_nat k))
        = match (if decide (i ≤ Z.of_nat k)
                 then demand_at zs (k - Z.to_nat i) else None) with
          | Some z => Some z
          | None => dict_get jd (label (Z.of_nat k))
          end.
Proof.
  induction 1 as [|t z toks zs Ht _ IH]; intros i jd Hi; simpl.
  - exists jd. split; [done|]. intros k. by case_decide.
  - rewrite (int_Some _ _ Ht). simpl.
    destruct (IH (i + 1)
                (if decide (0 < z) then dict_set jd ("R" +:+ Py.str (i + 1)) z else jd))
      as (jd' & -> & Hget); [lia|].
    exists jd'. split; [done|]. intros k. rewrite Hget. clear Hget.
    replace (Z.to_nat (i + 1)) with (S (Z.to_nat i)) by lia.
    destruct (decide (i + 1 ≤ Z.of_nat k)) as [Hk|Hk].
    + rewrite (decide_True (P := i ≤ Z.of_nat k)) by lia.
      replace (k - Z.to_nat i)%nat with (S (k - S (Z.to_nat i))) by lia.
      unfold demand_at at 2. simpl. fold (demand_at zs (k - S (Z.to_nat i))).
      destruct (demand_at zs (k - S (Z.to_nat i))); [done|].
      case_decide; [|done]. change ("R" +:+ Py.str (i + 1)) with (label i).
      rewrite dict_get_set, decide_False; [done|].
      intros ?%label_inj. lia.
    + destruct (decide (i ≤ Z.of_nat k)) as [Hk'|Hk'].
      * assert (Z.of_nat k = i) as Hki by lia.
        replace (k - Z.to_nat i)%nat with 0%nat by lia.
        unfold demand_at. simpl. change ("R" +:+ Py.str (i + 1)) with (label i).
        case_decide; simpl; [|done].
        rewrite dict_get_set, decide_True; [done|]. by rewrite Hki.
      * case_decide; [|done]. change ("R" +:+ Py.str (i + 1)) with (label i).
        rewrite dict_get_set, decide_False; [done|].
        intros ?%label_inj. lia.
Qed.






(** ** The loader: lookups *)

Lemma solution_line_row solutions line solutions' :
  solution_line solutions line = inr solutions' →
  solutions' = match row_of line with
               | Some row => dict_set solutions row.1 row.2
               | None => solutions
               end.
Proof.
  unfold solution_line, row_of, Py.int.
  destruct (Py.split line) as [|p0 [|p1 [|p2 rest]]]; try (by intros [= <-]).
  destruct (Py.isdigit p0); [|by intros [= <-]].
  destruct (Py.int_opt p0); simpl; [|done].
  destruct (Py.int_opt p1); simpl; [|done].
  destruct (Py.int_opt p2); simpl; [|done].
  by intros [= <-].
Qed.

Lemma row_of_param line row : row_of line = Some row → 0 ≤ row.1.1.
Proof.
  unfold row_of.
  destruct (Py.split line) as [|p0 [|p1 [|p2 rest]]]; try done.
  destruct (Py.isdigit p0) eqn:Hd; [|done].
  destruct (isdigit_int _ Hd) as (param & -> & Hpos).
  destruct (Py.int_opt p1); [|done]. destruct (Py.int_opt p2); [|done].
  by intros [= <-].
Qed.

Lemma solution_lines_get solutions lines solutions' key :
  solution_lines solutions lines = inr solutions' →
  dict_get solutions' key
  = match last (makespans_of key lines) with
    | Some makespan => Some makespan
    | None => dict_get solutions key
    end.
Proof.
  revert solutions. induction lines as [|l lines IH]; intros solutions; simpl.
  - by intros [= <-].
  - intros (s1 & H1 & Hrest)%bind_inr.
    apply solution_line_row in H1 as ->. rewrite (IH _ Hrest).
    unfold makespans_of. simpl.
    destruct (row_of l) as [[k m]|]; simpl; [|done].
    destruct (decide (k = key)) as [->|Hne]; simpl.
    + rewrite last_cons. fold (makespans_of key lines).
      destruct (last (makespans_of key lines)); [done|].
      rewrite dict_get_set. by rewrite decide_True.
    + fold (makespans_of key lines).
      destruct (last (makespans_of key lines)); [done|].
      rewrite dict_get_set. by rewrite decide_False.
Qed.

Lemma solution_lines_params solutions lines solutions' :
  solution_lines solutions lines = inr solutions' →
  (∀ key, key ∈ dict_keys solutions → 0 ≤ key.1) →
  ∀ key, key ∈ dict_keys solutions' → 0 ≤ key.1.
Proof.
  revert solutions. induction lines as [|l lines IH]; intros solutions; simpl.
  - by intros [= <-].
  - intros (s1 & H1 & Hrest)%bind_inr Hs. eapply IH; [exact Hrest|].
    apply solution_line_row in H1 as ->.
    destruct (row_of l) as [row|] eqn:E; [|done].
    intros key [->|Hin]%dict_keys_set; [|by apply Hs].
    by eapply row_of_param.
Qed.

(** X11. The table that the loader returns maps a key
    [(param, instance)] to the makespan of the last accepted line with this
    key, and holds no key without such a line; the [param] of a stored key
    is never negative. *)
Theorem loader_last_row_wins content table key :
  load_solutions content = inr table →
  dict_get table key
  = last (makespans_of key (Py.split_on (ascii_of_nat 10) content))
  ∧ (is_Some (dict_get table key) → 0 ≤ key.1).
Proof.
  unfold load_solutions. intros H. split.
  - rewrite (solution_lines_get _ _ _ key H). simpl.
    by destruct (last _).
  - intros Hk%dict_keys_is_Some.
    eapply (solution_lines_params _ _ _ H); [|done]. by intros k ?%elem_of_nil.
Qed.

Lemma loader_last_row_wins_witness :
  load_solutions twice_table = inr [((1, 1), 44)]
  ∧ dict_get [((1, 1), 44)] (1, 1)
    = last (makespans_of (1, 1) (Py.split_on (ascii_of_nat 10) twice_table))
  ∧ (is_Some (dict_get [((1, 1), 44)] (1, 1)) → 0 ≤ (1, 1).1).
Proof.
  assert (load_solutions twice_table = inr [((1, 1), 44)]) as H
    by (vm_compute; reflexivity).
  split; [exact H|].
  exact (loader_last_row_wins twice_table [((1, 1), 44)] (1, 1) H).
Defined.


(** ** The batch driver: the lookup of the optimum *)

Lemma rounds_digits {A} lo (k : string → Re.captures → option A) fuel done s caps :
  (String.length s ≤ fuel)%nat →
  Re.rounds (Re.run (Re.Cls Re.Digit)) true lo k fuel done s caps
  = digits_greedy lo k done s caps.
Proof.
  revert done s caps. induction fuel as [|fuel IH]; intros done s caps Hlen.
  - destruct s; simpl in *; [|lia]. by destruct (lo <=? done)%nat.
  - destruct s as [|a s]; simpl.
    + by destruct (lo <=? done)%nat.
    + destruct (Py.is_digit a); [|by destruct (lo <=? done)%nat].
      destruct (Nat.ltb_spec (String.length s) (S (String.length s))); [|lia].
      rewrite IH by (simpl in Hlen; lia). done.
Qed.

Lemma run_plus_digits {A} (k : string → Re.captures → option A) s caps :
  Re.run (Re.plus Re.Digit) s caps k = digits_greedy 1 k 0 s caps.
Proof. unfold Re.plus. simpl. by apply rounds_digits. Qed.

(** On digits that end where the continuation succeeds, the repetition
    takes them all. *)
Lemma digits_greedy_all {A} lo (k : string → Re.captures → option A) es rest caps x :
  all_chars Py.is_digit es = true → no_digit_ahead rest →
  k rest caps = Some x →
  ∀ done, (lo ≤ done + String.length es)%nat →
  digits_greedy lo k done (es +:+ rest) caps = Some x.
Proof.
  intros Hes Hrest Hk. induction es as [|a es IH]; intros done Hlo; simpl in *.
  - assert ((lo <=? done)%nat = true) as Hle by (apply Nat.leb_le; lia).
    destruct rest as [|b rest]; simpl in *; rewrite ?Hrest, Hle; done.
  - apply andb_prop in Hes as [Ha Hes]. rewrite Ha.
    rewrite IH by (done || lia). done.
Qed.

(** On digits that end where the continuation fails, and succeeds one
    digit before, the repetition gives the last digit back. *)
Lemma digits_greedy_back {A} (k : string → Re.captures → option A) ds d tail caps x :
  all_chars Py.is_digit ds = true → Py.is_digit d = true → no_digit_ahead tail →
  k tail caps = None → k (String d tail) caps = Some x →
  ∀ done, (1 ≤ done)%nat →
  digits_greedy 1 k done (ds +:+ String d tail) caps = Some x.
Proof.
  intros Hds Hd Htail Hnone Hsome.
  induction ds as [|a ds IH]; intros done Hdone; simpl in *.
  - assert ((1 <=? done)%nat = true) as Hle by (apply Nat.leb_le; lia).
    assert ((1 <=? S done)%nat = true) as Hle' by (apply Nat.leb_le; lia).
    rewrite Hd.
    destruct tail as [|b tail]; simpl in *; rewrite ?Htail, ?Hle', Hnone; simpl;
      by rewrite ?Hle.
  - apply andb_prop in Hds as [Ha Hds]. rewrite Ha.
    rewrite IH by (done || lia). done.
Qed.

Lemma digits_greedy_stop {A} lo (k : string → Re.captures → option A) done s caps :
  no_digit_ahead s →
  digits_greedy lo k done s caps = if (lo <=? done)%nat then k s caps else None.
Proof. intros Hs. destruct s as [|a s]; simpl in *; [done|]. by rewrite Hs. Qed.

Lemma digits_greedy_none {A} lo (k : string → Re.captures → option A) s caps :
  (1 ≤ lo)%nat → no_digit_ahead s → digits_greedy lo k 0 s caps = None.
Proof.
  intros Hlo Hs. destruct s as [|a s]; simpl in *.
  - destruct (Nat.leb_spec lo 0); [lia|done].
  - rewrite Hs. destruct (Nat.leb_spec lo 0); [lia|done].
Qed.

(** The stem [j<ds><d>_<es><rest>]: group 1 is the one digit before the
    underscore and group 2 the digits after it. *)
Lemma stem_match ds d es rest :
  ds ≠ EmptyString → all_chars Py.is_digit ds = true → Py.is_digit d = true →
  es ≠ EmptyString → all_chars Py.is_digit es = true → no_digit_ahead rest →
  Re.match_ stem_re ("j" +:+ ds +:+ String d ("_" +:+ es +:+ rest))
  = Some [(2%nat, es); (1%nat, String d EmptyString)].
Proof.
  intros Hne Hds Hd Hes_ne Hes Hrest.
  unfold Re.match_, stem_re. cbn [Re.cat Re.run].
  change (Re.strip_prefix "j" ("j" +:+ ?s)) with (Some s).
  cbv beta iota. rewrite run_plus_digits.
  destruct ds as [|a ds]; [done|]. rewrite append_cons.
  simpl in Hds. apply andb_prop in Hds as [Ha Hds].
  cbn [digits_greedy]. rewrite Ha.
  set (tail := "_" +:+ es +:+ rest).
  erewrite (digits_greedy_back _ ds d tail); [done|done|done|done| | |lia].
  - cbn [Re.run]. rewrite run_plus_digits. by apply digits_greedy_none.
  - cbn [Re.run]. rewrite run_plus_digits. cbn [digits_greedy]. rewrite Hd.
    rewrite (digits_greedy_stop 1 _ 1 tail) by done. cbv beta iota.
    change (1 <=? 1)%nat with true. cbv iota.
    change (Re.consumed (String d tail) tail)
      with (Re.consumed (String d EmptyString +:+ tail) tail).
    rewrite consumed_append.
    unfold tail at 1. cbn [Re.run].
    change (Re.strip_prefix "_" ("_" +:+ ?s)) with (Some s).
    cbv beta iota. rewrite run_plus_digits.
    destruct es as [|e es]; [done|]. rewrite append_cons.
    simpl in Hes. apply andb_prop in Hes as [He Hes].
    cbn [digits_greedy]. rewrite He.
    erewrite (digits_greedy_all 1 _ es rest); [done|done|done| |lia].
    rewrite <- append_cons, consumed_append. reflexivity.
Qed.

Lemma int_one_digit d :
  Py.is_digit d = true →
  Py.int_opt (String d EmptyString) = Some (Py.digit_val d) ∧ 0 ≤ Py.digit_val d ≤ 9.
Proof.
  intros Hd. split.
  - assert (Py.int_unsigned (String d EmptyString) = Some (Py.digit_val d)) as Hu
      by (simpl; by rewrite Hd).
    rewrite <- Hu. unfold Py.int_opt.
    destruct (decide (d = "+"%char)) as [->|]; [done|].
    destruct (decide (d = "-"%char)) as [->|]; [done|].
    destruct d as [[] [] [] [] [] [] [] []]; done.
  - unfold Py.is_digit, Py.digit_val in *.
    apply andb_prop in Hd as [H1 H2]. apply N.leb_le in H1, H2. lia.
Qed.

Lemma stem_groups_digits stem m n :
  Re.match_ stem_re stem = Some m → n = 1%nat ∨ n = 2%nat →
  Py.isdigit (Re.group n m) = true.
Proof.
  intros [HF Hm]%match_sound Hn.
  destruct (group_text stem_re n m HF) as (r' & Hin & [Hc Hl]).
  { apply Hm. simpl. destruct Hn as [-> | ->]; [by left|by right; left]. }
  assert (r' = Re.plus Re.Digit) as ->.
  { simpl in Hin. apply elem_of_cons in Hin as [[= _ ->]|Hin]; [done|].
    by apply list_elem_of_singleton in Hin as [= _ ->]. }
  apply all_digits_isdigit; [done|]. simpl in Hl. lia.
Qed.

(** X12. The lookup of an optimum never raises.  It gives nothing when
    the table is empty or when the stem does not start like
    [j<digits>_<digits>], and an optimum it gives is the entry of the table
    under a key of two numbers that are not negative. *)
Theorem find_optimal_total solutions stem :
  ∃ optimal,
    find_optimal solutions stem = inr optimal
    ∧ (solutions = [] → optimal = None)
    ∧ (Re.match_ stem_re stem = None → optimal = None)
    ∧ ∀ makespan, optimal = Some makespan →
        ∃ param inst, dict_get solutions (param, inst) = Some makespan
                      ∧ 0 ≤ param ∧ 0 ≤ inst.
Proof.
  unfold find_optimal.
  destruct (Re.match_ stem_re stem) as [m|] eqn:E.
  - destruct solutions as [|s solutions].
    { exists None. by split_and!. }
    destruct (isdigit_int _ (stem_groups_digits stem m 1 E ltac:(by left)))
      as (param & Hp & Hpp).
    destruct (isdigit_int _ (stem_groups_digits stem m 2 E ltac:(by right)))
      as (inst & Hi & Hip).
    unfold Py.int. rewrite Hp, Hi. simpl. eexists. split; [reflexivity|].
    split_and!; [done|done|]. intros makespan Hm. by exists param, inst.
  - exists None. by split_and!.
Qed.

(** X13. For a stem [j<ds><d>_<es>...] and a table that is not empty, the
    optimum is looked up under the key made of the single digit [d] before
    the underscore and of the number [es] after it: the first number of the
    key is always between 0 and 9, whatever digits [ds] stand before. *)
Theorem find_optimal_last_digit solutions ds d es rest :
  solutions ≠ [] →
  ds ≠ EmptyString → all_chars Py.is_digit ds = true → Py.is_digit d = true →
  es ≠ EmptyString → all_chars Py.is_digit es = true → no_digit_ahead rest →
  ∃ inst,
    Py.int_opt es = Some inst ∧ 0 ≤ Py.digit_val d ≤ 9
    ∧ find_optimal solutions ("j" +:+ ds +:+ String d ("_" +:+ es +:+ rest))
      = inr (dict_get solutions (Py.digit_val d, inst)).
Proof.
  intros Hsol Hne Hds Hd Hes_ne Hes Hrest.
  assert (Py.isdigit es = true) as Hes'.
  { apply all_digits_isdigit; [done|]. destruct es; [done|simpl; lia]. }
  destruct (isdigit_int _ Hes') as (inst & Hi & _).
  destruct (int_one_digit d Hd) as [Hp Hrange].
  exists inst. split; [done|]. split; [done|].
  unfold find_optimal. rewrite stem_match by done.
  destruct solutions as [|s solutions]; [done|].
  unfold Re.group. simpl dict_get. unfold Py.int. simpl default.
  by rewrite Hp, Hi.
Qed.

Lemma find_optimal_last_digit_witness :
  [((0, 5), 64)] ≠ []
  ∧ "301" ≠ EmptyString ∧ all_chars Py.is_digit "301" = true
  ∧ Py.is_digit "0" = true
  ∧ "5" ≠ EmptyString ∧ all_chars Py.is_digit "5" = true
  ∧ no_digit_ahead EmptyString
  ∧ ∃ inst,
      Py.int_opt "5" = Some inst ∧ 0 ≤ Py.digit_val "0" ≤ 9
      ∧ find_optimal [((0, 5), 64)] ("j" +:+ "301" +:+ String "0" ("_" +:+ "5" +:+ EmptyString))
        = inr (dict_get [((0, 5), 64)] (Py.digit_val "0", inst)).
Proof.
  assert ([((0, 5), 64)] ≠ ([] : list ((Z * Z) * Z))) as H1 by done.
  assert ("301" ≠ EmptyString) as H2 by done.
  assert (all_chars Py.is_digit "301" = true) as H3 by reflexivity.
  assert (Py.is_digit "0" = true) as H4 by reflexivity.
  assert ("5" ≠ EmptyString) as H5 by done.
  assert (all_chars Py.is_digit "5" = true) as H6 by reflexivity.
  assert (no_digit_ahead EmptyString) as H7 by exact I.
  split_and!; try done.
  exact (find_optimal_last_digit [((0, 5), 64)] "301" "0" "5" EmptyString
           H1 H2 H3 H4 H5 H6 H7).
Defined.


(** ** The batch driver: progress, listing and set-up *)

Lemma batch_step_progress w solutions input_dir output_dir st sm_name :
  progress_inv st →
  progress_inv (batch_step w solutions input_dir output_dir st sm_name).
Proof.
  intros (Hc & Hp & Hall). unfold batch_step.
  destruct (is_solution_file sm_name); [done|].
  destruct (convert_file w solutions input_dir output_dir sm_name) as [e|file].
  - split_and!; simpl; [done| |].
    + rewrite filter_app, filter_cons_False, filter_nil by by compute.
      by rewrite app_nil_r.
    + apply Forall_app. split; [done|]. constructor; [|constructor]. left. by compute.
  - set (n := converted st + 1). split_and!; simpl; [lia| |].
    + rewrite filter_app, Hp. fold n. destruct (decide (n `mod` 100 = 0)) as [Hm|Hm].
      * assert (n = 100 * (converted st `div` 100 + 1)) as Hn.
        { pose proof (Z.div_mod n 100 ltac:(lia)) as Hn.
          pose proof (Z.div_mod (converted st) 100 ltac:(lia)) as Hc'.
          pose proof (Z.mod_pos_bound (converted st) 100 ltac:(lia)).
          assert (n `div` 100 = converted st `div` 100 + 1) by (unfold n in *; nia).
          lia. }
        assert (n `div` 100 = converted st `div` 100 + 1) as Hd.
        { rewrite Hn at 1. rewrite Z.mul_comm, Z.div_mul by lia. done. }
        rewrite Hd, seqZ_app, fmap_app by (try apply Z.div_pos; lia). f_equal.
        rewrite filter_cons_True, filter_nil by by compute.
        change (seqZ ?m 1) with [0 + m]. simpl fmap.
        replace (100 * (0 + (1 + converted st `div` 100))) with n by lia. done.
      * rewrite filter_nil, app_nil_r.
        assert (n `div` 100 = converted st `div` 100) as ->; [|done].
        pose proof (Z.div_mod n 100 ltac:(lia)) as Hn.
        pose proof (Z.div_mod (converted st) 100 ltac:(lia)) as Hc'.
        pose proof (Z.mod_pos_bound (converted st) 100 ltac:(lia)).
        pose proof (Z.mod_pos_bound n 100 ltac:(lia)).
        unfold n in *. nia.
    + apply Forall_app. split; [done|]. fold n. case_decide; [|constructor].
      constructor; [|constructor]. right. by compute.
Qed.

Lemma batch_loop_progress w solutions input_dir output_dir names st :
  progress_inv st →
  progress_inv (batch_loop w solutions input_dir output_dir names st).
Proof.
  revert st. unfold batch_loop.
  induction names as [|n names IH]; intros st Hst; simpl; [done|].
  by apply IH, batch_step_progress.
Qed.

(** X14. A run of [batch_convert] that returns [n] has printed one
    progress line for each multiple of 100 up to [n], in order, each
    giving its multiple as the count, and every line it printed is such a
    line or a warning. *)
Theorem batch_progress_lines w input_dir output_dir sf n st :
  batch_convert w input_dir output_dir sf = inr (n, st) →
  0 ≤ n
  ∧ filter is_progress_line (stdout st)
    = (λ k, progress_line (100 * k)) <$> seqZ 1 (n `div` 100)
  ∧ Forall (λ l, is_warning_line l ∨ is_progress_line l) (stdout st).
Proof.
  unfold batch_convert.
  intros (_ & _ & (solutions & _ & [= <- <-])%bind_inr)%bind_inr.
  apply batch_loop_progress. by split_and!.
Qed.

Lemma batch_progress_lines_witness :
  ∃ st,
    batch_convert three_files "in" "out" None = inr (2, st)
    ∧ 0 ≤ 2
    ∧ filter is_progress_line (stdout st)
      = (λ k, progress_line (100 * k)) <$> seqZ 1 (2 `div` 100)
    ∧ Forall (λ l, is_warning_line l ∨ is_progress_line l) (stdout st).
Proof.
  eexists. split; [vm_compute; reflexivity|].
  exact (batch_progress_lines three_files "in" "out" None 2 _ eq_refl).
Defined.

(** X15. The outcome of [batch_convert] does not depend on the order in
    which the directory lists its files: the listing is sorted before the
    loop. *)
Theorem batch_convert_listing_order w names input_dir output_dir sf :
  names ≡ₚ glob_sm w →
  batch_convert (relisted w names) input_dir output_dir sf
  = batch_convert w input_dir output_dir sf.
Proof.
  intros Hp. unfold batch_convert. cbn [mkdir_error relisted glob_sm].
  unfold Py.sorted_strs. rewrite (merge_sort_perm_eq _ _ _ Hp). reflexivity.
Qed.

Lemma batch_convert_listing_order_witness :
  ["j101_1.sm"; "j10opt.sm"; "j102_1.sm"; "j103_1.sm"] ≡ₚ glob_sm three_files
  ∧ batch_convert
      (relisted three_files ["j101_1.sm"; "j10opt.sm"; "j102_1.sm"; "j103_1.sm"])
      "in" "out" None
    = batch_convert three_files "in" "out" None.
Proof.
  assert (["j101_1.sm"; "j10opt.sm"; "j102_1.sm"; "j103_1.sm"] ≡ₚ glob_sm three_files)
    as Hp.
  { simpl. apply (bool_decide_unpack _). vm_compute. exact I. }
  split; [exact Hp|].
  exact (batch_convert_listing_order three_files _ "in" "out" None Hp).
Defined.

(** X16. [batch_convert] raises exactly when the output directory cannot
    be made, or when a solutions file is named, exists and does not load
    (it cannot be read, or one of its lines raises).  A solutions file that
    is named and does not exist is no error: the run is the run without a
    solutions file. *)
Theorem batch_convert_raises_iff w input_dir output_dir sf e :
  (batch_convert w input_dir output_dir sf = inl e ↔
   mkdir_error w = Some e
   ∨ (mkdir_error w = None
      ∧ ∃ f, sf = Some f ∧ f ≠ EmptyString ∧ path_exists w f = true
             ∧ parse_optimal_solutions (read w) f = inl e))
  ∧ (∀ f, sf = Some f → path_exists w f = false →
       batch_convert w input_dir output_dir sf
       = batch_convert w input_dir output_dir None).
Proof.
  unfold batch_convert, load_if_present. split.
  - destruct (mkdir_error w) as [e'|]; simpl.
    + split; [intros [= <-]; by left|].
      intros [[= <-]|[[=] _]]. done.
    + destruct sf as [f|]; simpl.
      * destruct (decide (f = EmptyString)) as [->|Hne].
        { simpl. split; [done|]. intros [[=]|[_ (f & [= <-] & ? & _)]]. done. }
        rewrite bool_decide_eq_false_2 by done. simpl.
        destruct (path_exists w f) eqn:Hex; simpl.
        -- destruct (parse_optimal_solutions (read w) f) as [e'|sols] eqn:Hl; simpl.
           ++ split.
              ** intros [= <-]. right. split; [done|]. by exists f.
              ** intros [[=]|[_ (f' & [= <-] & _ & _ & He)]]. congruence.
           ++ split; [done|].
              intros [[=]|[_ (f' & [= <-] & _ & _ & He)]]. congruence.
        -- split; [done|].
           intros [[=]|[_ (f' & [= <-] & _ & He & _)]]. congruence.
      * split; [done|]. intros [[=]|[_ (f & [=] & _)]].
  - intros f -> Hex. rewrite Hex, andb_false_r. done.
Qed.


(** ** The command line *)

(** X17. [main] ends in [sys.exit] exactly when it has no argument, or
    when the first argument is [--batch] and fewer than two more follow;
    the status is then 1, nothing is written, and the one thing printed is
    the module docstring or the usage line of the batch mode. *)
Theorem main_usage_exit w argv :
  ((∃ status, ends (main w argv) = SystemExit status) ↔ bad_usage argv)
  ∧ (bad_usage argv →
       ends (main w argv) = SystemExit 1 ∧ files (main w argv) = []
       ∧ (printed (main w argv) = [module_doc] ∨ printed (main w argv) = [batch_usage])).
Proof.
  unfold bad_usage, main.
  destruct argv as [|prog [|arg1 args]]; simpl.
  - split; [split; [intros _; left; lia|by eexists]|]. intros _. split_and!; auto.
  - split; [split; [intros _; left; lia|by eexists]|]. intros _. split_and!; auto.
  - destruct (decide (arg1 = "--batch")) as [->|Hne].
    + destruct args as [|input_dir [|output_dir more]]; simpl.
      * split; [split; [intros _; right; split; [done|lia]|by eexists]|].
        intros _. split_and!; auto.
      * split; [split; [intros _; right; split; [done|lia]|by eexists]|].
        intros _. split_and!; auto.
      * destruct (batch_convert w input_dir output_dir (head more)) as [e|[count st]];
          simpl; (split; [split; [by intros [? [=]]|intros [?|[_ ?]]; lia]|]);
          intros [?|[_ ?]]; lia.
    + destruct (convert_one w arg1 _) as [e|[instance file]]; simpl;
        (split; [split; [by intros [? [=]]|intros [?|[[= ?] _]]; [lia|done]]|]);
        intros [?|[[= ?] _]]; [lia|done|lia|done].
Qed.

(** *** [str.replace] *)

Lemma replace_absent old new s :
  Py.contains old s = false → Py.replace old new s = s.
Proof.
  unfold Py.replace. induction s as [|a s IH]; [done|].
  cbn [Py.contains Py.replace_go]. intros [Hs Hc]%orb_false_elim.
  rewrite Hs. f_equal. by apply IH.
Qed.

Lemma starts_with_sm_app p :
  p ≠ EmptyString →
  Py.starts_with ".sm" (p +:+ ".sm") = true → Py.starts_with ".sm" p = true.
Proof.
  destruct p as [|a [|b [|c p]]]; [done|..]; intros _; simpl.
  - by destruct (bool_decide ("."%char = a)).
  - by destruct (bool_decide ("."%char = a)), (bool_decide ("s"%char = b)).
  - done.
Qed.

Lemma replace_sm_suffix p :
  Py.contains ".sm" p = false →
  Py.replace ".sm" ".proj" (p +:+ ".sm") = p +:+ ".proj".
Proof.
  unfold Py.replace. induction p as [|a p IH]; [done|].
  intros Hc. rewrite !append_cons. cbn [Py.replace_go].
  pose proof Hc as [Hs Hc']%orb_false_elim.
  destruct (Py.starts_with ".sm" (String a (p +:+ ".sm"))) eqn:E.
  - rewrite <- append_cons in E. apply starts_with_sm_app in E; [|done]. congruence.
  - f_equal. by apply IH.
Qed.

(** *** The single-file mode *)

Lemma convert_one_inv w input_file output_file inst file :
  convert_one w input_file output_file = inr (inst, file) →
  ∃ lines,
    parse_psplib (read w) input_file = inr inst
    ∧ proj_lines inst None = inr lines
    ∧ write_error w output_file = None
    ∧ file = (output_file, Py.join newline lines).
Proof.
  unfold convert_one.
  intros (inst' & Hp & (proj_content & Hc & (file' & Hw & [= <- <-])%bind_inr)%bind_inr)%bind_inr.
  unfold convert_to_proj in Hc.
  destruct (proj_lines inst' None) as [e|lines] eqn:Hl; [done|].
  injection Hc as <-. unfold write_file in Hw.
  destruct (write_error w output_file) eqn:Hwe; [done|].
  injection Hw as <-. by exists lines.
Qed.

Lemma proj_lines_no_makespan inst lines :
  proj_lines inst None = inr lines → filter is_makespan_line lines = [].
Proof.
  intros (blocks & HF & ->)%proj_lines_inv.
  by rewrite filter_app, header_lines_makespan, rest_lines_no_makespan.
Qed.

(** X18. In the single-file mode nothing is caught: an exception of the
    parser, of the translator or of the write leaves [main], with nothing
    printed and nothing written.  Otherwise [main] returns, having written
    one file, the translation of the parsed instance without a makespan
    comment, and printed two lines that name the files and the job and
    resource counts. *)
Theorem main_single_file w prog input_file args :
  input_file ≠ "--batch" →
  let output_file :=
    match args with
    | output_file :: _ => output_file
    | [] => Py.replace ".sm" ".proj" input_file
    end in
  let r := main w (prog :: input_file :: args) in
  (∀ e, ends r = Raises e ↔ convert_one w input_file output_file = inl e)
  ∧ (∀ e, ends r = Raises e → printed r = [] ∧ files r = [])
  ∧ (ends r = Returns ↔
     ∃ inst lines,
       parse_psplib (read w) input_file = inr inst
       ∧ proj_lines inst None = inr lines
       ∧ write_error w output_file = None
       ∧ filter is_makespan_line lines = []
       ∧ files r = [(output_file, Py.join newline lines)]
       ∧ printed r
         = [ "Converted " +:+ input_file +:+ " -> " +:+ output_file;
             "  Jobs: " +:+ Py.str (jobs inst) +:+ ", Resources: "
             +:+ Py.str (resources inst) ]).
Proof.
  intros Hne output_file r. subst r. unfold main.
  rewrite decide_False by done. fold output_file.
  destruct (convert_one w input_file output_file) as [e|[inst file]] eqn:E; simpl.
  - split_and!.
    + intros e'. split; by intros [= <-].
    + done.
    + split; [done|]. intros (inst & lines & Hp & Hl & Hw & _).
      unfold convert_one, convert_to_proj, write_file in E.
      rewrite Hp in E. simpl in E. rewrite Hl in E. simpl in E.
      rewrite Hw in E. done.
  - split_and!; [done|done|]. split; [|done]. intros _.
    apply convert_one_inv in E as (lines & Hp & Hl & Hw & ->).
    exists inst, lines. split_and!; try done. by eapply proj_lines_no_makespan.
Qed.

Lemma main_single_file_witness :
  "in/j101_1.sm" ≠ "--batch"
  ∧ let output_file := Py.replace ".sm" ".proj" "in/j101_1.sm" in
    let r := main one_file ["psplib_to_proj.py"; "in/j101_1.sm"] in
    (∀ e, ends r = Raises e ↔ convert_one one_file "in/j101_1.sm" output_file = inl e)
    ∧ (∀ e, ends r = Raises e → printed r = [] ∧ files r = [])
    ∧ (ends r = Returns ↔
       ∃ inst lines,
         parse_psplib (read one_file) "in/j101_1.sm" = inr inst
         ∧ proj_lines inst None = inr lines
         ∧ write_error one_file output_file = None
         ∧ filter is_makespan_line lines = []
         ∧ files r = [(output_file, Py.join newline lines)]
         ∧ printed r
           = [ "Converted " +:+ "in/j101_1.sm" +:+ " -> " +:+ output_file;
               "  Jobs: " +:+ Py.str (jobs inst) +:+ ", Resources: "
               +:+ Py.str (resources inst) ]).
Proof.
  assert ("in/j101_1.sm" ≠ "--batch") as Hne by done.
  split; [exact Hne|].
  exact (main_single_file one_file "psplib_to_proj.py" "in/j101_1.sm" [] Hne).
Defined.

(** X19. Without a second argument the output path is the input path
    with every [.sm] replaced by [.proj]: [<p>.proj] for an input [<p>.sm]
    whose [<p>] holds no [.sm], and the input path itself when it holds no
    [.sm] at all, so that the input file is written over. *)
Theorem main_default_output_path w prog input_file :
  input_file ≠ "--batch" →
  ends (main w [prog; input_file]) = Returns →
  ∃ proj_content,
    files (main w [prog; input_file])
    = [(Py.replace ".sm" ".proj" input_file, proj_content)]
    ∧ (Py.contains ".sm" input_file = false →
         files (main w [prog; input_file]) = [(input_file, proj_content)])
    ∧ (∀ p, input_file = p +:+ ".sm" → Py.contains ".sm" p = false →
         files (main w [prog; input_file]) = [(p +:+ ".proj", proj_content)]).
Proof.
  intros Hne. unfold main. rewrite decide_False by done.
  destruct (convert_one w input_file _) as [e|[inst file]] eqn:E; simpl; [done|].
  intros _. apply convert_one_inv in E as (lines & _ & _ & _ & ->).
  exists (Py.join newline lines). split_and!.
  - done.
  - intros Hc. by rewrite replace_absent.
  - intros p -> Hc. by rewrite replace_sm_suffix.
Qed.

Lemma main_default_output_path_witness :
  "in/j101_1.sm" ≠ "--batch"
  ∧ ends (main one_file ["psplib_to_proj.py"; "in/j101_1.sm"]) = Returns
  ∧ ∃ proj_content,
      files (main one_file ["psplib_to_proj.py"; "in/j101_1.sm"])
      = [(Py.replace ".sm" ".proj" "in/j101_1.sm", proj_content)]
      ∧ (Py.contains ".sm" "in/j101_1.sm" = false →
           files (main one_file ["psplib_to_proj.py"; "in/j101_1.sm"])
           = [("in/j101_1.sm", proj_content)])
      ∧ (∀ p, "in/j101_1.sm" = p +:+ ".sm" → Py.contains ".sm" p = false →
           files (main one_file ["psplib_to_proj.py"; "in/j101_1.sm"])
           = [(p +:+ ".proj", proj_content)]).
Proof.
  assert ("in/j101_1.sm" ≠ "--batch") as Hne by done.
  assert (ends (main one_file ["psplib_to_proj.py"; "in/j101_1.sm"]) = Returns) as Hr
    by (vm_compute; reflexivity).
  split; [exact Hne|]. split; [exact Hr|].
  exact (main_default_output_path one_file "psplib_to_proj.py" "in/j101_1.sm" Hne Hr).
Defined.

(** *** The batch mode *)

(** X20. In the batch mode [main] first prints the banner with the input
    directory.  It raises exactly when [batch_convert] does, having printed
    the banner only and written nothing; when it returns, the last line
    printed gives as count the number of files written.  Arguments past the
    solutions file are not read. *)
Theorem main_batch_mode w prog input_dir output_dir more :
  let r := main w (prog :: "--batch" :: input_dir :: output_dir :: more) in
  head (printed r)
  = Some ("Converting PSPLIB instances from " +:+ input_dir +:+ "...")
  ∧ (∀ e, ends r = Raises e ↔
          batch_convert w input_dir output_dir (head more) = inl e)
  ∧ (∀ e, ends r = Raises e → files r = [] ∧ length (printed r) = 1%nat)
  ∧ (ends r = Returns →
       last (printed r)
       = Some ("Converted " +:+ Py.str (Z.of_nat (length (files r)))
               +:+ " instances to " +:+ output_dir))
  ∧ r = main w (prog :: "--batch" :: input_dir :: output_dir :: option_list (head more)).
Proof.
  intros r. subst r. unfold main. rewrite decide_True by done.
  assert (head (option_list (head more)) = head more) as -> by by destruct more.
  destruct (batch_convert w input_dir output_dir (head more)) as [e|[count st]] eqn:E;
    simpl.
  - split_and!; try done. intros e'. split; by intros [= <-].
  - split_and!; try done. intros _.
    rewrite app_comm_cons, last_snoc.
    unfold batch_convert in E.
    apply bind_inr in E as (_ & _ & (solutions & _ & [= <- <-])%bind_inr).
    destruct (batch_loop_spec w solutions input_dir output_dir
                (Py.sorted_strs (glob_sm w)) (mkBatch 0 [] [])) as (Hw & Hc & _).
    simpl in *. rewrite Hc, Hw. done.
Qed.

